(** * curtin: partition-table layout and storage-config dependency ordering

    A shallow embedding of
      - curtin/commands/block_meta_v2.py (align_up, SFDiskPartTable,
        GPTPartTable.add, DOSPartTable.add, _wipe_for_action), and
      - curtin/storage_config.py (_stype_to_deps, _stype_to_order_key,
        _validate_dep_type, find_item_dependencies, get_config_tree,
        merge_config_trees_to_list, extract_storage_ordered_dict),
    with the properties of these functions stated and proved over it.

    Python integers are unbounded, so they are [Z]; [//] and [%] are floor
    division and floor modulo, which is what [Z.div] and [Z.modulo] are, and
    [&] and [~] on Python integers act on the infinite two's complement
    representation, which is what [Z.land] and [Z.lnot] do. *)

From Stdlib Require Import ZArith List String Ascii Bool Lia Permutation
  Sorted.
Import ListNotations.

Local Open Scope string_scope.
Local Open Scope list_scope.
Local Open Scope Z_scope.

(** ** Exceptions

    A call either returns a value or raises.  The exceptions raised by the
    embedded code are kept apart by their Python class; the two plain
    [Exception]s of DOSPartTable.add and the one of the constructor are kept
    apart by what they report. *)

Inductive error : Type :=
| ValueError
| KeyError
| TypeError
| IndexError
| ZeroDivisionError
| RecursionError
| SectorBytesDoesNotDivide    (* "sector_bytes ... does not divide 1MiB" *)
| LogicalWithoutExtended      (* "logical partition without extended partition" *)
| PrimaryNumberTooLarge (number : Z). (* "primary partition cannot have number N" *)

Inductive result (A : Type) : Type :=
| Ok (a : A)
| Err (e : error).
Arguments Ok {A} a.
Arguments Err {A} e.

Definition bind {A B : Type} (r : result A) (k : A -> result B) : result B :=
  match r with
  | Ok a => k a
  | Err e => Err e
  end.

Notation "x <- c ;; k" := (bind c (fun x => k))
  (at level 61, c at next level, right associativity).

(** The spec's names for the two error kinds of the MBR table. *)
Definition MissingExtendedPartition : error := LogicalWithoutExtended.
Definition TooManyPrimaries (number : Z) : error := PrimaryNumberTooLarge number.

(** A dict built by inserting the pairs in order: the last pair of a key is
    the one that stays. *)
Fixpoint dict_get {V : Type} (d : list (string * V)) (k : string) : option V :=
  match d with
  | [] => None
  | (k', v) :: d' =>
      match dict_get d' k with
      | Some v' => Some v'
      | None => if String.eqb k' k then Some v else None
      end
  end.

(** ** block_meta_v2.py: alignment *)

Module BlockMeta.

Definition ONE_MIB_BYTES : Z := Z.shiftl 1 20.

(** def align_up(size, block_size):
        return (size + block_size - 1) & ~(block_size - 1) *)
Definition align_up (size block_size : Z) : Z :=
  Z.land (size + block_size - 1) (Z.lnot (block_size - 1)).

(** def align_down(size, block_size): return size & ~(block_size - 1) *)
Definition align_down (size block_size : Z) : Z :=
  Z.land size (Z.lnot (block_size - 1)).

(** ** storage_config.py: GPT_GUID_TO_CURTIN_MAP, as (guid, (flag, typecode)) *)

Definition GPT_GUID_TO_CURTIN_MAP : list (string * (string * string)) :=
  [ ("C12A7328-F81F-11D2-BA4B-00A0C93EC93B", ("boot", "EF00"));
    ("21686148-6449-6E6F-744E-656564454649", ("bios_grub", "EF02"));
    ("933AC7E1-2EB4-4F13-B844-0E14E2AEF915", ("home", "8302"));
    ("0FC63DAF-8483-4772-8E79-3D69D8477DE4", ("linux", "8300"));
    ("E6D6D379-F507-44C2-A23C-238F2A3DF928", ("lvm", "8e00"));
    ("024DEE41-33E7-11D3-9D69-0008C781F39F", ("mbr", ""));
    ("9E1A2D38-C612-4316-AA26-8B49521E5A8B", ("prep", "4200"));
    ("A19D880F-05FC-4D3B-A006-743F0F84911E", ("raid", "fd00"));
    ("0657FD6D-A4AB-43C4-84E5-0933C84B4F4F", ("swap", "8200")) ].

(** str.upper() on the ASCII letters, which is all the type codes hold. *)
Definition upper_ascii (c : ascii) : ascii :=
  let n := nat_of_ascii c in
  if andb (Nat.leb 97 n) (Nat.leb n 122) then ascii_of_nat (n - 32) else c.

Fixpoint upper (s : string) : string :=
  match s with
  | EmptyString => EmptyString
  | String c s' => String (upper_ascii c) (upper s')
  end.

(** FLAG_TO_GUID = {flag: guid for (guid, (flag, typecode)) in ...items()} *)
Definition FLAG_TO_GUID : list (string * string) :=
  map (fun '(guid, (flag, typecode)) => (flag, guid)) GPT_GUID_TO_CURTIN_MAP.

(** FLAG_TO_MBR_TYPE = {flag: typecode[:2].upper() for ...}
    FLAG_TO_MBR_TYPE['extended'] = '05' *)
Definition FLAG_TO_MBR_TYPE : list (string * string) :=
  map (fun '(guid, (flag, typecode)) => (flag, upper (substring 0 2 typecode)))
      GPT_GUID_TO_CURTIN_MAP
  ++ [("extended", "05")].

(** FLAG_TO_X.get(action.get('flag')): a missing flag is looked up as None,
    which is no key of either table. *)
Definition flag_lookup (d : list (string * string)) (flag : option string)
  : option string :=
  match flag with
  | Some f => dict_get d f
  | None => None
  end.

(** ** block_meta_v2.py: the partition tables *)

(** class PartTableEntry.  [bootable] defaults to False; DOSPartTable.add
    passes True or None. *)
Record PartTableEntry : Type := {
  number : Z;
  start : Z;
  size : Z;
  type : option string;
  uuid : option string;
  bootable : option bool
}.

Section PartTable.

(** curtin/util.py is not part of the sources at hand: [amount] is what a
    partition action carries as 'size' or 'offset', and [human2bytes] is the
    integer [int(util.human2bytes(amount))] that bytes2sectors divides. *)
Variable amount : Type.
Variable human2bytes : amount -> Z.

(** A partition action is a dict; these are the keys the tables read, each
    absent ([None]) or present.  [action_preserve] is the truth value of
    action.get('preserve', False). *)
Record action : Type := {
  action_number : option Z;
  action_offset : option amount;
  action_size : option amount;
  action_flag : option string;
  action_uuid : option string;
  action_preserve : bool;
  action_wipe : option string
}.

(** class SFDiskPartTable: the state shared by both tables. *)
Record SFDiskPartTable : Type := {
  entries : list PartTableEntry;
  _sector_bytes : Z;
  one_mib_sectors : Z
}.

(** SFDiskPartTable.__init__(sector_bytes) *)
Definition new_SFDiskPartTable (sector_bytes : Z) : result SFDiskPartTable :=
  if sector_bytes =? 0 then Err ZeroDivisionError
  else if negb (ONE_MIB_BYTES mod sector_bytes =? 0)
       then Err SectorBytesDoesNotDivide
       else Ok {| entries := [];
                  _sector_bytes := sector_bytes;
                  one_mib_sectors := ONE_MIB_BYTES / sector_bytes |}.

(** def bytes2sectors(self, amount):
        return int(util.human2bytes(amount)) // self._sector_bytes *)
Definition bytes2sectors (t : SFDiskPartTable) (a : amount) : Z :=
  human2bytes a / _sector_bytes t.

Definition sectors2bytes (t : SFDiskPartTable) (n : Z) : Z :=
  n * _sector_bytes t.

(** self.entries.append(entry) *)
Definition append_entry (t : SFDiskPartTable) (e : PartTableEntry)
  : SFDiskPartTable :=
  {| entries := entries t ++ [e];
     _sector_bytes := _sector_bytes t;
     one_mib_sectors := one_mib_sectors t |}.

(** self.entries[-1] when self.entries is not empty *)
Definition last_entry (es : list PartTableEntry) : option PartTableEntry :=
  hd_error (rev es).

(** action.get('number', len(self.entries) + 1) *)
Definition default_number (t : SFDiskPartTable) (a : action) : Z :=
  match action_number a with
  | Some n => n
  | None => Z.of_nat (List.length (entries t)) + 1
  end.

(** action['size'], a KeyError when the key is absent *)
Definition size_of_action (t : SFDiskPartTable) (a : action) : result Z :=
  match action_size a with
  | Some s => Ok (bytes2sectors t s)
  | None => Err KeyError
  end.

(** GPTPartTable.add: the table after the call and what the call returns or
    raises.  Nothing is appended when the call raises. *)
Definition GPTPartTable_add (t : SFDiskPartTable) (a : action)
  : SFDiskPartTable * result PartTableEntry :=
  let number := default_number t a in
  let start :=
    match action_offset a with
    | Some off => bytes2sectors t off
    | None =>
        match last_entry (entries t) with
        | Some prev => align_up (start prev + size prev) (one_mib_sectors t)
        | None => one_mib_sectors t
        end
    end in
  match size_of_action t a with
  | Err e => (t, Err e)
  | Ok size =>
      let entry := {| number := number; start := start; size := size;
                      type := flag_lookup FLAG_TO_GUID (action_flag a);
                      uuid := action_uuid a;
                      bootable := Some false |} in
      (append_entry t entry, Ok entry)
  end.

(** class DOSPartTable: the shared state and the remembered extended entry. *)
Record DOSPartTable : Type := {
  sfdisk : SFDiskPartTable;
  _extended : option PartTableEntry
}.

Definition new_DOSPartTable (sector_bytes : Z) : result DOSPartTable :=
  t <- new_SFDiskPartTable sector_bytes ;;
  Ok {| sfdisk := t; _extended := None |}.

(** for entry in reversed(self.entries): if entry.number > 4: prev = entry; break *)
Definition last_logical (es : list PartTableEntry) : option PartTableEntry :=
  find (fun e => 4 <? number e) (rev es).

(** for entry in self.entries: if entry.number <= 4: prev = entry *)
Definition last_primary (es : list PartTableEntry) : option PartTableEntry :=
  fold_left (fun prev e => if number e <=? 4 then Some e else prev) es None.

Definition flag_is (a : action) (f : string) : bool :=
  match action_flag a with
  | Some g => String.eqb g f
  | None => false
  end.

(** The number and the start sector DOSPartTable.add settles on, or the
    exception of the branch taken. *)
Definition DOSPartTable_place (t : DOSPartTable) (a : action)
  : result (Z * Z) :=
  let b := one_mib_sectors (sfdisk t) in
  let start := option_map (bytes2sectors (sfdisk t)) (action_offset a) in
  if flag_is a "logical" then
    match _extended t with
    | None => Err LogicalWithoutExtended
    | Some ext =>
        match last_logical (entries (sfdisk t)) with
        | None =>
            Ok (5, match start with
                   | Some s => s
                   | None => align_up (BlockMeta.start ext + b) b
                   end)
        | Some prev =>
            Ok (number prev + 1,
                match start with
                | Some s => s
                | None =>
                    align_up (BlockMeta.start prev + size prev + b) b
                end)
        end
    end
  else
    let number := default_number (sfdisk t) a in
    if 4 <? number then Err (PrimaryNumberTooLarge number)
    else
      Ok (number,
          match start with
          | Some s => s
          | None =>
              match last_primary (entries (sfdisk t)) with
              | None => b
              | Some prev => align_up (BlockMeta.start prev + size prev) b
              end
          end).

(** DOSPartTable.add *)
Definition DOSPartTable_add (t : DOSPartTable) (a : action)
  : DOSPartTable * result PartTableEntry :=
  match DOSPartTable_place t a with
  | Err e => (t, Err e)
  | Ok (number, start) =>
      match size_of_action (sfdisk t) a with
      | Err e => (t, Err e)
      | Ok size =>
          let entry := {| number := number; start := start; size := size;
                          type := flag_lookup FLAG_TO_MBR_TYPE (action_flag a);
                          uuid := None;
                          bootable := if flag_is a "boot" then Some true
                                      else None |} in
          ({| sfdisk := append_entry (sfdisk t) entry;
              _extended := if flag_is a "extended" then Some entry
                           else _extended t |},
           Ok entry)
      end
  end.

(** Calling add once per action, in order, on the same table; a call that
    raises leaves the table as it was. *)
Definition GPTPartTable_add_each (t : SFDiskPartTable) (acts : list action)
  : SFDiskPartTable :=
  fold_left (fun t a => fst (GPTPartTable_add t a)) acts t.

Definition DOSPartTable_add_each (t : DOSPartTable) (acts : list action)
  : DOSPartTable :=
  fold_left (fun t a => fst (DOSPartTable_add t a)) acts t.

(** What a call of add hands back to its caller: the entry when it returns,
    nothing when it raises. *)
Definition returned (r : result PartTableEntry) : list PartTableEntry :=
  match r with
  | Ok e => [e]
  | Err _ => []
  end.

(** The entries the calls of add return, one call per action, in order, on
    the same table. *)
Fixpoint GPTPartTable_add_returns (t : SFDiskPartTable) (acts : list action)
  : list PartTableEntry :=
  match acts with
  | [] => []
  | a :: acts' =>
      returned (snd (GPTPartTable_add t a))
      ++ GPTPartTable_add_returns (fst (GPTPartTable_add t a)) acts'
  end.

Fixpoint DOSPartTable_add_returns (t : DOSPartTable) (acts : list action)
  : list PartTableEntry :=
  match acts with
  | [] => []
  | a :: acts' =>
      returned (snd (DOSPartTable_add t a))
      ++ DOSPartTable_add_returns (fst (DOSPartTable_add t a)) acts'
  end.

(** An entry with the type code of an extended partition. *)
Definition has_extended_type (e : PartTableEntry) : bool :=
  match type e with
  | Some ty => String.eqb ty "05"
  | None => false
  end.

(** def _wipe_for_action(action); [None] is Python's None. *)
Definition _wipe_for_action (a : action) : option string :=
  match action_wipe a with
  | Some w => Some w
  | None =>
      if action_preserve a then None
      else if flag_is a "extended" then None else Some "superblock"
  end.

End PartTable.

Arguments action_number {amount} a.
Arguments action_offset {amount} a.
Arguments action_size {amount} a.
Arguments action_flag {amount} a.
Arguments action_uuid {amount} a.
Arguments action_preserve {amount} a.
Arguments action_wipe {amount} a.
Arguments bytes2sectors {amount} human2bytes t a.
Arguments default_number {amount} t a.
Arguments size_of_action {amount} human2bytes t a.
Arguments flag_is {amount} a f.
Arguments GPTPartTable_add {amount} human2bytes t a.
Arguments DOSPartTable_place {amount} human2bytes t a.
Arguments DOSPartTable_add {amount} human2bytes t a.
Arguments GPTPartTable_add_each {amount} human2bytes t acts.
Arguments DOSPartTable_add_each {amount} human2bytes t acts.
Arguments GPTPartTable_add_returns {amount} human2bytes t acts.
Arguments DOSPartTable_add_returns {amount} human2bytes t acts.
Arguments _wipe_for_action {amount} a.

(** ** block_meta_v2.py: _find_part_info *)

Section FindPartInfo.

(** An entry of sfdisk_info['partitions'] is a dict produced by
    block.sfdisk_info, which is not part of the sources at hand; [part] is
    such an entry and [part_start] its part['start']. *)
Variable part : Type.
Variable part_start : part -> Z.

(** def _find_part_info(sfdisk_info, offset), on sfdisk_info['partitions'];
    [None] is the raised Exception "could not find existing partition by
    offset". *)
Fixpoint _find_part_info (partitions : list part) (offset : Z)
  : option part :=
  match partitions with
  | [] => None
  | p :: rest =>
      if part_start p =? offset then Some p else _find_part_info rest offset
  end.

End FindPartInfo.

Arguments _find_part_info {part} part_start partitions offset.

(** ** What is stated of a table *)

(** The layout invariant of a table with blocks of [2^k] sectors. *)
Definition gpt_layout (b : Z) (es : list PartTableEntry) : Prop :=
  Forall (fun e => (b | start e)) es /\
  Sorted (fun e1 e2 => start e1 + size e1 <= start e2) es /\
  Sorted (fun e1 e2 => 0 < size e1 -> start e1 < start e2) es.

(** ** Actions used below

    Sizes given in bytes: [amount] is [Z] and the conversion is the
    identity.  [sized_action flag size] is the action
    {'flag': flag, 'size': size}. *)

Definition sized_action (flag : option string) (size : Z) : action Z :=
  {| action_number := None; action_offset := None; action_size := Some size;
     action_flag := flag; action_uuid := None; action_preserve := false;
     action_wipe := None |}.

Definition bytes_id (n : Z) : Z := n.

Definition dos_table_512 : DOSPartTable :=
  {| sfdisk := {| entries := []; _sector_bytes := 512;
                  one_mib_sectors := 2048 |};
     _extended := None |}.

Definition gpt_table_512 : SFDiskPartTable :=
  {| entries := []; _sector_bytes := 512; one_mib_sectors := 2048 |}.

Definition six_actions : list (action Z) :=
  [ sized_action (Some "primary") 1048576;
    sized_action (Some "primary") 1048576;
    sized_action (Some "primary") 1000000;
    sized_action (Some "extended") 10485760;
    sized_action (Some "logical") 1000000;
    sized_action (Some "logical") 2097152 ].

(** The table after the first four of [six_actions], and the entries the
    fourth and the fifth call return. *)
Definition four_actions : list (action Z) := firstn 4 six_actions.

Definition extended_entry_4 : PartTableEntry :=
  {| number := 4; start := 8192; size := 20480; type := Some "05";
     uuid := None; bootable := None |}.

Definition logical_entry_5 : PartTableEntry :=
  {| number := 5; start := 10240; size := 1953; type := None;
     uuid := None; bootable := None |}.

Definition extended_wipe_action : action Z :=
  {| action_number := None; action_offset := None;
     action_size := Some 10485760; action_flag := Some "extended";
     action_uuid := None; action_preserve := false;
     action_wipe := Some "superblock" |}.

End BlockMeta.

(** ** storage_config.py: items and configurations *)

Module StorageConfig.

(** The values a field of a storage item holds: a string, an integer (a
    partition's 'number'), or a list of ids ('devices', 'vdevs'). *)
Inductive value : Type :=
| VStr (s : string)
| VInt (n : Z)
| VList (l : list string).

(** What a dependency field names: the field's own value when it is not a
    list, or an element of the list. *)
Inductive ref : Type :=
| RStr (s : string)
| RInt (n : Z).

(** A storage item is a dict that always has 'id' and 'type', both strings
    (the storage schema requires them); [fields] holds its other keys. *)
Record item : Type := {
  id : string;
  type : string;
  fields : list (string * value)
}.

(** cfg.get(k); cfg[k] is the same with a KeyError for [None]. *)
Definition item_get (cfg : item) (k : string) : option value :=
  if String.eqb k "id" then Some (VStr (id cfg))
  else if String.eqb k "type" then Some (VStr (type cfg))
  else dict_get (fields cfg) k.

(** if not isinstance(dep_value, list): dep_value = [dep_value] *)
Definition refs_of (v : value) : list ref :=
  match v with
  | VStr s => [RStr s]
  | VInt n => [RInt n]
  | VList l => map RStr l
  end.

(** item_cfg.get(dep_key) == dep, for an element [dep] of dep_value *)
Definition value_is_ref (v : option value) (r : ref) : bool :=
  match v, r with
  | Some (VStr s), RStr t => String.eqb s t
  | Some (VInt n), RInt m => n =? m
  | _, _ => false
  end.

(** An OrderedDict with string keys: the pairs in insertion order. *)
Definition odict (V : Type) : Type := list (string * V).

Fixpoint odict_get {V : Type} (d : odict V) (k : string) : option V :=
  match d with
  | [] => None
  | (k', v) :: d' => if String.eqb k' k then Some v else odict_get d' k
  end.

Definition odict_mem {V : Type} (d : odict V) (k : string) : bool :=
  match odict_get d k with Some _ => true | None => false end.

(** d[k] = v: a key already present keeps its place and takes the value. *)
Fixpoint odict_set {V : Type} (d : odict V) (k : string) (v : V) : odict V :=
  match d with
  | [] => [(k, v)]
  | (k', v') :: d' =>
      if String.eqb k' k then (k, v) :: d' else (k', v') :: odict_set d' k v
  end.

(** config.get(r) and [r in config]: the keys are strings, so an integer is
    no key. *)
Definition config_get (config : odict item) (r : ref) : option item :=
  match r with
  | RStr s => odict_get config s
  | RInt _ => None
  end.

(** ** Sorting as sorted(list, key=...) does

    The key function is applied to every element first; the keys are then
    compared with [<].  Strings compare by code point, integers by value,
    lists lexicographically; comparing values of different kinds is a
    TypeError, which any sort of two or more elements of mixed kinds meets.
    The sort is stable. *)

Fixpoint list_compare (l m : list string) : comparison :=
  match l, m with
  | [], [] => Eq
  | [], _ :: _ => Lt
  | _ :: _, [] => Gt
  | a :: l', b :: m' =>
      match String.compare a b with
      | Eq => list_compare l' m'
      | c => c
      end
  end.

Definition value_compare (a b : value) : comparison :=
  match a, b with
  | VStr s, VStr t => String.compare s t
  | VInt n, VInt m => Z.compare n m
  | VList l, VList m => list_compare l m
  | VStr _, _ => Lt
  | VInt _, VStr _ => Gt
  | VInt _, VList _ => Lt
  | VList _, _ => Gt
  end.

Definition value_ltb (a b : value) : bool :=
  match value_compare a b with Lt => true | _ => false end.

Definition same_kind (a b : value) : bool :=
  match a, b with
  | VStr _, VStr _ | VInt _, VInt _ | VList _, VList _ => true
  | _, _ => false
  end.

Definition comparable (keys : list value) : bool :=
  match keys with
  | [] => true
  | k :: ks => forallb (same_kind k) ks
  end.

Fixpoint mapM {A B : Type} (f : A -> result B) (l : list A)
  : result (list B) :=
  match l with
  | [] => Ok []
  | x :: l' => y <- f x ;; ys <- mapM f l' ;; Ok (y :: ys)
  end.

(** A loop that carries a value and stops at the first exception. *)
Fixpoint foldM {A B : Type} (f : B -> A -> result B) (l : list A) (b : B)
  : result B :=
  match l with
  | [] => Ok b
  | x :: l' => b' <- f b x ;; foldM f l' b'
  end.

Section Sorted.
Context {A : Type}.

Fixpoint insert_keyed (x : value * A) (l : list (value * A))
  : list (value * A) :=
  match l with
  | [] => [x]
  | y :: l' =>
      if value_ltb (fst y) (fst x) then y :: insert_keyed x l' else x :: l
  end.

Definition sort_keyed (l : list (value * A)) : list (value * A) :=
  fold_right insert_keyed [] l.

(** The order a sorted list is in: no element is below the one before it. *)
Definition keyed_le (x y : value * A) : Prop :=
  value_ltb (fst y) (fst x) = false.

Definition sorted (l : list A) (key : A -> result value) : result (list A) :=
  keyed <- mapM (fun x => k <- key x ;; Ok (k, x)) l ;;
  if comparable (map fst keyed) then Ok (map snd (sort_keyed keyed))
  else Err TypeError.

End Sorted.

(** operator.itemgetter(k): cfg[k] *)
Definition itemgetter (k : string) (cfg : item) : result value :=
  match item_get cfg k with
  | Some v => Ok v
  | None => Err KeyError
  end.

(** ** The type registry *)

Definition depends_keys : list (string * list string) :=
  [ ("bcache", ["backing_device"; "cache_device"]);
    ("dasd", []);
    ("disk", []);
    ("dm_crypt", ["volume"]);
    ("format", ["volume"]);
    ("lvm_partition", ["volgroup"]);
    ("lvm_volgroup", ["devices"]);
    ("mount", ["device"]);
    ("partition", ["device"]);
    ("raid", ["devices"; "spare_devices"; "container"]);
    ("zfs", ["pool"]);
    ("zpool", ["vdevs"]) ].

(** Each order key is a set of one field name, written as that name;
    operator.itemgetter on the unpacked set is then itemgetter of the one
    name. *)
Definition order_key : list (string * string) :=
  [ ("bcache", "name");
    ("dasd", "id");
    ("disk", "id");
    ("dm_crypt", "id");
    ("format", "id");
    ("lvm_partition", "name");
    ("lvm_volgroup", "name");
    ("mount", "path");
    ("partition", "number");
    ("raid", "id");
    ("zfs", "volume");
    ("zpool", "id") ].

Definition depends : list (string * list string) :=
  [ ("bcache", ["bcache"; "disk"; "dm_crypt"; "lvm_partition"; "partition";
                "raid"]);
    ("dasd", []);
    ("disk", ["dasd"]);
    ("dm_crypt", ["bcache"; "disk"; "dm_crypt"; "lvm_partition"; "partition";
                  "raid"]);
    ("format", ["bcache"; "disk"; "dm_crypt"; "lvm_partition"; "partition";
                "raid"]);
    ("lvm_partition", ["lvm_volgroup"]);
    ("lvm_volgroup", ["bcache"; "disk"; "dm_crypt"; "partition"; "raid"]);
    ("mount", ["format"]);
    ("partition", ["bcache"; "disk"; "raid"; "partition"]);
    ("raid", ["bcache"; "disk"; "dm_crypt"; "lvm_partition"; "partition";
              "raid"]);
    ("zfs", ["zpool"]);
    ("zpool", ["disk"; "partition"]) ].

(** def _stype_to_order_key(stype) *)
Definition _stype_to_order_key (stype : string) : result string :=
  match dict_get order_key stype with
  | Some k => Ok k
  | None => Err ValueError
  end.

Definition str_in (s : string) (l : list string) : bool :=
  existsb (String.eqb s) l.

(** def _validate_dep_type(source_id, dep_key, dep_id, sconfig); every
    failure is a ValueError. *)
Definition _validate_dep_type (source_id : ref) (dep_key : string)
    (dep_id : ref) (sconfig : odict item) : result bool :=
  match config_get sconfig source_id with
  | None => Err ValueError
  | Some source =>
      match config_get sconfig dep_id with
      | None => Err ValueError
      | Some dep =>
          match dict_get depends (type source) with
          | None => Err ValueError
          | Some source_deps =>
              match dict_get depends (type dep) with
              | None => Err ValueError
              | Some _ =>
                  if str_in (type dep) source_deps then Ok true
                  else Err ValueError
              end
          end
      end
  end.

Section Resolver.

(** The order in which Python iterates over a set of two or more strings is
    not fixed by the source; it is a parameter here. *)
Variable set_order : list string -> list string.

Definition iter_set (ks : list string) : list string :=
  match ks with
  | [] | [_] => ks
  | _ => set_order ks
  end.

(** def _stype_to_deps(stype), in the order the caller's loop meets the
    keys *)
Definition _stype_to_deps (stype : string) : result (list string) :=
  match dict_get depends_keys stype with
  | Some ks => Ok (iter_set ks)
  | None => Err KeyError
  end.

(** _find_same_dep(dep_key, dep_value, config) *)
Definition _find_same_dep (dep_key : string) (dep_value : ref)
    (config : odict item) : list string :=
  map fst (filter (fun '(item_id, item_cfg) =>
                     value_is_ref (item_get item_cfg dep_key) dep_value)
                  config).

(** [cfg for sdep, cfg in config.items() if sdep in same_deps] *)
Definition sdeps_cfgs (same_deps : list string) (config : odict item)
  : list item :=
  map snd (filter (fun '(sdep, cfg) => str_in sdep same_deps) config).

(** The body of [for dep in dep_value] of find_item_dependencies; [lower]
    is the recursive call. *)
Definition resolve_dep (lower : ref -> result (option (list ref)))
    (item_id : ref) (config : odict item) (validate : bool)
    (item_order dep_key : string) (deps : list ref) (dep : ref)
  : result (list ref) :=
  _ <- (if validate then _validate_dep_type item_id dep_key dep config
        else Ok true) ;;
  let same_deps := _find_same_dep dep_key dep config in
  sorted_deps <- sorted (sdeps_cfgs same_deps config)
                        (itemgetter item_order) ;;
  let deps := deps ++ map (fun sdep => RStr (id sdep)) sorted_deps in
  lower_deps <- lower dep ;;
  match lower_deps with
  | Some (d :: ds) => Ok (deps ++ d :: ds)
  | _ => Ok deps
  end.

(** The body of [for dep_key in _stype_to_deps(item_type)]. *)
Definition resolve_key (lower : ref -> result (option (list ref)))
    (item_id : ref) (config : odict item) (validate : bool)
    (item_cfg : item) (item_order : string) (deps : list ref)
    (dep_key : string) : result (list ref) :=
  match item_get item_cfg dep_key with
  | None => Ok deps
  | Some v =>
      let dep_value := refs_of v in
      foldM (resolve_dep lower item_id config validate item_order dep_key)
            dep_value (deps ++ dep_value)
  end.

(** def find_item_dependencies(item_id, config, validate=True).
    [depth] is how many nested calls the interpreter still allows; a call
    beyond it raises RecursionError.  The result [None] is Python's None. *)
Fixpoint find_item_dependencies (depth : nat) (item_id : ref)
    (config : odict item) (validate : bool) : result (option (list ref)) :=
  match depth with
  | O => Err RecursionError
  | S depth' =>
      match config with
      | [] => Err ValueError
      | _ :: _ =>
          match config_get config item_id with
          | None => Ok None
          | Some item_cfg =>
              let item_type := type item_cfg in
              item_order <- _stype_to_order_key item_type ;;
              dep_keys <- _stype_to_deps item_type ;;
              deps <- foldM
                        (resolve_key
                           (fun dep =>
                              find_item_dependencies depth' dep config true)
                           item_id config validate item_cfg item_order)
                        dep_keys [] ;;
              Ok (Some deps)
          end
      end
  end.

(** def extract_storage_ordered_dict(config), on the list under
    config['storage']['config'] *)
Definition extract_storage_ordered_dict (scfg : list item)
  : result (odict item) :=
  match scfg with
  | [] => Err ValueError
  | _ :: _ => Ok (fold_left (fun d cfg => odict_set d (id cfg) cfg) scfg [])
  end.

(** sconfig[k] *)
Definition getitem (sconfig : odict item) (r : ref) : result item :=
  match config_get sconfig r with
  | Some cfg => Ok cfg
  | None => Err KeyError
  end.

(** item_deps[dep] = sconfig[dep]; only a string ever becomes a key. *)
Definition tree_insert (sconfig : odict item) (item_deps : odict item)
    (dep : ref) : result (odict item) :=
  cfg <- getitem sconfig dep ;;
  match dep with
  | RStr k => Ok (odict_set item_deps k cfg)
  | RInt _ => Err KeyError
  end.

(** def get_config_tree(item, storage_config) *)
Definition get_config_tree (depth : nat) (item_id : string)
    (scfg : list item) : result (odict item) :=
  sconfig <- extract_storage_ordered_dict scfg ;;
  root <- getitem sconfig (RStr item_id) ;;
  deps <- find_item_dependencies depth (RStr item_id) sconfig true ;;
  match deps with
  | None => Err TypeError
  | Some deps => foldM (tree_insert sconfig) deps [(item_id, root)]
  end.

End Resolver.

(** ** merge_config_trees_to_list *)

(** reg[top_item_id] = {'level': level, 'config': item_cfg} *)
Record entry : Type := {
  level : nat;
  config : item
}.

(** One turn of [for tree in config_trees], on (reg, max_level). *)
Definition register_tree (state : odict entry * nat) (tree : odict item)
  : result (odict entry * nat) :=
  let (reg, max_level) := state in
  match tree with
  | [] => Err IndexError
  | (top_item_id, _) :: _ =>
      let level := List.length tree in
      let max_level := if Nat.ltb max_level level then level else max_level in
      match odict_get tree top_item_id with
      | None => Err KeyError
      | Some item_cfg =>
          if odict_mem reg top_item_id then Ok (reg, max_level)
          else Ok (odict_set reg top_item_id
                     {| level := level; config := item_cfg |}, max_level)
      end
  end.

(** One turn of the first loop of sort_level: sreg[cfg['type']] grows by
    cfg. *)
Definition group_step (sreg : odict (list item)) (cfg : item)
  : odict (list item) :=
  match odict_get sreg (type cfg) with
  | Some l => odict_set sreg (type cfg) (l ++ [cfg])
  | None => odict_set sreg (type cfg) [cfg]
  end.

Definition group_by_type (configs : list item) : odict (list item) :=
  fold_left group_step configs [].

(** One turn of [for item_type in sorted(sreg.keys())]: the configs of the
    type, sorted by the type's order key. *)
Definition sorted_group (sreg : odict (list item)) (item_type : string)
  : result (list item) :=
  iorder <- _stype_to_order_key item_type ;;
  group <- match odict_get sreg item_type with
           | Some l => Ok l
           | None => Err KeyError
           end ;;
  sorted group (itemgetter iorder).

(** def sort_level(configs) *)
Definition sort_level (configs : list item) : result (list item) :=
  let sreg := group_by_type configs in
  item_types <- sorted (map fst sreg) (fun t => Ok (VStr t)) ;;
  foldM (fun result item_type =>
           isorted <- sorted_group sreg item_type ;;
           Ok (result ++ isorted))
        item_types [].

(** [entry['config'] for entries of reg with entry['level'] == lvl] *)
Definition level_configs (reg : odict entry) (lvl : nat) : list item :=
  map (fun p => config (snd p))
      (filter (fun p => Nat.eqb (level (snd p)) lvl) reg).

(** The registry and max_level after the first loop. *)
Definition build_registry (config_trees : list (odict item))
  : result (odict entry * nat) :=
  foldM register_tree config_trees ([], O).

(** def merge_config_trees_to_list(config_trees) *)
Definition merge_config_trees_to_list (config_trees : list (odict item))
  : result (list item) :=
  st <- build_registry config_trees ;;
  let (reg, max_level) := st in
  foldM (fun merged lvl =>
           sconfigs <- sort_level (level_configs reg lvl) ;;
           Ok (merged ++ sconfigs))
        (seq 0 (max_level + 1)) [].

(** The order the siblings of one dependency reference are emitted in:
    by the field [k], no config below the one before it. *)
Definition ordered_by (k : string) (a b : item) : Prop :=
  exists ka kb,
    item_get a k = Some ka /\ item_get b k = Some kb /\
    value_ltb kb ka = false.

(** ** Structural dependencies *)

(** [b] is named by a dependency field of the item [a] of the
    configuration. *)
Definition direct_dep (sconfig : odict item) (a b : string) : Prop :=
  exists item_cfg dep_keys dep_key v,
    odict_get sconfig a = Some item_cfg /\
    dict_get depends_keys (type item_cfg) = Some dep_keys /\
    In dep_key dep_keys /\
    item_get item_cfg dep_key = Some v /\
    In (RStr b) (refs_of v).

(** [b] is reached from [a] through dependency fields. *)
Inductive depends_on (sconfig : odict item) : string -> string -> Prop :=
| depends_direct (a b : string) :
    direct_dep sconfig a b -> depends_on sconfig a b
| depends_trans (a c b : string) :
    direct_dep sconfig a c -> depends_on sconfig c b ->
    depends_on sconfig a b.

(** ** What the merge is compared with *)

(** The first key of a tree. *)
Definition top_key (tree : odict item) : option string :=
  option_map fst (hd_error tree).

(** The first entries of the trees, in order, one per first key: the entry
    of the first tree that has the key. *)
Definition first_tops_step (acc : odict item) (tree : odict item)
  : odict item :=
  match tree with
  | [] => acc
  | (k, cfg) :: _ => if odict_mem acc k then acc else acc ++ [(k, cfg)]
  end.

Definition first_tops (trees : list (odict item)) : odict item :=
  fold_left first_tops_step trees [].

(** The ids and configs of a registry. *)
Definition reg_tops (reg : odict entry) : odict item :=
  map (fun p => (fst p, config (snd p))) reg.

(** ** config_tree_to_list *)

(** def config_tree_to_list(config_tree):
        return [config_tree[item] for item in reversed(config_tree)] *)
Definition config_tree_to_list (config_tree : odict item)
  : result (list item) :=
  mapM (fun k => getitem config_tree (RStr k)) (rev (map fst config_tree)).

(** ** extract_storage_config: the order handed to the tree builder *)

(** [cfg for cfg in configs if cfg.get('type') == ty] *)
Definition of_type (ty : string) (configs : list item) : list item :=
  filter (fun cfg => String.eqb (type cfg) ty) configs.

(** ordered = (dasd + disk + part + format + lvols + lparts + raids +
               dmcrypts + mounts + bcache + zpool + zfs) *)
Definition ordered (configs : list item) : list item :=
  of_type "dasd" configs ++ of_type "disk" configs
  ++ of_type "partition" configs ++ of_type "format" configs
  ++ of_type "lvm_volgroup" configs ++ of_type "lvm_partition" configs
  ++ of_type "raid" configs ++ of_type "dm_crypt" configs
  ++ of_type "mount" configs ++ of_type "bcache" configs
  ++ of_type "zpool" configs ++ of_type "zfs" configs.

(** ** ptable_uuid_to_flag_entry *)

Definition MBR_TYPE_TO_CURTIN_MAP : list (string * (string * string)) :=
  [ ("0XF", ("extended", "f"));
    ("0X5", ("extended", "f"));
    ("0X83", ("linux", "83"));
    ("0X85", ("extended", "f"));
    ("0XC5", ("extended", "f")) ].

(** PTABLE_TYPE_MAP = dict(GPT_GUID_TO_CURTIN_MAP, **MBR_TYPE_TO_CURTIN_MAP) *)
Definition PTABLE_TYPE_MAP : list (string * (string * string)) :=
  BlockMeta.GPT_GUID_TO_CURTIN_MAP ++ MBR_TYPE_TO_CURTIN_MAP.

(** [c in s] for a character c *)
Fixpoint has_char (c : ascii) (s : string) : bool :=
  match s with
  | EmptyString => false
  | String c' s' => if Ascii.eqb c c' then true else has_char c s'
  end.

(** def ptable_uuid_to_flag_entry(guid); [guid] is None or a string, and
    the result is the pair (name, code), each None or a string.  str.upper
    is [BlockMeta.upper], which is str.upper on ASCII strings. *)
Definition ptable_uuid_to_flag_entry (guid : option string)
  : option string * option string :=
  let guid :=
    match guid with
    | Some g =>
        if negb (String.eqb g "") && negb (has_char "-" g)
           && negb (String.prefix "0X" (BlockMeta.upper g))
        then Some ("0x" ++ g)%string
        else Some g
    | None => None
    end in
  match guid with
  | Some g =>
      if negb (String.eqb g "") then
        match dict_get PTABLE_TYPE_MAP (BlockMeta.upper g) with
        | Some (name, code) => (Some name, Some code)
        | None => (None, None)
        end
      else (None, None)
  | None => (None, None)
  end.

(** A string of ASCII characters only. *)
Fixpoint is_ascii (s : string) : bool :=
  match s with
  | EmptyString => true
  | String c s' => Nat.ltb (nat_of_ascii c) 128 && is_ascii s'
  end.

(** A reference that is a key of the configuration. *)
Definition present (config : odict item) (x : ref) : Prop :=
  exists k c, x = RStr k /\ odict_get config k = Some c.

(** The order sort_level puts the configs of one level in: by type, and
    within a type by the type's order key. *)
Definition level_order (a b : item) : Prop :=
  String.ltb (type a) (type b) = true \/
  (type a = type b /\
   exists k, _stype_to_order_key (type a) = Ok k /\ ordered_by k a b).

(** The types in the order extract_storage_config concatenates them. *)
Definition extraction_order : list string :=
  [ "dasd"; "disk"; "partition"; "format"; "lvm_volgroup"; "lvm_partition";
    "raid"; "dm_crypt"; "mount"; "bcache"; "zpool"; "zfs" ].

(** The keys of STORAGE_CONFIG_TYPES. *)
Definition storage_types : list string :=
  [ "bcache"; "dasd"; "disk"; "dm_crypt"; "format"; "lvm_partition";
    "lvm_volgroup"; "mount"; "partition"; "raid"; "zfs"; "zpool" ].

(** ** Configurations used below *)

(** Sets iterated in the order they are written in the source. *)
Definition written_order (ks : list string) : list string := ks.

(** {disk sda (gpt), partition sda1 (device sda, number 1),
     partition sda2 (device sda, number 2)} *)
Definition sda : item :=
  {| id := "sda"; type := "disk"; fields := [("ptable", VStr "gpt")] |}.

Definition sda1 : item :=
  {| id := "sda1"; type := "partition";
     fields := [("device", VStr "sda"); ("number", VInt 1);
                ("size", VStr "1GiB")] |}.

Definition sda2 : item :=
  {| id := "sda2"; type := "partition";
     fields := [("device", VStr "sda"); ("number", VInt 2);
                ("size", VStr "2GiB")] |}.

Definition sda_config : list item := [sda; sda1; sda2].

Definition sda_sconfig : odict item :=
  [("sda", sda); ("sda1", sda1); ("sda2", sda2)].

Definition sda_trees : list (odict item) :=
  [ [("sda", sda)];
    [("sda1", sda1); ("sda", sda); ("sda2", sda2)];
    [("sda2", sda2); ("sda", sda); ("sda1", sda1)] ].

(** The same partitions without 'number'. *)
Definition sda1_unnumbered : item :=
  {| id := "sda1"; type := "partition";
     fields := [("device", VStr "sda"); ("size", VStr "1GiB")] |}.

Definition sda2_unnumbered : item :=
  {| id := "sda2"; type := "partition";
     fields := [("device", VStr "sda"); ("size", VStr "2GiB")] |}.

(** Partitions whose numbers go against their ids. *)
Definition sda1_second : item :=
  {| id := "sda1"; type := "partition";
     fields := [("device", VStr "sda"); ("number", VInt 2)] |}.

Definition sda2_first : item :=
  {| id := "sda2"; type := "partition";
     fields := [("device", VStr "sda"); ("number", VInt 1)] |}.

Definition swapped_sconfig : odict item :=
  [("sda", sda); ("sda1", sda1_second); ("sda2", sda2_first)].

(** Two bcache devices on one backing device, the second cached on the
    first. *)
Definition sdb : item := {| id := "sdb"; type := "disk"; fields := [] |}.
Definition sdc : item := {| id := "sdc"; type := "disk"; fields := [] |}.

Definition bcache0 : item :=
  {| id := "bcache0"; type := "bcache";
     fields := [("backing_device", VStr "sdb"); ("cache_device", VStr "sdc");
                ("name", VStr "second")] |}.

Definition bcache1 : item :=
  {| id := "bcache1"; type := "bcache";
     fields := [("backing_device", VStr "sdb");
                ("cache_device", VStr "bcache0");
                ("name", VStr "first")] |}.

Definition bcache_config : list item := [sdb; sdc; bcache0; bcache1].

(** Two bcache devices sharing the cache device sdc: bc0 on the disk sdb,
    and bc1 on the partition bp of bc0. *)
Definition bc0 : item :=
  {| id := "bc0"; type := "bcache";
     fields := [("backing_device", VStr "sdb"); ("cache_device", VStr "sdc");
                ("name", VStr "bc0")] |}.

Definition bp : item :=
  {| id := "bp"; type := "partition";
     fields := [("device", VStr "bc0"); ("number", VInt 1)] |}.

Definition bc1 : item :=
  {| id := "bc1"; type := "bcache";
     fields := [("backing_device", VStr "bp"); ("cache_device", VStr "sdc");
                ("name", VStr "bc1")] |}.

Definition stacked_config : list item := [sdb; sdc; bc0; bp; bc1].

Definition stacked_sconfig : odict item :=
  [("sdb", sdb); ("sdc", sdc); ("bc0", bc0); ("bp", bp); ("bc1", bc1)].

(** Sets iterated in the reverse of the order they are written in. *)
Definition reversed_order (ks : list string) : list string := rev ks.

(** Two bcache devices, each the backing device of the other. *)
Definition loop0 : item :=
  {| id := "loop0"; type := "bcache";
     fields := [("backing_device", VStr "loop1"); ("name", VStr "loop0")] |}.

Definition loop1 : item :=
  {| id := "loop1"; type := "bcache";
     fields := [("backing_device", VStr "loop0"); ("name", VStr "loop1")] |}.

Definition loop_sconfig : odict item :=
  [("loop0", loop0); ("loop1", loop1)].

End StorageConfig.

(** * Properties of the partition-table layout *)

Module BlockMetaFacts.
Import BlockMeta.

Lemma ONE_MIB_BYTES_pow : ONE_MIB_BYTES = 2 ^ 20.
Proof. reflexivity. Qed.

(** Masking with the complement of [2^k - 1] clears the low [k] bits. *)
Lemma land_lnot_pow2 (y k : Z) :
  0 <= k -> Z.land y (Z.lnot (2 ^ k - 1)) = (y / 2 ^ k) * 2 ^ k.
Proof.
  intros Hk.
  replace (2 ^ k - 1) with (Z.ones k) by (rewrite Z.ones_equiv; lia).
  rewrite <- Z.ldiff_land.
  rewrite Z.ldiff_ones_r by exact Hk.
  rewrite Z.shiftr_div_pow2, Z.shiftl_mul_pow2 by exact Hk.
  reflexivity.
Qed.

Lemma align_up_pow2 (x k : Z) :
  0 <= k -> align_up x (2 ^ k) = ((x + 2 ^ k - 1) / 2 ^ k) * 2 ^ k.
Proof. intros Hk. unfold align_up. apply land_lnot_pow2, Hk. Qed.

Lemma align_up_multiple (x k : Z) :
  0 <= k -> (2 ^ k | align_up x (2 ^ k)).
Proof.
  intros Hk. rewrite align_up_pow2 by exact Hk.
  exists ((x + 2 ^ k - 1) / 2 ^ k). reflexivity.
Qed.

Lemma align_up_ge (x k : Z) : 0 <= k -> x <= align_up x (2 ^ k).
Proof.
  intros Hk. rewrite align_up_pow2 by exact Hk.
  assert (Hb : 0 < 2 ^ k) by (apply Z.pow_pos_nonneg; lia).
  pose proof (Z.div_mod (x + 2 ^ k - 1) (2 ^ k) ltac:(lia)) as Hdm.
  pose proof (Z.mod_pos_bound (x + 2 ^ k - 1) (2 ^ k) Hb) as Hm.
  nia.
Qed.

Lemma align_up_least (x k m : Z) :
  0 <= k -> (2 ^ k | m) -> x <= m -> align_up x (2 ^ k) <= m.
Proof.
  intros Hk [q ->] Hx. rewrite align_up_pow2 by exact Hk.
  assert (Hb : 0 < 2 ^ k) by (apply Z.pow_pos_nonneg; lia).
  apply Z.mul_le_mono_nonneg_r; [lia|].
  assert (Hlt : (x + 2 ^ k - 1) / 2 ^ k < q + 1).
  { apply Z.div_lt_upper_bound; [exact Hb|]. nia. }
  lia.
Qed.

(** Adding whole blocks commutes with rounding up. *)
Lemma align_up_aligned (x k : Z) :
  0 <= k -> (2 ^ k | x) -> align_up x (2 ^ k) = x.
Proof.
  intros Hk Hx.
  apply Z.le_antisymm.
  - apply align_up_least; [exact Hk | exact Hx | lia].
  - apply align_up_ge, Hk.
Qed.

(** A positive divisor of a power of two is a power of two. *)
Lemma divisor_of_pow2 (n : nat) (d : Z) :
  0 < d -> (d | 2 ^ Z.of_nat n) ->
  exists j, 0 <= j <= Z.of_nat n /\ d = 2 ^ j.
Proof.
  induction n as [|n IH] in d |- *; intros Hd Hdiv.
  - exists 0. split; [lia|].
    change (2 ^ Z.of_nat 0) with 1 in Hdiv.
    apply Z.divide_1_r_nonneg in Hdiv; lia.
  - rewrite Nat2Z.inj_succ, Z.pow_succ_r in Hdiv by lia.
    destruct (Z.even d) eqn:He.
    + apply Z.even_spec in He. destruct He as [d' ->].
      assert (Hd' : 0 < d') by lia.
      assert (Hdiv' : (d' | 2 ^ Z.of_nat n)).
      { destruct Hdiv as [q Hq]. exists q. lia. }
      destruct (IH d' Hd' Hdiv') as [j [Hj ->]].
      exists (j + 1). split; [lia|].
      rewrite Z.pow_add_r by lia. lia.
    + assert (Hdiv' : (d | 2 ^ Z.of_nat n)).
      { destruct Hdiv as [q Hq].
        assert (Hq2 : Z.even (q * d) = true).
        { rewrite <- Hq, Z.even_mul. reflexivity. }
        rewrite Z.even_mul, He, orb_false_r in Hq2.
        apply Z.even_spec in Hq2. destruct Hq2 as [q' ->].
        exists q'. lia. }
      destruct (IH d Hd Hdiv') as [j [Hj ->]].
      exists j. split; [lia | reflexivity].
Qed.

Section PartTableFacts.

Context {amount : Type} (human2bytes : amount -> Z).

Lemma new_SFDiskPartTable_inv (sector_bytes : Z) (t : SFDiskPartTable) :
  new_SFDiskPartTable sector_bytes = Ok t ->
  sector_bytes <> 0 /\ (sector_bytes | ONE_MIB_BYTES) /\
  entries t = [] /\ _sector_bytes t = sector_bytes /\
  one_mib_sectors t = ONE_MIB_BYTES / sector_bytes.
Proof.
  unfold new_SFDiskPartTable.
  destruct (sector_bytes =? 0) eqn:Hz; [discriminate|].
  destruct (ONE_MIB_BYTES mod sector_bytes =? 0) eqn:Hm; [|discriminate].
  cbn. intros [= <-]. cbn.
  apply Z.eqb_neq in Hz. apply Z.eqb_eq in Hm.
  repeat split; try assumption.
  apply Z.mod_divide; assumption.
Qed.

Lemma one_mib_sectors_pow2 (sector_bytes : Z) (t : SFDiskPartTable) :
  0 < sector_bytes -> new_SFDiskPartTable sector_bytes = Ok t ->
  exists k, 0 <= k /\ one_mib_sectors t = 2 ^ k.
Proof.
  intros Hpos Hnew.
  destruct (new_SFDiskPartTable_inv _ _ Hnew) as (_ & Hdiv & _ & _ & ->).
  rewrite ONE_MIB_BYTES_pow in *.
  destruct (divisor_of_pow2 20 sector_bytes Hpos Hdiv) as [j [Hj ->]].
  exists (20 - j). split; [lia|].
  rewrite Z.pow_sub_r by lia. reflexivity.
Qed.

(** C10: for a sector size the constructor accepts (a sector size is a
    positive count of bytes), one_mib_sectors is a power of two, and for
    every x >= 0 align_up(x, one_mib_sectors) is the least multiple of
    one_mib_sectors that is at least x. *)
Theorem C10_align_up_least_multiple (sector_bytes : Z) (t : SFDiskPartTable) :
  0 < sector_bytes ->
  new_SFDiskPartTable sector_bytes = Ok t ->
  one_mib_sectors t = ONE_MIB_BYTES / sector_bytes /\
  (exists k, 0 <= k /\ one_mib_sectors t = 2 ^ k) /\
  forall x, 0 <= x ->
    (one_mib_sectors t | align_up x (one_mib_sectors t)) /\
    x <= align_up x (one_mib_sectors t) /\
    forall m, (one_mib_sectors t | m) -> x <= m ->
              align_up x (one_mib_sectors t) <= m.
Proof.
  intros Hpos Hnew.
  split; [apply (new_SFDiskPartTable_inv _ _ Hnew)|].
  destruct (one_mib_sectors_pow2 _ _ Hpos Hnew) as [k [Hk Hb]].
  split; [exists k; auto|].
  intros x _. rewrite Hb.
  split; [apply align_up_multiple, Hk|].
  split; [apply align_up_ge, Hk|].
  intros m Hm Hx. apply align_up_least; assumption.
Qed.

Lemma C10_align_up_least_multiple_witness :
  exists t, new_SFDiskPartTable 512 = Ok t /\
    one_mib_sectors t = 2048 /\
    (one_mib_sectors t | align_up 2049 (one_mib_sectors t)) /\
    2049 <= align_up 2049 (one_mib_sectors t).
Proof.
  eexists. split; [reflexivity|].
  destruct (C10_align_up_least_multiple 512 _ ltac:(lia) eq_refl)
    as (Hb & _ & Hall).
  destruct (Hall 2049 ltac:(lia)) as (Hm & Hge & _).
  split; [exact Hb|]. split; [exact Hm | exact Hge].
Defined.

(** *** _wipe_for_action *)

Lemma flag_is_true (a : action amount) (f : string) :
  flag_is a f = true <-> action_flag a = Some f.
Proof.
  unfold flag_is. destruct (action_flag a) as [g|]; [|split; discriminate].
  rewrite String.eqb_eq. split; [intros ->; reflexivity | intros [= ->]; reflexivity].
Qed.

Lemma flag_is_false (a : action amount) (f : string) :
  flag_is a f = false <-> action_flag a <> Some f.
Proof.
  rewrite <- flag_is_true. destruct (flag_is a f); split; congruence.
Qed.

(** C5, as the code has it: when the action has no 'wipe' key of its own,
    an action flagged 'extended' is never wiped, an action marked preserve
    is never wiped, and any other action is wiped at 'superblock'. *)
Theorem C5_wipe_for_action_default (a : action amount) :
  action_wipe a = None ->
  (action_flag a = Some "extended" -> _wipe_for_action a = None) /\
  (action_preserve a = true -> _wipe_for_action a = None) /\
  (action_preserve a = false -> action_flag a <> Some "extended" ->
   _wipe_for_action a = Some "superblock").
Proof.
  intros Hw. unfold _wipe_for_action. rewrite Hw.
  repeat split.
  - intros Hf. apply flag_is_true in Hf. rewrite Hf.
    destruct (action_preserve a); reflexivity.
  - intros ->. reflexivity.
  - intros -> Hf. apply flag_is_false in Hf. rewrite Hf. reflexivity.
Qed.

(** An explicit 'wipe' key is returned as it is. *)
Lemma wipe_for_action_explicit (a : action amount) (w : string) :
  action_wipe a = Some w -> _wipe_for_action a = Some w.
Proof. intros Hw. unfold _wipe_for_action. rewrite Hw. reflexivity. Qed.

(** *** DOSPartTable.add without an extended partition *)

Lemma DOSPartTable_add_extended_None (t : DOSPartTable) (a : action amount) :
  _extended t = None -> action_flag a <> Some "extended" ->
  _extended (fst (DOSPartTable_add human2bytes t a)) = None.
Proof.
  intros Ht Hf. unfold DOSPartTable_add.
  destruct (DOSPartTable_place human2bytes t a) as [[n s]|e]; [|exact Ht].
  destruct (size_of_action human2bytes (sfdisk t) a) as [z|e]; [|exact Ht].
  cbn. apply flag_is_false in Hf. rewrite Hf. exact Ht.
Qed.

Lemma DOSPartTable_add_each_extended_None
    (acts : list (action amount)) (t : DOSPartTable) :
  _extended t = None ->
  Forall (fun x => action_flag x <> Some "extended") acts ->
  _extended (DOSPartTable_add_each human2bytes t acts) = None.
Proof.
  induction acts as [|x acts IH] in t |- *; intros Ht Hall; [exact Ht|].
  inversion Hall as [|? ? Hx Hrest]; subst.
  cbn. apply IH; [|exact Hrest].
  apply DOSPartTable_add_extended_None; assumption.
Qed.

(** C7: on a table to which no action flagged 'extended' was added, add of
    an action flagged 'logical' raises the missing-extended-partition
    exception and leaves the table as it was. *)
Theorem C7_logical_without_extended
    (sector_bytes : Z) (t0 : DOSPartTable)
    (acts : list (action amount)) (a : action amount) :
  new_DOSPartTable sector_bytes = Ok t0 ->
  Forall (fun x => action_flag x <> Some "extended") acts ->
  action_flag a = Some "logical" ->
  let t := DOSPartTable_add_each human2bytes t0 acts in
  DOSPartTable_add human2bytes t a = (t, Err MissingExtendedPartition).
Proof.
  intros Hnew Hall Hflag t.
  assert (Hext : _extended t = None).
  { apply DOSPartTable_add_each_extended_None; [|exact Hall].
    unfold new_DOSPartTable in Hnew.
    destruct (new_SFDiskPartTable sector_bytes); [|discriminate].
    cbn in Hnew. injection Hnew as <-. reflexivity. }
  unfold DOSPartTable_add, DOSPartTable_place.
  apply flag_is_true in Hflag. rewrite Hflag, Hext. reflexivity.
Qed.

(** *** GPTPartTable.add without explicit offsets *)

Lemma Sorted_snoc {A : Type} (R : A -> A -> Prop) (l : list A) (x : A) :
  Sorted R l ->
  (forall y, hd_error (rev l) = Some y -> R y x) ->
  Sorted R (l ++ [x]).
Proof.
  induction l as [|a l IH]; intros Hs Hlast; cbn.
  - repeat constructor.
  - inversion Hs as [|? ? Hs' Hhd]; subst.
    constructor.
    + apply IH; [exact Hs'|].
      intros y Hy. apply Hlast. cbn.
      destruct (rev l) as [|z r]; [discriminate|].
      cbn in *. exact Hy.
    + destruct l as [|c l']; cbn.
      * constructor. apply Hlast. reflexivity.
      * constructor. inversion Hhd; assumption.
Qed.

(** What one call of GPTPartTable.add does to the table when the action has
    no 'offset'. *)
Lemma GPTPartTable_add_no_offset (t : SFDiskPartTable) (a : action amount) :
  action_offset a = None ->
  let t' := fst (GPTPartTable_add human2bytes t a) in
  one_mib_sectors t' = one_mib_sectors t /\
  (entries t' = entries t \/
   exists e, entries t' = entries t ++ [e] /\
     start e = match last_entry (entries t) with
               | Some prev =>
                   align_up (start prev + size prev) (one_mib_sectors t)
               | None => one_mib_sectors t
               end).
Proof.
  intros Hoff. unfold GPTPartTable_add. rewrite Hoff.
  destruct (size_of_action human2bytes t a) as [z|e]; cbn.
  - split; [reflexivity|]. right. eexists. split; reflexivity.
  - split; [reflexivity|]. left. reflexivity.
Qed.

Lemma gpt_layout_add (k : Z) (t : SFDiskPartTable) (a : action amount) :
  0 <= k -> one_mib_sectors t = 2 ^ k ->
  action_offset a = None ->
  gpt_layout (2 ^ k) (entries t) ->
  gpt_layout (2 ^ k) (entries (fst (GPTPartTable_add human2bytes t a))).
Proof.
  intros Hk Hb Hoff (Hal & Hend & Hinc).
  destruct (GPTPartTable_add_no_offset t a Hoff) as (_ & [-> | (e & -> & He)]).
  - repeat split; assumption.
  - rewrite Hb in He.
    assert (Hprev : forall y, hd_error (rev (entries t)) = Some y ->
                    start e = align_up (start y + size y) (2 ^ k)).
    { intros y Hy. unfold last_entry in He. rewrite Hy in He. exact He. }
    repeat split.
    + apply Forall_app. split; [exact Hal|]. constructor; [|constructor].
      unfold last_entry in He.
      destruct (hd_error (rev (entries t))); rewrite He.
      * apply align_up_multiple, Hk.
      * apply Z.divide_refl.
    + apply Sorted_snoc; [exact Hend|].
      intros y Hy. rewrite (Hprev y Hy). apply align_up_ge, Hk.
    + apply Sorted_snoc; [exact Hinc|].
      intros y Hy Hsz. rewrite (Hprev y Hy).
      pose proof (align_up_ge (start y + size y) k Hk). lia.
Qed.

Lemma gpt_layout_add_each (k : Z) (acts : list (action amount))
    (t : SFDiskPartTable) :
  0 <= k -> one_mib_sectors t = 2 ^ k ->
  Forall (fun a => action_offset a = None) acts ->
  gpt_layout (2 ^ k) (entries t) ->
  gpt_layout (2 ^ k) (entries (GPTPartTable_add_each human2bytes t acts)).
Proof.
  intros Hk. induction acts as [|a acts IH] in t |- *; intros Hb Hall Hinv.
  - exact Hinv.
  - inversion Hall as [|? ? Ha Hrest]; subst. cbn. apply IH.
    + rewrite <- Hb. apply (GPTPartTable_add_no_offset t a Ha).
    + exact Hrest.
    + apply gpt_layout_add; assumption.
Qed.

Lemma Sorted_impl {A : Type} (R R' : A -> A -> Prop) (P : A -> Prop)
    (l : list A) :
  (forall x y, P x -> R x y -> R' x y) ->
  Forall P l -> Sorted R l -> Sorted R' l.
Proof.
  intros Himp HP Hs. induction Hs as [|a l Hs IH Hhd]; [constructor|].
  inversion HP as [|? ? Ha Hl]; subst.
  constructor; [apply IH, Hl|].
  destruct Hhd; constructor. apply Himp; assumption.
Qed.

(** C3, as the code has it: with no explicit offsets, every start is a
    multiple of the 1 MiB sector count, each entry ends at or before the
    start of the next, and the start of an entry of positive size is strictly
    below the start of the next; so the starts are strictly increasing when
    every entry has a positive size. *)
Theorem C3_gpt_sequential_layout
    (sector_bytes : Z) (t0 : SFDiskPartTable) (acts : list (action amount)) :
  0 < sector_bytes ->
  new_SFDiskPartTable sector_bytes = Ok t0 ->
  Forall (fun a => action_offset a = None) acts ->
  let es := entries (GPTPartTable_add_each human2bytes t0 acts) in
  Forall (fun e => (one_mib_sectors t0 | start e)) es /\
  Sorted (fun e1 e2 => start e1 + size e1 <= start e2) es /\
  Sorted (fun e1 e2 => 0 < size e1 -> start e1 < start e2) es /\
  (Forall (fun e => 0 < size e) es ->
   Sorted (fun e1 e2 => start e1 < start e2) es).
Proof.
  intros Hpos Hnew Hall es.
  destruct (one_mib_sectors_pow2 _ _ Hpos Hnew) as [k [Hk Hb]].
  assert (Hinv : gpt_layout (2 ^ k) es).
  { apply gpt_layout_add_each; try assumption.
    destruct (new_SFDiskPartTable_inv _ _ Hnew) as (_ & _ & -> & _).
    repeat split; constructor. }
  destruct Hinv as (Hal & Hend & Hinc). rewrite Hb.
  repeat split; try assumption.
  intros Hsz. eapply Sorted_impl; [|exact Hsz|exact Hinc].
  cbn. intros x y Hx Hxy. apply Hxy, Hx.
Qed.

(** *** DOSPartTable.add: three primaries, an extended, two logicals *)

(** C2: on a DOS table, six actions flagged primary, primary, primary,
    extended, logical, logical, with no 'number' and no 'offset', give six
    entries numbered 1 to 6.  With b = one_mib_sectors, which is one
    mebibyte in sectors, entry 5 starts b sectors after the start of the
    extended entry 4, and entry 6 starts at the least multiple of b that is
    at or above the end of entry 5 plus b. *)
Theorem C2_dos_primary_extended_logical
    (sector_bytes : Z) (t0 : DOSPartTable)
    (a1 a2 a3 a4 a5 a6 : action amount) :
  0 < sector_bytes ->
  new_DOSPartTable sector_bytes = Ok t0 ->
  map action_flag [a1; a2; a3; a4; a5; a6] =
    [Some "primary"; Some "primary"; Some "primary";
     Some "extended"; Some "logical"; Some "logical"] ->
  Forall (fun a => action_number a = None /\ action_offset a = None /\
                   action_size a <> None) [a1; a2; a3; a4; a5; a6] ->
  let t := DOSPartTable_add_each human2bytes t0 [a1; a2; a3; a4; a5; a6] in
  let b := one_mib_sectors (sfdisk t0) in
  exists e1 e2 e3 e4 e5 e6,
    entries (sfdisk t) = [e1; e2; e3; e4; e5; e6] /\
    map number [e1; e2; e3; e4; e5; e6] = [1; 2; 3; 4; 5; 6] /\
    _extended t = Some e4 /\
    b * sector_bytes = ONE_MIB_BYTES /\
    start e5 = start e4 + b /\
    (b | start e6) /\
    start e5 + size e5 + b <= start e6 /\
    (forall m, (b | m) -> start e5 + size e5 + b <= m -> start e6 <= m).
Proof.
  intros Hpos Hnew Hflags Hall t b.
  unfold new_DOSPartTable in Hnew.
  destruct (new_SFDiskPartTable sector_bytes) as [s0|] eqn:Hs0; [|discriminate].
  cbn in Hnew. injection Hnew as <-.
  destruct (one_mib_sectors_pow2 _ _ Hpos Hs0) as [k [Hk Hb]].
  destruct (new_SFDiskPartTable_inv _ _ Hs0) as (_ & Hdiv & Hes & _ & Hone).
  assert (Hmib : one_mib_sectors s0 * sector_bytes = ONE_MIB_BYTES).
  { rewrite Hone. destruct Hdiv as [q ->].
    rewrite Z.div_mul by lia. reflexivity. }
  clear Hdiv Hone.
  destruct s0 as [es0 sb0 b0]. cbn in Hes, Hb, b, Hmib. subst es0 b0.
  injection Hflags as F1 F2 F3 F4 F5 F6.
  repeat match goal with
         | H : Forall _ (_ :: _) |- _ =>
             let Ha := fresh "Ha" in
             inversion H as [|? ? Ha ?]; subst; clear H;
             destruct Ha as (? & ? & ?)
         end.
  destruct a1 as [n1 o1 [s1|] f1 u1 p1 w1]; [|cbn in *; congruence].
  destruct a2 as [n2 o2 [s2|] f2 u2 p2 w2]; [|cbn in *; congruence].
  destruct a3 as [n3 o3 [s3|] f3 u3 p3 w3]; [|cbn in *; congruence].
  destruct a4 as [n4 o4 [s4|] f4 u4 p4 w4]; [|cbn in *; congruence].
  destruct a5 as [n5 o5 [s5|] f5 u5 p5 w5]; [|cbn in *; congruence].
  destruct a6 as [n6 o6 [s6|] f6 u6 p6 w6]; [|cbn in *; congruence].
  cbn in *. subst.
  do 6 eexists.
  subst t b. cbn -[align_up Z.pow Z.div].
  split; [reflexivity|].
  split; [reflexivity|].
  split; [reflexivity|].
  split; [exact Hmib|].
  split.
  { cbn -[align_up Z.pow Z.div].
    apply align_up_aligned; [exact Hk|].
    apply Z.divide_add_r; [|apply Z.divide_refl].
    apply align_up_multiple, Hk. }
  cbn -[align_up Z.pow Z.div].
  split; [apply align_up_multiple, Hk|].
  split; [apply align_up_ge, Hk|].
  intros m Hm Hle. apply align_up_least; assumption.
Qed.

End PartTableFacts.

(** *** The tables on concrete actions *)

Lemma C2_dos_primary_extended_logical_witness :
  exists e1 e2 e3 e4 e5 e6,
    entries (sfdisk (DOSPartTable_add_each bytes_id dos_table_512 six_actions))
      = [e1; e2; e3; e4; e5; e6] /\
    map number [e1; e2; e3; e4; e5; e6] = [1; 2; 3; 4; 5; 6] /\
    _extended (DOSPartTable_add_each bytes_id dos_table_512 six_actions)
      = Some e4 /\
    2048 * 512 = ONE_MIB_BYTES /\
    start e5 = start e4 + 2048 /\
    (2048 | start e6) /\
    start e5 + size e5 + 2048 <= start e6 /\
    (forall m, (2048 | m) -> start e5 + size e5 + 2048 <= m -> start e6 <= m).
Proof.
  apply (C2_dos_primary_extended_logical bytes_id 512 dos_table_512
           (sized_action (Some "primary") 1048576)
           (sized_action (Some "primary") 1048576)
           (sized_action (Some "primary") 1000000)
           (sized_action (Some "extended") 10485760)
           (sized_action (Some "logical") 1000000)
           (sized_action (Some "logical") 2097152)).
  - lia.
  - reflexivity.
  - reflexivity.
  - repeat constructor; discriminate.
Defined.

(** The six entries of that table, evaluated. *)
Example six_actions_entries :
  map (fun e => (number e, start e, size e))
      (entries (sfdisk (DOSPartTable_add_each bytes_id dos_table_512
                          six_actions)))
  = [ (1, 2048, 2048); (2, 4096, 2048); (3, 6144, 1953);
      (4, 8192, 20480); (5, 10240, 1953); (6, 14336, 4096) ].
Proof. vm_compute. reflexivity. Qed.

Lemma C3_gpt_sequential_layout_witness :
  let es := entries (GPTPartTable_add_each bytes_id gpt_table_512
                       [sized_action None 1048576; sized_action None 1000000;
                        sized_action None 512]) in
  Forall (fun e => (2048 | start e)) es /\
  Sorted (fun e1 e2 => start e1 + size e1 <= start e2) es /\
  Sorted (fun e1 e2 => 0 < size e1 -> start e1 < start e2) es /\
  (Forall (fun e => 0 < size e) es ->
   Sorted (fun e1 e2 => start e1 < start e2) es).
Proof.
  apply (C3_gpt_sequential_layout bytes_id 512 gpt_table_512).
  - lia.
  - reflexivity.
  - repeat constructor.
Defined.

(** Two partitions of 100 bytes on 512-byte sectors have size 0 in sectors,
    and the second starts where the first does. *)
Lemma C3_counterexample :
  let acts := [sized_action None 100; sized_action None 100] in
  let es := entries (GPTPartTable_add_each bytes_id gpt_table_512 acts) in
  new_SFDiskPartTable 512 = Ok gpt_table_512 /\
  Forall (fun a => action_offset a = None) acts /\
  map start es = [2048; 2048] /\
  ~ Sorted (fun e1 e2 => start e1 < start e2) es.
Proof.
  intros acts es.
  assert (Hstarts : map start es = [2048; 2048]) by (vm_compute; reflexivity).
  split; [reflexivity|]. split; [repeat constructor|].
  split; [exact Hstarts|].
  intros Hs.
  destruct es as [|e1 [|e2 rest]]; try discriminate Hstarts.
  injection Hstarts as H1 H2 _.
  inversion Hs as [|? ? _ Hhd]; subst.
  inversion Hhd as [|? ? Hlt]; subst.
  lia.
Qed.

Lemma C5_wipe_for_action_default_witness :
  _wipe_for_action (sized_action (Some "extended") 10485760) = None.
Proof.
  destruct (C5_wipe_for_action_default
              (sized_action (Some "extended") 10485760)) as (Hext & _ & _).
  - reflexivity.
  - apply Hext. reflexivity.
Defined.

(** An 'extended' action that carries 'wipe': 'superblock' is wiped. *)
Lemma C5_counterexample :
  action_flag extended_wipe_action = Some "extended" /\
  _wipe_for_action extended_wipe_action = Some "superblock" /\
  _wipe_for_action extended_wipe_action <> None.
Proof. repeat split; discriminate. Qed.

Lemma C7_logical_without_extended_witness :
  let t := DOSPartTable_add_each bytes_id dos_table_512
             [sized_action (Some "primary") 1048576] in
  DOSPartTable_add bytes_id t (sized_action (Some "logical") 1048576)
  = (t, Err MissingExtendedPartition).
Proof.
  apply (C7_logical_without_extended bytes_id 512 dos_table_512
           [sized_action (Some "primary") 1048576]
           (sized_action (Some "logical") 1048576)).
  - reflexivity.
  - repeat constructor; discriminate.
  - reflexivity.
Defined.

End BlockMetaFacts.

(** * Properties of the dependency resolver and the merge *)

Module StorageConfigFacts.
Import StorageConfig.

(** ** Loops *)

Lemma bind_ok {A B : Type} (r : result A) (k : A -> result B) (b : B) :
  bind r k = Ok b -> exists a, r = Ok a /\ k a = Ok b.
Proof. destruct r as [a|e]; cbn; [eauto | discriminate]. Qed.

Ltac bind_inv H :=
  let x := fresh "x" in
  let Hx := fresh "Hx" in
  apply bind_ok in H; destruct H as (x & Hx & H).

Lemma foldM_app {A B : Type} (f : B -> A -> result B) (l1 l2 : list A) (b : B) :
  foldM f (l1 ++ l2) b = (b' <- foldM f l1 b ;; foldM f l2 b').
Proof.
  induction l1 as [|x l1 IH] in b |- *; cbn; [reflexivity|].
  destruct (f b x) as [b'|e]; cbn; [apply IH | reflexivity].
Qed.

(** A loop whose every turn appends to the list it carries appends. *)
Lemma foldM_extends {A B : Type} (f : list B -> A -> result (list B))
    (l : list A) :
  (forall b x b', In x l -> f b x = Ok b' -> exists s, b' = b ++ s) ->
  forall b r, foldM f l b = Ok r -> exists s, r = b ++ s.
Proof.
  induction l as [|x l IH]; intros Hstep b r Hr; cbn in Hr.
  - injection Hr as <-. exists []. symmetry. apply app_nil_r.
  - bind_inv Hr.
    destruct (Hstep b x x0 (or_introl eq_refl) Hx) as [s1 ->].
    destruct (IH (fun b x b' Hin => Hstep b x b' (or_intror Hin)) _ _ Hr)
      as [s2 ->].
    exists (s1 ++ s2). symmetry. apply app_assoc.
Qed.

Lemma mapM_ok_length {A B : Type} (f : A -> result B) (l : list A)
    (r : list B) :
  mapM f l = Ok r -> List.length r = List.length l.
Proof.
  induction l as [|x l IH] in r |- *; cbn; intros H.
  - injection H as <-. reflexivity.
  - bind_inv H. bind_inv H. injection H as <-. cbn. f_equal. apply IH, Hx0.
Qed.

Lemma mapM_ok_Forall2 {A B : Type} (f : A -> result B) (l : list A)
    (r : list B) :
  mapM f l = Ok r -> Forall2 (fun x y => f x = Ok y) l r.
Proof.
  induction l as [|x l IH] in r |- *; cbn; intros H.
  - injection H as <-. constructor.
  - bind_inv H. bind_inv H. injection H as <-. constructor; [exact Hx|].
    apply IH, Hx0.
Qed.

(** ** sorted *)

Lemma list_compare_antisym (l m : list string) :
  list_compare l m = CompOpp (list_compare m l).
Proof.
  induction l as [|a l IH] in m |- *; destruct m as [|b m]; cbn; try reflexivity.
  rewrite (String.compare_antisym b a).
  destruct (String.compare a b); cbn; auto.
Qed.

Lemma value_compare_antisym (a b : value) :
  value_compare a b = CompOpp (value_compare b a).
Proof.
  destruct a, b; cbn; try reflexivity.
  - apply String.compare_antisym.
  - apply Z.compare_antisym.
  - apply list_compare_antisym.
Qed.

Lemma value_ltb_asym (a b : value) :
  value_ltb a b = true -> value_ltb b a = false.
Proof.
  unfold value_ltb. rewrite (value_compare_antisym b a).
  destruct (value_compare a b); cbn; congruence.
Qed.

Section SortedFacts.
Context {A : Type}.

Lemma insert_keyed_perm (x : value * A) (l : list (value * A)) :
  Permutation (insert_keyed x l) (x :: l).
Proof.
  induction l as [|y l IH]; cbn; [reflexivity|].
  destruct (value_ltb (fst y) (fst x)); [|reflexivity].
  rewrite IH. apply perm_swap.
Qed.

Lemma sort_keyed_perm (l : list (value * A)) : Permutation (sort_keyed l) l.
Proof.
  induction l as [|x l IH]; cbn; [reflexivity|].
  rewrite insert_keyed_perm. constructor. exact IH.
Qed.

Lemma insert_keyed_sorted (x : value * A) (l : list (value * A)) :
  Sorted keyed_le l -> Sorted keyed_le (insert_keyed x l).
Proof.
  induction l as [|y l IH]; intros Hs; cbn.
  - repeat constructor.
  - inversion Hs as [|? ? Hs' Hhd]; subst.
    destruct (value_ltb (fst y) (fst x)) eqn:Hlt.
    + constructor; [apply IH, Hs'|].
      destruct l as [|z l]; cbn.
      * constructor. apply value_ltb_asym, Hlt.
      * destruct (value_ltb (fst z) (fst x)).
        -- constructor. inversion Hhd; assumption.
        -- constructor. apply value_ltb_asym, Hlt.
    + constructor; [exact Hs|]. constructor. exact Hlt.
Qed.

Lemma sort_keyed_sorted (l : list (value * A)) : Sorted keyed_le (sort_keyed l).
Proof.
  induction l as [|x l IH]; cbn; [constructor|].
  apply insert_keyed_sorted, IH.
Qed.

Lemma sorted_inv (l r : list A) (key : A -> result value) :
  sorted l key = Ok r ->
  exists keyed,
    Forall2 (fun x kx => key x = Ok (fst kx) /\ snd kx = x) l keyed /\
    r = map snd (sort_keyed keyed).
Proof.
  unfold sorted. intros H. bind_inv H.
  destruct (comparable (map fst x)); [|discriminate].
  injection H as <-. exists x. split; [|reflexivity].
  apply mapM_ok_Forall2 in Hx.
  induction Hx as [|a kx l keyed Ha _ IH]; constructor; [|exact IH].
  bind_inv Ha. injection Ha as <-. cbn. auto.
Qed.

Lemma Forall2_snd_map (l : list A) (keyed : list (value * A))
    (P : A -> value * A -> Prop) :
  Forall2 (fun x kx => P x kx /\ snd kx = x) l keyed -> map snd keyed = l.
Proof.
  induction 1 as [|x kx l keyed [_ Hx] _ IH]; cbn; [reflexivity|].
  rewrite Hx, IH. reflexivity.
Qed.

(** sorted returns a rearrangement of its argument. *)
Lemma sorted_perm (l r : list A) (key : A -> result value) :
  sorted l key = Ok r -> Permutation r l.
Proof.
  intros H. destruct (sorted_inv _ _ _ H) as (keyed & Hk & ->).
  rewrite (sort_keyed_perm keyed).
  rewrite (Forall2_snd_map _ _ _ Hk). reflexivity.
Qed.

(** ... in which no element has a key below the key of the one before. *)
Lemma sorted_sorted (l r : list A) (key : A -> result value) :
  sorted l key = Ok r ->
  Sorted (fun a b => exists ka kb,
            key a = Ok ka /\ key b = Ok kb /\ value_ltb kb ka = false) r.
Proof.
  intros H. destruct (sorted_inv _ _ _ H) as (keyed & Hk & ->).
  assert (Hall : Forall (fun kx => key (snd kx) = Ok (fst kx))
                        (sort_keyed keyed)).
  { rewrite (sort_keyed_perm keyed).
    clear H. induction Hk as [|x kx l keyed [Hx Hs] _ IH]; constructor.
    - rewrite Hs. exact Hx.
    - exact IH. }
  pose proof (sort_keyed_sorted keyed) as Hs.
  clear H Hk. set (s := sort_keyed keyed) in *. clearbody s.
  induction Hs as [|kx ks Hs IH Hhd]; cbn; [constructor|].
  inversion Hall as [|? ? Hkx Hks]; subst.
  constructor; [apply IH, Hks|].
  destruct Hhd as [|ky ks' Hle]; cbn; constructor.
  inversion Hks; subst.
  exists (fst kx), (fst ky). auto.
Qed.

End SortedFacts.

(** ** Ordered dicts *)

Section OdictFacts.
Context {V : Type}.

Lemma odict_get_In (d : odict V) (k : string) (v : V) :
  odict_get d k = Some v -> In (k, v) d.
Proof.
  induction d as [|[k' v'] d IH]; cbn; [discriminate|].
  destruct (String.eqb k' k) eqn:E.
  - apply String.eqb_eq in E. intros [= ->]. subst. left. reflexivity.
  - intros H. right. apply IH, H.
Qed.

Lemma odict_get_None (d : odict V) (k : string) :
  odict_get d k = None <-> ~ In k (map fst d).
Proof.
  induction d as [|[k' v'] d IH]; cbn; [tauto|].
  destruct (String.eqb k' k) eqn:E.
  - apply String.eqb_eq in E. split; [discriminate | tauto].
  - apply String.eqb_neq in E. rewrite IH. tauto.
Qed.

Lemma odict_mem_In (d : odict V) (k : string) :
  odict_mem d k = true <-> In k (map fst d).
Proof.
  unfold odict_mem. pose proof (odict_get_None d k) as H.
  destruct (odict_get d k).
  - split; [intros _ | reflexivity].
    destruct (in_dec string_dec k (map fst d)) as [Hin|Hn]; [exact Hin|].
    apply H in Hn. discriminate.
  - split; [discriminate|]. intros Hin. exfalso. apply H; auto.
Qed.

Lemma odict_set_fresh (d : odict V) (k : string) (v : V) :
  odict_get d k = None -> odict_set d k v = d ++ [(k, v)].
Proof.
  induction d as [|[k' v'] d IH]; cbn; [reflexivity|].
  destruct (String.eqb k' k); [discriminate|].
  intros H. rewrite IH by exact H. reflexivity.
Qed.

Lemma odict_set_keys_present (d : odict V) (k : string) (v : V) :
  odict_get d k <> None -> map fst (odict_set d k v) = map fst d.
Proof.
  induction d as [|[k' v'] d IH]; cbn; [congruence|].
  destruct (String.eqb k' k) eqn:E.
  - apply String.eqb_eq in E. subst. reflexivity.
  - intros H. cbn. rewrite IH by exact H. reflexivity.
Qed.

Lemma odict_set_keys (d : odict V) (k : string) (v : V) :
  map fst (odict_set d k v) =
  if odict_mem d k then map fst d else map fst d ++ [k].
Proof.
  unfold odict_mem. destruct (odict_get d k) eqn:E.
  - apply odict_set_keys_present. congruence.
  - rewrite odict_set_fresh by exact E. rewrite map_app. reflexivity.
Qed.

Lemma odict_set_NoDup (d : odict V) (k : string) (v : V) :
  NoDup (map fst d) -> NoDup (map fst (odict_set d k v)).
Proof.
  intros Hnd. rewrite odict_set_keys. unfold odict_mem.
  destruct (odict_get d k) eqn:E; [exact Hnd|].
  apply odict_get_None in E.
  apply NoDup_rev in Hnd. rewrite <- (rev_involutive (map fst d ++ [k])).
  apply NoDup_rev. rewrite rev_app_distr. cbn. constructor; [|exact Hnd].
  rewrite <- in_rev. exact E.
Qed.

Lemma odict_get_set (d : odict V) (k k' : string) (v : V) :
  odict_get (odict_set d k v) k' =
  if String.eqb k k' then Some v else odict_get d k'.
Proof.
  induction d as [|[k0 v0] d IH]; cbn.
  - reflexivity.
  - destruct (String.eqb k0 k) eqn:E0; cbn.
    + apply String.eqb_eq in E0. subst k0.
      destruct (String.eqb k k'); reflexivity.
    + destruct (String.eqb k0 k') eqn:E1.
      * apply String.eqb_eq in E1. subst k0.
        rewrite String.eqb_sym, E0. reflexivity.
      * exact IH.
Qed.

Lemma odict_get_NoDup_In (d : odict V) (k : string) (v : V) :
  NoDup (map fst d) -> In (k, v) d -> odict_get d k = Some v.
Proof.
  induction d as [|[k' v'] d IH]; cbn; [tauto|].
  intros Hnd [Heq | Hin].
  - injection Heq as -> ->. rewrite String.eqb_refl. reflexivity.
  - inversion Hnd as [|? ? Hk' Hnd']; subst.
    destruct (String.eqb k' k) eqn:E.
    + apply String.eqb_eq in E. subst k'. exfalso. apply Hk'.
      apply in_map_iff. exists (k, v). auto.
    + apply IH; assumption.
Qed.

End OdictFacts.

(** ** find_item_dependencies *)

Section ResolverFacts.

Variable set_order : list string -> list string.

Local Abbreviation find_item_dependencies :=
  (StorageConfig.find_item_dependencies set_order).
Local Abbreviation _stype_to_deps := (StorageConfig._stype_to_deps set_order).
Local Abbreviation get_config_tree :=
  (StorageConfig.get_config_tree set_order).

(** C6, as the code has it: on a non-empty configuration, an id that is no
    key of it makes find_item_dependencies return None; nothing is raised. *)
Theorem C6_absent_item_returns_None
    (depth : nat) (item_id : ref) (config : odict item) (validate : bool) :
  config <> [] ->
  config_get config item_id = None ->
  find_item_dependencies (S depth) item_id config validate = Ok None.
Proof.
  intros Hne Habs. cbn.
  destruct config as [|p config]; [contradiction|].
  rewrite Habs. reflexivity.
Qed.

(** What one turn of [for dep in dep_value] appends. *)
Lemma resolve_dep_inv (lower : ref -> result (option (list ref)))
    (item_id : ref) (config : odict item) (validate : bool)
    (item_order dep_key : string) (deps deps' : list ref) (dep : ref) :
  resolve_dep lower item_id config validate item_order dep_key deps dep
    = Ok deps' ->
  exists sibs lo,
    sorted (sdeps_cfgs (_find_same_dep dep_key dep config) config)
           (itemgetter item_order) = Ok sibs /\
    lower dep = Ok lo /\
    (validate = true ->
     _validate_dep_type item_id dep_key dep config = Ok true) /\
    deps' = deps ++ map (fun sdep => RStr (id sdep)) sibs
                 ++ match lo with Some l => l | None => [] end.
Proof.
  unfold resolve_dep. intros H.
  bind_inv H. bind_inv H. bind_inv H.
  exists x0, x1. split; [exact Hx0|]. split; [exact Hx1|]. split.
  - intros ->. destruct x; [exact Hx|].
    unfold _validate_dep_type in Hx.
    repeat match type of Hx with
           | match ?c with _ => _ end = _ => destruct c; try discriminate
           | (if ?c then _ else _) = _ => destruct c; try discriminate
           end.
  - destruct x1 as [[|d ds]|]; injection H as <-.
    + rewrite !app_nil_r. reflexivity.
    + rewrite app_assoc. reflexivity.
    + rewrite !app_nil_r. reflexivity.
Qed.

Lemma resolve_dep_extends (lower : ref -> result (option (list ref)))
    (item_id : ref) (config : odict item) (validate : bool)
    (item_order dep_key : string) (deps deps' : list ref) (dep : ref) :
  resolve_dep lower item_id config validate item_order dep_key deps dep
    = Ok deps' ->
  exists s, deps' = deps ++ s.
Proof.
  intros H. destruct (resolve_dep_inv _ _ _ _ _ _ _ _ _ H)
    as (sibs & lo & _ & _ & _ & ->).
  eexists. reflexivity.
Qed.

Lemma resolve_key_extends (lower : ref -> result (option (list ref)))
    (item_id : ref) (config : odict item) (validate : bool)
    (item_cfg : item) (item_order : string) (deps deps' : list ref)
    (dep_key : string) :
  resolve_key lower item_id config validate item_cfg item_order deps dep_key
    = Ok deps' ->
  exists s, deps' = deps ++ s.
Proof.
  unfold resolve_key. destruct (item_get item_cfg dep_key) as [v|].
  - intros H. apply foldM_extends in H.
    + destruct H as [s ->]. rewrite <- app_assoc. eexists. reflexivity.
    + intros b x b' _. apply resolve_dep_extends.
  - intros [= <-]. exists []. symmetry. apply app_nil_r.
Qed.

(** Splitting a loop at one of its turns. *)
Lemma foldM_In_inv {A B : Type} (f : list B -> A -> result (list B))
    (l : list A) (x : A) (b r : list B) :
  (forall b x b', f b x = Ok b' -> exists s, b' = b ++ s) ->
  In x l -> foldM f l b = Ok r ->
  exists b1 b2 s, f b1 x = Ok b2 /\ r = b2 ++ s /\ exists p, b1 = b ++ p.
Proof.
  intros Hext Hin Hr.
  destruct (in_split _ _ Hin) as (l1 & l2 & ->).
  rewrite foldM_app in Hr. bind_inv Hr. cbn in Hr. bind_inv Hr.
  exists x0, x1.
  destruct (foldM_extends f l2 (fun b x b' _ => Hext b x b') _ _ Hr) as [s ->].
  destruct (foldM_extends f l1 (fun b x b' _ => Hext b x b') _ _ Hx) as [p ->].
  exists s. split; [exact Hx0|]. split; [reflexivity|]. exists p. reflexivity.
Qed.

(** What a successful call on a present item went through. *)
Lemma find_item_dependencies_inv (depth : nat) (item_id : ref)
    (config : odict item) (validate : bool) (item_cfg : item)
    (r : option (list ref)) :
  find_item_dependencies (S depth) item_id config validate = Ok r ->
  config_get config item_id = Some item_cfg ->
  exists item_order dep_keys deps,
    _stype_to_order_key (type item_cfg) = Ok item_order /\
    _stype_to_deps (type item_cfg) = Ok dep_keys /\
    foldM (resolve_key
             (fun dep => find_item_dependencies depth dep config true)
             item_id config validate item_cfg item_order)
          dep_keys [] = Ok deps /\
    r = Some deps.
Proof.
  cbn. intros H Hget.
  destruct config as [|p config]; [discriminate|].
  rewrite Hget in H. bind_inv H. bind_inv H. bind_inv H.
  injection H as <-. exists x, x0, x1. auto.
Qed.

Lemma itemgetter_ok (k : string) (cfg : item) (v : value) :
  itemgetter k cfg = Ok v <-> item_get cfg k = Some v.
Proof.
  unfold itemgetter. destruct (item_get cfg k); split; congruence.
Qed.

(** C4, as the code has it: for every reference [dep] in a dependency field
    [dep_key] of the item being resolved, the result holds, as one run, the
    ids of all configs whose [dep_key] equals [dep], and of no others, sorted
    by the order key of the type of the item being resolved. *)
Theorem C4_siblings_emitted_sorted
    (depth : nat) (item_id : ref) (config : odict item) (validate : bool)
    (item_cfg : item) (deps : list ref)
    (dep_keys : list string) (dep_key : string) (v : value) (dep : ref) :
  find_item_dependencies (S depth) item_id config validate = Ok (Some deps) ->
  config_get config item_id = Some item_cfg ->
  _stype_to_deps (type item_cfg) = Ok dep_keys ->
  In dep_key dep_keys ->
  item_get item_cfg dep_key = Some v ->
  In dep (refs_of v) ->
  exists item_order sibs before after,
    _stype_to_order_key (type item_cfg) = Ok item_order /\
    deps = before ++ map (fun sdep => RStr (id sdep)) sibs ++ after /\
    (forall k cfg, In (k, cfg) config ->
       value_is_ref (item_get cfg dep_key) dep = true -> In cfg sibs) /\
    (forall cfg, In cfg sibs ->
       exists k, In (k, cfg) config /\
                 In k (_find_same_dep dep_key dep config)) /\
    Sorted (ordered_by item_order) sibs.
Proof.
  intros Hfid Hget Hkeys Hkey Hv Hdep.
  destruct (find_item_dependencies_inv _ _ _ _ _ _ Hfid Hget)
    as (item_order & dep_keys' & deps' & Hord & Hkeys' & Hloop & Hdeps).
  rewrite Hkeys in Hkeys'. injection Hkeys' as <-. injection Hdeps as <-.
  destruct (foldM_In_inv _ _ dep_key _ _
              (fun b x b' => resolve_key_extends _ _ _ _ _ _ b b' x)
              Hkey Hloop)
    as (c1 & c2 & s2 & Hstep & -> & _).
  unfold resolve_key in Hstep. rewrite Hv in Hstep.
  destruct (foldM_In_inv _ _ dep _ _
              (fun b x b' => resolve_dep_extends _ _ _ _ _ _ b b' x)
              Hdep Hstep)
    as (b1 & b2 & s1 & Hturn & -> & _).
  destruct (resolve_dep_inv _ _ _ _ _ _ _ _ _ Hturn)
    as (sibs & lo & Hsorted & _ & _ & ->).
  exists item_order, sibs, b1,
    (match lo with Some l => l | None => [] end ++ s1 ++ s2).
  split; [exact Hord|]. split.
  { rewrite <- !app_assoc. reflexivity. }
  pose proof (sorted_perm _ _ _ Hsorted) as Hperm.
  split; [|split].
  - intros k cfg Hin Hsame.
    apply (Permutation_in _ (Permutation_sym Hperm)).
    unfold sdeps_cfgs. apply in_map_iff. exists (k, cfg). split; [reflexivity|].
    apply filter_In. split; [exact Hin|].
    unfold str_in. apply existsb_exists. exists k.
    split; [|apply String.eqb_refl].
    unfold _find_same_dep. apply in_map_iff. exists (k, cfg).
    split; [reflexivity|]. apply filter_In. split; assumption.
  - intros cfg Hin.
    apply (Permutation_in _ Hperm) in Hin.
    unfold sdeps_cfgs in Hin. apply in_map_iff in Hin.
    destruct Hin as ([k cfg'] & Heq & Hin). cbn in Heq. subst cfg'.
    apply filter_In in Hin. destruct Hin as [Hin Hmem].
    exists k. split; [exact Hin|].
    unfold str_in in Hmem. apply existsb_exists in Hmem.
    destruct Hmem as (k' & Hk' & Heq). apply String.eqb_eq in Heq. subst k'.
    exact Hk'.
  - pose proof (sorted_sorted _ _ _ Hsorted) as Hs.
    clear - Hs. induction Hs as [|a l Hs IH Hhd]; constructor; [exact IH|].
    destruct Hhd as [|b l (ka & kb & Ha & Hb & Hle)]; constructor.
    exists ka, kb. rewrite <- !itemgetter_ok. auto.
Qed.

(** *** The recursion and its depth *)

Lemma foldM_impl {A B : Type} (f g : B -> A -> result B) (l : list A)
    (b r : B) :
  (forall b x b', f b x = Ok b' -> g b x = Ok b') ->
  foldM f l b = Ok r -> foldM g l b = Ok r.
Proof.
  intros Hfg. induction l as [|x l IH] in b |- *; cbn; [auto|].
  intros H. bind_inv H. rewrite (Hfg _ _ _ Hx). cbn. apply IH, H.
Qed.

Lemma resolve_dep_impl (lower lower' : ref -> result (option (list ref)))
    (item_id : ref) (config : odict item) (validate : bool)
    (item_order dep_key : string) (deps deps' : list ref) (dep : ref) :
  (forall r x, lower r = Ok x -> lower' r = Ok x) ->
  resolve_dep lower item_id config validate item_order dep_key deps dep
    = Ok deps' ->
  resolve_dep lower' item_id config validate item_order dep_key deps dep
    = Ok deps'.
Proof.
  intros Hl. unfold resolve_dep. intros H.
  bind_inv H. rewrite Hx. cbn [bind].
  bind_inv H. rewrite Hx0. cbn [bind].
  bind_inv H. rewrite (Hl _ _ Hx1). cbn [bind]. exact H.
Qed.

Lemma resolve_key_impl (lower lower' : ref -> result (option (list ref)))
    (item_id : ref) (config : odict item) (validate : bool)
    (item_cfg : item) (item_order : string) (deps deps' : list ref)
    (dep_key : string) :
  (forall r x, lower r = Ok x -> lower' r = Ok x) ->
  resolve_key lower item_id config validate item_cfg item_order deps dep_key
    = Ok deps' ->
  resolve_key lower' item_id config validate item_cfg item_order deps dep_key
    = Ok deps'.
Proof.
  intros Hl. unfold resolve_key.
  destruct (item_get item_cfg dep_key); [|auto].
  apply foldM_impl. intros b x b'. apply resolve_dep_impl, Hl.
Qed.

(** A call that returns within some depth returns the same within any
    greater depth. *)
Lemma find_item_dependencies_S (depth : nat) (item_id : ref)
    (config : odict item) (validate : bool) (r : option (list ref)) :
  find_item_dependencies depth item_id config validate = Ok r ->
  find_item_dependencies (S depth) item_id config validate = Ok r.
Proof.
  induction depth as [|depth IH] in item_id, validate, r |- *;
    [discriminate|].
  intros H.
  cbn [StorageConfig.find_item_dependencies] in H |- *.
  destruct config as [|p config]; [discriminate|].
  destruct (config_get (p :: config) item_id) as [item_cfg|]; [|exact H].
  bind_inv H. rewrite Hx. cbn [bind].
  bind_inv H. rewrite Hx0. cbn [bind].
  bind_inv H. injection H as <-.
  erewrite foldM_impl; [reflexivity | | exact Hx1].
  intros b k b'. apply resolve_key_impl. intros r' x'. apply IH.
Qed.

Lemma find_item_dependencies_mono (d d' : nat) (item_id : ref)
    (config : odict item) (validate : bool) (r : option (list ref)) :
  (d <= d')%nat ->
  find_item_dependencies d item_id config validate = Ok r ->
  find_item_dependencies d' item_id config validate = Ok r.
Proof.
  induction 1 as [|d' _ IH]; [auto|].
  intros H. apply find_item_dependencies_S, IH, H.
Qed.

(** So a tree that is built within some depth is the tree built within any
    greater depth: the depth only decides whether RecursionError is raised. *)
Lemma get_config_tree_mono (d d' : nat) (a : string) (scfg : list item)
    (t : odict item) :
  (d <= d')%nat ->
  get_config_tree d a scfg = Ok t -> get_config_tree d' a scfg = Ok t.
Proof.
  intros Hle. unfold StorageConfig.get_config_tree. intros H.
  bind_inv H. rewrite Hx. cbn [bind].
  bind_inv H. rewrite Hx0. cbn [bind].
  bind_inv H.
  rewrite (find_item_dependencies_mono d d' _ _ _ _ Hle Hx1). cbn [bind].
  exact H.
Qed.

(** What a reference in a dependency field of the resolved item brings
    into the result: itself and all that its own resolution returns. *)
Lemma find_item_dependencies_ref
    (depth : nat) (item_id : ref) (config : odict item)
    (item_cfg : item) (deps : list ref)
    (dep_keys : list string) (dep_key : string) (v : value) (dep : ref) :
  find_item_dependencies (S depth) item_id config true = Ok (Some deps) ->
  config_get config item_id = Some item_cfg ->
  _stype_to_deps (type item_cfg) = Ok dep_keys ->
  In dep_key dep_keys ->
  item_get item_cfg dep_key = Some v ->
  In dep (refs_of v) ->
  In dep deps /\
  _validate_dep_type item_id dep_key dep config = Ok true /\
  exists lo,
    find_item_dependencies depth dep config true = Ok lo /\
    forall l, lo = Some l -> incl l deps.
Proof.
  intros Hfid Hget Hkeys Hkey Hv Hdep.
  destruct (find_item_dependencies_inv _ _ _ _ _ _ Hfid Hget)
    as (item_order & dep_keys' & deps' & Hord & Hkeys' & Hloop & Hdeps).
  rewrite Hkeys in Hkeys'. injection Hkeys' as <-. injection Hdeps as <-.
  destruct (foldM_In_inv _ _ dep_key _ _
              (fun b x b' => resolve_key_extends _ _ _ _ _ _ b b' x)
              Hkey Hloop)
    as (c1 & c2 & s2 & Hstep & -> & _).
  unfold resolve_key in Hstep. rewrite Hv in Hstep.
  destruct (foldM_In_inv (resolve_dep _ _ _ _ _ _) _ dep _ _
              (fun b x b' => resolve_dep_extends _ _ _ _ _ _ b b' x)
              Hdep Hstep)
    as (b1 & b2 & s1 & Hturn & -> & (p & ->)).
  destruct (resolve_dep_inv _ _ _ _ _ _ _ _ _ Hturn)
    as (sibs & lo & _ & Hlo & Hval & ->).
  split.
  { rewrite !in_app_iff. tauto. }
  split; [apply Hval; reflexivity|].
  exists lo. split; [exact Hlo|].
  intros l ->. intros x Hx. rewrite !in_app_iff. tauto.
Qed.

End ResolverFacts.

(** ** merge_config_trees_to_list *)

Section MergeFacts.

Lemma flat_map_app_perm {A B : Type} (f g : A -> list B) (l : list A) :
  Permutation (flat_map (fun x => f x ++ g x) l)
              (flat_map f l ++ flat_map g l).
Proof.
  induction l as [|a l IH]; cbn; [reflexivity|].
  rewrite IH, <- !app_assoc. apply Permutation_app_head.
  rewrite !app_assoc. apply Permutation_app_tail, Permutation_app_comm.
Qed.

Lemma flat_map_single {B : Type} (n : nat) (c : B) (l : list nat) :
  NoDup l -> In n l ->
  flat_map (fun lvl => if Nat.eqb n lvl then [c] else []) l = [c].
Proof.
  induction l as [|a l IH]; cbn; [tauto|].
  intros Hnd Hin. inversion Hnd as [|? ? Ha Hnd']; subst.
  destruct (Nat.eqb n a) eqn:E.
  - apply Nat.eqb_eq in E. subst a. cbn. f_equal.
    clear - Ha. induction l as [|b l IH]; cbn; [reflexivity|].
    destruct (Nat.eqb n b) eqn:E.
    + apply Nat.eqb_eq in E. subst. exfalso. apply Ha. left. reflexivity.
    + apply IH. intros H. apply Ha. right. exact H.
  - apply Nat.eqb_neq in E. destruct Hin as [->|Hin]; [contradiction|].
    cbn. apply IH; assumption.
Qed.

(** The levels 0 .. max_level split the registry. *)
Lemma level_configs_split (reg : odict entry) (m : nat) :
  Forall (fun p => (level (snd p) <= m)%nat) reg ->
  Permutation (flat_map (level_configs reg) (seq 0 (S m)))
              (map (fun p => config (snd p)) reg).
Proof.
  pose proof (seq_NoDup (S m) 0) as Hnd.
  assert (Hin : forall n, (n <= m)%nat -> In n (seq 0 (S m))).
  { intros n Hn. apply in_seq. lia. }
  revert Hnd Hin. generalize (seq 0 (S m)) as lvls. intros lvls Hnd Hin.
  induction reg as [|p reg IH]; intros Hall.
  - cbn. clear. induction lvls as [|a l IHl]; cbn; auto.
  - inversion Hall as [|? ? Hp Hreg]; subst.
    transitivity
      (flat_map (fun lvl => if Nat.eqb (level (snd p)) lvl
                            then [config (snd p)] else []) lvls
       ++ flat_map (level_configs reg) lvls).
    + rewrite <- flat_map_app_perm.
      apply Permutation_refl'. apply flat_map_ext. intros lvl.
      unfold level_configs. cbn [filter].
      destruct (Nat.eqb (level (snd p)) lvl); reflexivity.
    + rewrite flat_map_single by auto.
      cbn. constructor. apply IH, Hreg.
Qed.

(** *** sort_level *)

Lemma concat_odict_set_present {B : Type} (d : odict (list B)) (k : string)
    (l x : list B) :
  odict_get d k = Some l ->
  Permutation (List.concat (map snd (odict_set d k (l ++ x))))
              (List.concat (map snd d) ++ x).
Proof.
  induction d as [|[k' v'] d IH]; cbn; [discriminate|].
  destruct (String.eqb k' k).
  - intros [= ->]. cbn. rewrite <- !app_assoc.
    apply Permutation_app_head, Permutation_app_comm.
  - intros H. cbn. rewrite (IH H), app_assoc. reflexivity.
Qed.

Lemma group_step_perm (sreg : odict (list item)) (cfg : item) :
  Permutation (List.concat (map snd (group_step sreg cfg)))
              (List.concat (map snd sreg) ++ [cfg]).
Proof.
  unfold group_step. destruct (odict_get sreg (type cfg)) as [l|] eqn:E.
  - apply concat_odict_set_present, E.
  - rewrite odict_set_fresh by exact E.
    rewrite map_app, concat_app. cbn. reflexivity.
Qed.

Lemma group_step_NoDup (sreg : odict (list item)) (cfg : item) :
  NoDup (map fst sreg) -> NoDup (map fst (group_step sreg cfg)).
Proof.
  unfold group_step.
  destruct (odict_get sreg (type cfg)); apply odict_set_NoDup.
Qed.

Lemma group_by_type_spec (configs : list item) :
  NoDup (map fst (group_by_type configs)) /\
  Permutation (List.concat (map snd (group_by_type configs))) configs.
Proof.
  unfold group_by_type.
  assert (H : forall sreg,
             NoDup (map fst sreg) ->
             NoDup (map fst (fold_left group_step configs sreg)) /\
             Permutation
               (List.concat (map snd (fold_left group_step configs sreg)))
               (List.concat (map snd sreg) ++ configs)).
  { induction configs as [|cfg configs IH]; intros sreg Hnd; cbn.
    - rewrite app_nil_r. auto.
    - destruct (IH (group_step sreg cfg) (group_step_NoDup _ _ Hnd))
        as [Hnd' Hp].
      split; [exact Hnd'|].
      rewrite Hp, group_step_perm, <- app_assoc. reflexivity. }
  apply (H []). constructor.
Qed.

(** A loop that appends one computed part per turn. *)
Lemma foldM_parts {A B : Type} (part : A -> result (list B)) (l : list A)
    (acc r : list B) :
  foldM (fun acc x => p <- part x ;; Ok (acc ++ p)) l acc = Ok r ->
  exists parts,
    Forall2 (fun x p => part x = Ok p) l parts /\ r = acc ++ List.concat parts.
Proof.
  induction l as [|x l IH] in acc |- *; cbn; intros H.
  - injection H as <-. exists []. split; [constructor|].
    cbn. symmetry. apply app_nil_r.
  - bind_inv H. bind_inv Hx. injection Hx as <-.
    destruct (IH _ H) as (parts & Hparts & ->).
    exists (x1 :: parts). split; [constructor; assumption|].
    cbn. rewrite app_assoc. reflexivity.
Qed.

Lemma Forall2_concat_perm {A B : Type} (g : A -> list B) (l : list A)
    (parts : list (list B)) :
  Forall2 (fun x p => Permutation p (g x)) l parts ->
  Permutation (List.concat parts) (flat_map g l).
Proof.
  induction 1 as [|x p l parts Hp _ IH]; cbn; [reflexivity|].
  apply Permutation_app; assumption.
Qed.

Lemma flat_map_odict_keys {B : Type} (d : odict (list B)) :
  NoDup (map fst d) ->
  flat_map (fun k => match odict_get d k with Some g => g | None => [] end)
           (map fst d)
  = List.concat (map snd d).
Proof.
  intros Hnd.
  assert (H : forall l, incl l d ->
            flat_map (fun k => match odict_get d k with
                               | Some g => g | None => [] end) (map fst l)
            = List.concat (map snd l)).
  { induction l as [|[k g] l IH]; intros Hincl; cbn; [reflexivity|].
    rewrite (odict_get_NoDup_In d k g Hnd) by (apply Hincl; left; reflexivity).
    f_equal. apply IH. intros x Hx. apply Hincl. right. exact Hx. }
  apply H, incl_refl.
Qed.

(** sort_level returns a rearrangement of the configs it is given. *)
Lemma sort_level_perm (configs r : list item) :
  sort_level configs = Ok r -> Permutation r configs.
Proof.
  unfold sort_level. intros H. bind_inv H.
  destruct (group_by_type_spec configs) as [Hnd Hperm].
  set (sreg := group_by_type configs) in *.
  apply sorted_perm in Hx.
  set (G := fun k => match odict_get sreg k with
                     | Some g => g | None => [] end).
  assert (Hparts : exists parts,
            Forall2 (fun t p => Permutation p (G t)) x parts /\
            r = List.concat parts).
  { apply (foldM_parts (sorted_group sreg)) in H.
    destruct H as (parts & Hparts & ->). exists parts. split; [|reflexivity].
    clear - Hparts. induction Hparts as [|t p l parts Hp _ IH];
      constructor; [|exact IH].
    unfold sorted_group in Hp.
    bind_inv Hp. bind_inv Hp. apply sorted_perm in Hp. unfold G.
    destruct (odict_get sreg t); [|discriminate].
    injection Hx0 as <-. exact Hp. }
  destruct Hparts as (parts & Hparts & ->).
  rewrite (Forall2_concat_perm G _ _ Hparts).
  rewrite (Permutation_flat_map G Hx).
  unfold G. rewrite flat_map_odict_keys by exact Hnd.
  exact Hperm.
Qed.

Lemma sort_level_nil : sort_level [] = Ok [].
Proof. reflexivity. Qed.

(** *** The registry *)

Lemma register_tree_inv (reg reg' : odict entry) (m m' : nat)
    (tree : odict item) :
  register_tree (reg, m) tree = Ok (reg', m') ->
  exists k cfg rest,
    tree = (k, cfg) :: rest /\
    m' = Nat.max m (List.length tree) /\
    reg' = if odict_mem reg k then reg
           else reg ++ [(k, {| level := List.length tree; config := cfg |})].
Proof.
  unfold register_tree. destruct tree as [|[k cfg] rest]; [discriminate|].
  cbn [odict_get]. rewrite String.eqb_refl.
  assert (Hmax : (if Nat.ltb m (List.length ((k, cfg) :: rest))
                  then List.length ((k, cfg) :: rest) else m)
                 = Nat.max m (List.length ((k, cfg) :: rest))).
  { destruct (Nat.ltb_spec m (List.length ((k, cfg) :: rest))); lia. }
  rewrite Hmax. unfold odict_mem.
  destruct (odict_get reg k) eqn:E; intros [= <- <-];
    exists k, cfg, rest; rewrite E; repeat split.
  rewrite odict_set_fresh by exact E. reflexivity.
Qed.

Lemma reg_tops_keys (reg : odict entry) :
  map fst (reg_tops reg) = map fst reg.
Proof. unfold reg_tops. rewrite map_map. reflexivity. Qed.

Lemma odict_mem_reg_tops (reg : odict entry) (k : string) :
  odict_mem (reg_tops reg) k = odict_mem reg k.
Proof.
  apply eq_true_iff_eq. rewrite !odict_mem_In, reg_tops_keys. reflexivity.
Qed.

Lemma build_registry_gen (trees : list (odict item))
    (reg0 reg : odict entry) (m0 m : nat) :
  foldM register_tree trees (reg0, m0) = Ok (reg, m) ->
  reg_tops reg = fold_left first_tops_step trees (reg_tops reg0) /\
  (m0 <= m)%nat /\
  (Forall (fun p => (level (snd p) <= m0)%nat) reg0 ->
   Forall (fun p => (level (snd p) <= m)%nat) reg) /\
  (forall k e, In (k, e) reg ->
     In (k, e) reg0 \/
     exists cfg rest,
       In ((k, cfg) :: rest) trees /\
       e = {| level := List.length ((k, cfg) :: rest); config := cfg |}) /\
  (forall k cfg rest, In ((k, cfg) :: rest) trees -> In k (map fst reg)) /\
  incl reg0 reg.
Proof.
  induction trees as [|tree trees IH] in reg0, m0 |- *; cbn; intros H.
  - injection H as <- <-. repeat split; auto.
    + intros k cfg rest [].
    + apply incl_refl.
  - bind_inv H. destruct x as [reg1 m1].
    destruct (register_tree_inv _ _ _ _ _ Hx) as (k & cfg & rest & -> & -> & Hreg1).
    destruct (IH _ _ H) as (Htops & Hm & Hall & Hfrom & Hkeys & Hincl).
    assert (Hincl01 : incl reg0 reg1).
    { rewrite Hreg1. destruct (odict_mem reg0 k);
        [apply incl_refl | apply incl_appl, incl_refl]. }
    repeat split.
    + rewrite Htops. f_equal. rewrite Hreg1. unfold first_tops_step.
      rewrite odict_mem_reg_tops. destruct (odict_mem reg0 k); [reflexivity|].
      unfold reg_tops. rewrite map_app. reflexivity.
    + lia.
    + intros H0. apply Hall. rewrite Hreg1.
      assert (H0' : Forall (fun p => (level (snd p) <=
                     Nat.max m0 (List.length ((k, cfg) :: rest)))%nat) reg0).
      { eapply Forall_impl; [|exact H0]. cbn. intros; lia. }
      destruct (odict_mem reg0 k); [exact H0'|].
      apply Forall_app. split; [exact H0'|].
      constructor; [|constructor]. cbn. lia.
    + intros k' e Hin. destruct (Hfrom k' e Hin) as [Hin1 | (c & r & Hin1 & ->)].
      * rewrite Hreg1 in Hin1. destruct (odict_mem reg0 k); [left; exact Hin1|].
        apply in_app_or in Hin1. destruct Hin1 as [Hin1 | [Heq | []]].
        -- left. exact Hin1.
        -- injection Heq as <- <-. right. exists cfg, rest.
           split; [left; reflexivity | reflexivity].
      * right. exists c, r. split; [right; exact Hin1 | reflexivity].
    + intros k' c r [Heq | Hin].
      * injection Heq as <- <- <-.
        assert (Hk : In k (map fst reg1)).
        { rewrite Hreg1. destruct (odict_mem reg0 k) eqn:E.
          - apply odict_mem_In, E.
          - rewrite map_app. apply in_or_app. right. left. reflexivity. }
        apply in_map_iff in Hk. destruct Hk as ([k0 e0] & Hk0 & Hin0).
        cbn in Hk0. subst k0. apply in_map_iff. exists (k, e0).
        split; [reflexivity | apply Hincl, Hin0].
      * apply (Hkeys k' c r Hin).
    + intros p Hp. apply Hincl, Hincl01, Hp.
Qed.

(** The registry does not depend on max_level. *)
Lemma build_registry_max (trees : list (odict item))
    (reg0 reg : odict entry) (m n n' : nat) :
  foldM register_tree trees (reg0, n) = Ok (reg, n') -> (m <= n)%nat ->
  exists m', foldM register_tree trees (reg0, m) = Ok (reg, m') /\
             (m' <= n')%nat.
Proof.
  induction trees as [|tree trees IH] in reg0, m, n |- *; cbn [foldM];
    intros H Hmn.
  - injection H as <- <-. exists m. auto.
  - bind_inv H. destruct x as [reg1 n1].
    destruct (register_tree_inv _ _ _ _ _ Hx) as (k & cfg & rest & -> & -> & ->).
    assert (Hm : register_tree (reg0, m) ((k, cfg) :: rest)
                 = Ok (if odict_mem reg0 k then reg0
                       else reg0 ++ [(k, {| level := List.length ((k, cfg) :: rest);
                                            config := cfg |})],
                       Nat.max m (List.length ((k, cfg) :: rest)))).
    { clear. unfold register_tree. cbn [odict_get]. rewrite String.eqb_refl.
      replace (if Nat.ltb m (List.length ((k, cfg) :: rest))
               then List.length ((k, cfg) :: rest) else m)
        with (Nat.max m (List.length ((k, cfg) :: rest)))
        by (destruct (Nat.ltb_spec m (List.length ((k, cfg) :: rest))); lia).
      unfold odict_mem. destruct (odict_get reg0 k) eqn:E; [reflexivity|].
      rewrite odict_set_fresh by exact E. reflexivity. }
    rewrite Hm. cbn [bind]. eapply IH; [exact H | lia].
Qed.

(** The levels above every registered level add nothing. *)
Lemma merge_levels_above (reg : odict entry) (m : nat) (lvls : list nat)
    (acc : list item) :
  Forall (fun p => (level (snd p) <= m)%nat) reg ->
  Forall (fun lvl => (m < lvl)%nat) lvls ->
  foldM (fun merged lvl =>
           sconfigs <- sort_level (level_configs reg lvl) ;;
           Ok (merged ++ sconfigs)) lvls acc = Ok acc.
Proof.
  intros Hreg. induction 1 as [|lvl lvls Hlvl _ IH]; cbn; [reflexivity|].
  assert (Hnil : level_configs reg lvl = []).
  { unfold level_configs. clear - Hreg Hlvl.
    induction Hreg as [|p reg Hp _ IH]; cbn; [reflexivity|].
    destruct (Nat.eqb_spec (level (snd p)) lvl); [lia | exact IH]. }
  rewrite Hnil, sort_level_nil. cbn. rewrite app_nil_r. exact IH.
Qed.

Lemma merge_levels_max (reg : odict entry) (m n : nat) :
  Forall (fun p => (level (snd p) <= m)%nat) reg -> (m <= n)%nat ->
  foldM (fun merged lvl =>
           sconfigs <- sort_level (level_configs reg lvl) ;;
           Ok (merged ++ sconfigs)) (seq 0 (n + 1)) []
  = foldM (fun merged lvl =>
             sconfigs <- sort_level (level_configs reg lvl) ;;
             Ok (merged ++ sconfigs)) (seq 0 (m + 1)) [].
Proof.
  intros Hreg Hmn.
  replace (n + 1)%nat with ((m + 1) + (n - m))%nat by lia.
  rewrite seq_app, foldM_app.
  destruct (foldM _ (seq 0 (m + 1)) []) as [acc|e]; cbn; [|reflexivity].
  apply (merge_levels_above reg m); [exact Hreg|].
  apply Forall_forall. intros lvl Hin. apply in_seq in Hin. lia.
Qed.

Lemma first_tops_from (trees : list (odict item)) (acc : odict item)
    (k : string) (cfg : item) :
  In (k, cfg) (fold_left first_tops_step trees acc) ->
  In (k, cfg) acc \/ exists rest, In ((k, cfg) :: rest) trees.
Proof.
  induction trees as [|tree trees IH] in acc |- *; cbn; [auto|].
  intros H. destruct (IH _ H) as [Hacc | (rest & Hin)].
  - unfold first_tops_step in Hacc. destruct tree as [|[k' c'] rest]; [auto|].
    destruct (odict_mem acc k'); [auto|].
    apply in_app_or in Hacc. destruct Hacc as [Hacc | [Heq | []]]; [auto|].
    injection Heq as -> ->. right. exists rest. left. reflexivity.
  - right. exists rest. right. exact Hin.
Qed.

(** What merge_config_trees_to_list returns, in terms of the registry. *)
Lemma merge_inv (trees : list (odict item)) (merged : list item) :
  merge_config_trees_to_list trees = Ok merged ->
  exists reg m parts,
    build_registry trees = Ok (reg, m) /\
    Forall (fun p => (level (snd p) <= m)%nat) reg /\
    Forall2 (fun lvl part => Permutation part (level_configs reg lvl))
            (seq 0 (m + 1)) parts /\
    merged = List.concat parts.
Proof.
  unfold merge_config_trees_to_list. intros H. bind_inv H.
  destruct x as [reg m].
  apply (foldM_parts (fun lvl => sort_level (level_configs reg lvl))) in H.
  destruct H as (parts & Hparts & ->).
  exists reg, m, parts. split; [exact Hx|].
  split.
  { unfold build_registry in Hx.
    apply (build_registry_gen _ _ _ _ _ Hx). constructor. }
  split; [|reflexivity].
  clear - Hparts. induction Hparts; constructor; auto.
  apply sort_level_perm. assumption.
Qed.

Lemma merge_perm_registry (trees : list (odict item)) (merged : list item)
    (reg : odict entry) (m : nat) :
  merge_config_trees_to_list trees = Ok merged ->
  build_registry trees = Ok (reg, m) ->
  Permutation merged (map (fun p => config (snd p)) reg).
Proof.
  intros H Hreg.
  destruct (merge_inv _ _ H) as (reg' & m' & parts & Hreg' & Hall & Hparts & ->).
  rewrite Hreg in Hreg'. injection Hreg' as <- <-.
  rewrite (Forall2_concat_perm (level_configs reg) _ _ Hparts).
  replace (m + 1)%nat with (S m) by lia.
  apply level_configs_split, Hall.
Qed.

(** C9: the merged list is a rearrangement of the configs of the first keys
    of the trees, each first key counted where it first occurs; so a config
    of the merged list is the first entry of some tree, and taking away a
    tree whose first key is the first key of an earlier tree changes
    nothing. *)
Theorem C9_merge_outputs_first_keys
    (trees : list (odict item)) (merged : list item) :
  merge_config_trees_to_list trees = Ok merged ->
  Permutation merged (map snd (first_tops trees)) /\
  (forall cfg, In cfg merged -> exists k rest, In ((k, cfg) :: rest) trees) /\
  (forall l1 l2 t t1,
     trees = l1 ++ t :: l2 -> In t1 l1 -> top_key t1 = top_key t ->
     merge_config_trees_to_list (l1 ++ l2) = Ok merged).
Proof.
  intros H.
  assert (Hperm : Permutation merged (map snd (first_tops trees))).
  { pose proof H as H'. unfold merge_config_trees_to_list in H'. bind_inv H'.
    destruct x as [reg m].
    rewrite (merge_perm_registry _ _ _ _ H Hx).
    unfold build_registry in Hx.
    destruct (build_registry_gen _ _ _ _ _ Hx) as (Htops & _).
    unfold first_tops. cbn in Htops. rewrite <- Htops.
    unfold reg_tops. rewrite map_map. reflexivity. }
  split; [exact Hperm|]. split.
  - intros cfg Hin. apply (Permutation_in _ Hperm) in Hin.
    apply in_map_iff in Hin. destruct Hin as ([k c] & Heq & Hin).
    cbn in Heq. subst c. unfold first_tops in Hin.
    destruct (first_tops_from _ _ _ _ Hin) as [[] | (rest & Hrest)].
    exists k, rest. exact Hrest.
  - intros l1 l2 t t1 -> Ht1 Htop.
    unfold merge_config_trees_to_list in *. bind_inv H. destruct x as [reg m].
    unfold build_registry in *. rewrite foldM_app in Hx. bind_inv Hx.
    destruct x as [reg1 m1]. cbn [foldM] in Hx. bind_inv Hx.
    destruct x as [reg2 m2].
    destruct (register_tree_inv _ _ _ _ _ Hx1) as (k & cfg & rest & -> & -> & Hreg2).
    destruct (build_registry_gen _ _ _ _ _ Hx0) as (_ & _ & _ & _ & Hkeys & _).
    destruct t1 as [|[k1 c1] r1]; [discriminate|].
    cbn in Htop. injection Htop as ->.
    apply Hkeys in Ht1. apply odict_mem_In in Ht1.
    rewrite Ht1 in Hreg2. subst reg2.
    destruct (build_registry_max _ _ _ m1 _ _ Hx ltac:(lia)) as (m' & Hm' & Hle).
    rewrite foldM_app, Hx0. cbn [bind]. rewrite Hm'. cbn [bind].
    rewrite <- H. symmetry. apply merge_levels_max; [|exact Hle].
    apply (build_registry_gen _ _ _ _ _ Hm').
    apply (build_registry_gen _ _ _ _ _ Hx0). constructor.
Qed.

(** *** Order by level *)

Lemma level_configs_In (reg : odict entry) (k : string) (e : entry) :
  In (k, e) reg -> In (config e) (level_configs reg (level e)).
Proof.
  intros Hin. unfold level_configs. apply in_map_iff. exists (k, e).
  split; [reflexivity|]. apply filter_In. split; [exact Hin|].
  cbn. apply Nat.eqb_refl.
Qed.

Lemma Forall2_In_l {A B : Type} (R : A -> B -> Prop) (l : list A)
    (l' : list B) (x : A) :
  Forall2 R l l' -> In x l ->
  exists l1 l2 y l1' l2',
    l = l1 ++ x :: l2 /\ l' = l1' ++ y :: l2' /\ R x y /\
    Forall2 R l2 l2'.
Proof.
  intros HF Hin. destruct (in_split _ _ Hin) as (l1 & l2 & ->).
  apply Forall2_app_inv_l in HF. destruct HF as (l1' & r & _ & HF & ->).
  inversion HF as [|? y ? l2' Hxy HF2]; subst.
  exists l1, l2, y, l1', l2'. auto.
Qed.

(** An entry of a lower level comes before an entry of a higher level. *)
Lemma merge_level_order (trees : list (odict item)) (merged : list item)
    (reg : odict entry) (m : nat) (ka kb : string) (ea eb : entry) :
  merge_config_trees_to_list trees = Ok merged ->
  build_registry trees = Ok (reg, m) ->
  In (ka, ea) reg -> In (kb, eb) reg ->
  (level eb < level ea)%nat ->
  exists l1 l2 l3, merged = l1 ++ config eb :: l2 ++ config ea :: l3.
Proof.
  intros H Hreg Ha Hb Hlt.
  destruct (merge_inv _ _ H) as (reg' & m' & parts & Hreg' & Hall & Hparts & ->).
  rewrite Hreg in Hreg'. injection Hreg' as <- <-.
  assert (Hla : (level ea <= m)%nat).
  { apply (proj1 (Forall_forall _ _) Hall (ka, ea) Ha). }
  assert (Hinb : In (level eb) (seq 0 (m + 1))) by (apply in_seq; lia).
  destruct (Forall2_In_l _ _ _ _ Hparts Hinb)
    as (s1 & s2 & pb & P1 & P2 & Hseq & -> & Hpb & Hrest).
  assert (Hina : In (level ea) s2).
  { assert (Hin : In (level ea) (seq 0 (m + 1))) by (apply in_seq; lia).
    rewrite Hseq in Hin. apply in_app_or in Hin.
    destruct Hin as [Hin | [Heq | Hin]]; [|lia|exact Hin].
    exfalso.
    (* the levels before [level eb] in the sequence are below it *)
    assert (Hlow : forall x, In x s1 -> (x < level eb)%nat).
    { clear - Hseq. revert Hseq. generalize (m + 1)%nat as n.
      generalize 0%nat as start.
      induction s1 as [|a s1 IH]; intros start n Hseq x Hx; [destruct Hx|].
      destruct n as [|n]; [discriminate|]. cbn in Hseq.
      injection Hseq as <- Hseq.
      assert (Hge : (S start <= level eb)%nat).
      { assert (Hin' : In (level eb) (seq (S start) n)).
        { rewrite Hseq. apply in_or_app. right. left. reflexivity. }
        apply in_seq in Hin'. lia. }
      destruct Hx as [<- | Hx]; [lia|].
      apply (IH _ _ Hseq x Hx). }
    apply Hlow in Hin. lia. }
  destruct (Forall2_In_l _ _ _ _ Hrest Hina)
    as (t1 & t2 & pa & Q1 & Q2 & _ & -> & Hpa & _).
  pose proof (level_configs_In _ _ _ Hb) as Hcb.
  pose proof (level_configs_In _ _ _ Ha) as Hca.
  apply (Permutation_in _ (Permutation_sym Hpb)) in Hcb.
  apply (Permutation_in _ (Permutation_sym Hpa)) in Hca.
  destruct (in_split _ _ Hcb) as (b1 & b2 & ->).
  destruct (in_split _ _ Hca) as (a1 & a2 & ->).
  exists (List.concat P1 ++ b1), (b2 ++ List.concat Q1 ++ a1),
    (a2 ++ List.concat Q2).
  rewrite !concat_app. cbn [List.concat]. rewrite !concat_app.
  cbn [List.concat]. rewrite <- !app_assoc. cbn [app]. reflexivity.
Qed.

End MergeFacts.

(** ** Trees of a configuration and the order of the merged list *)

Section TreeFacts.

Variable set_order : list string -> list string.
Hypothesis set_order_perm : forall l, Permutation (set_order l) l.

Local Abbreviation find_item_dependencies :=
  (StorageConfig.find_item_dependencies set_order).
Local Abbreviation get_config_tree :=
  (StorageConfig.get_config_tree set_order).

Lemma iter_set_In (ks : list string) (k : string) :
  In k (iter_set set_order ks) <-> In k ks.
Proof.
  unfold iter_set. destruct ks as [|a [|b ks]]; try reflexivity.
  split; apply Permutation_in;
    [apply set_order_perm | apply Permutation_sym, set_order_perm].
Qed.

Lemma odict_set_In {V : Type} (d : odict V) (k k' : string) (v v' : V) :
  In (k', v') (odict_set d k v) -> (k', v') = (k, v) \/ In (k', v') d.
Proof.
  induction d as [|[k0 v0] d IH]; cbn.
  - intros [H | []]. left. symmetry. exact H.
  - destruct (String.eqb k0 k).
    + intros [H | H]; [left; symmetry; exact H | right; right; exact H].
    + intros [H | H]; [right; left; exact H|].
      destruct (IH H); [left | right; right]; assumption.
Qed.

Lemma extract_storage_ordered_dict_inv (scfg : list item)
    (sconfig : odict item) :
  extract_storage_ordered_dict scfg = Ok sconfig ->
  NoDup (map fst sconfig) /\
  (forall k, In k (map fst sconfig) <-> In k (map id scfg)) /\
  (forall k c, In (k, c) sconfig -> id c = k).
Proof.
  unfold extract_storage_ordered_dict.
  destruct scfg as [|c0 scfg0] eqn:E; [discriminate|]. rewrite <- E. clear E.
  intros [= <-].
  assert (H : forall d,
            NoDup (map fst d) -> (forall k c, In (k, c) d -> id c = k) ->
            let d' := fold_left (fun d cfg => odict_set d (id cfg) cfg) scfg d in
            NoDup (map fst d') /\
            (forall k, In k (map fst d') <->
                       In k (map fst d) \/ In k (map id scfg)) /\
            (forall k c, In (k, c) d' -> id c = k)).
  { induction scfg as [|cfg scfg IH]; intros d Hnd Hid; cbn.
    - repeat split; auto. intros [H | []]; exact H.
    - destruct (IH (odict_set d (id cfg) cfg)) as (Hnd' & Hk & Hid').
      + apply odict_set_NoDup, Hnd.
      + intros k c Hin. apply odict_set_In in Hin.
        destruct Hin as [[= -> ->] | Hin]; [reflexivity | apply (Hid _ _ Hin)].
      + split; [exact Hnd'|]. split; [|exact Hid'].
        intros k. rewrite Hk, odict_set_keys.
        destruct (odict_mem d (id cfg)) eqn:Em.
        * apply odict_mem_In in Em. split; [tauto|].
          intros [H | [<- | H]]; auto.
        * rewrite in_app_iff. cbn. tauto. }
  destruct (H [] ltac:(constructor) ltac:(intros k c [])) as (Hnd & Hk & Hid).
  split; [exact Hnd|]. split; [|exact Hid].
  intros k. rewrite Hk. cbn. tauto.
Qed.

Lemma tree_insert_inv (sconfig t t' : odict item) (dep : ref) :
  tree_insert sconfig t dep = Ok t' ->
  exists k cfg,
    dep = RStr k /\ odict_get sconfig k = Some cfg /\ t' = odict_set t k cfg.
Proof.
  unfold tree_insert, getitem. destruct dep as [k|n]; cbn.
  - destruct (odict_get sconfig k) as [cfg|] eqn:E; cbn; [|discriminate].
    intros [= <-]. exists k, cfg. auto.
  - discriminate.
Qed.

Lemma tree_build (sconfig : odict item) (deps : list ref)
    (t0 t : odict item) :
  foldM (tree_insert sconfig) deps t0 = Ok t ->
  (forall k, In k (map fst t) <-> In k (map fst t0) \/ In (RStr k) deps) /\
  (NoDup (map fst t0) -> NoDup (map fst t)) /\
  (forall k0 c0 rest0,
     t0 = (k0, c0) :: rest0 -> odict_get sconfig k0 = Some c0 ->
     exists rest, t = (k0, c0) :: rest).
Proof.
  induction deps as [|dep deps IH] in t0 |- *; cbn; intros H.
  - injection H as <-. split; [|split].
    + intros k. cbn. tauto.
    + auto.
    + intros k0 c0 rest0 -> _. eauto.
  - bind_inv H.
    destruct (tree_insert_inv _ _ _ _ Hx) as (k & cfg & -> & Hk & ->).
    destruct (IH _ H) as (Hkeys & Hnd & Hhd).
    split; [|split].
    + intros k'. rewrite Hkeys, odict_set_keys.
      destruct (odict_mem t0 k) eqn:Em.
      * apply odict_mem_In in Em. split; [tauto|].
        intros [H0 | [[= <-] | H0]]; auto.
      * rewrite in_app_iff. cbn. split.
        -- intros [[H0 | [<- | []]] | H0]; auto.
        -- intros [H0 | [[= <-] | H0]]; auto.
    + intros H0. apply Hnd, odict_set_NoDup, H0.
    + intros k0 c0 rest0 -> Hk0. cbn in Hhd.
      destruct (String.eqb k0 k) eqn:E.
      * apply String.eqb_eq in E. subst k0.
        rewrite Hk in Hk0. injection Hk0 as ->.
        apply (Hhd k c0 rest0 eq_refl Hk).
      * apply (Hhd k0 c0 _ eq_refl Hk0).
Qed.

Lemma get_config_tree_inv (depth : nat) (a : string) (scfg : list item)
    (t : odict item) :
  get_config_tree depth a scfg = Ok t ->
  exists sconfig root deps rest,
    extract_storage_ordered_dict scfg = Ok sconfig /\
    odict_get sconfig a = Some root /\
    find_item_dependencies depth (RStr a) sconfig true = Ok (Some deps) /\
    t = (a, root) :: rest /\
    NoDup (map fst t) /\
    (forall k, In k (map fst t) <-> k = a \/ In (RStr k) deps).
Proof.
  unfold StorageConfig.get_config_tree. intros H.
  bind_inv H. bind_inv H. bind_inv H.
  destruct x1 as [deps|]; [|discriminate].
  unfold getitem in Hx0. cbn in Hx0.
  destruct (odict_get x a) as [root|] eqn:Ha; [|discriminate].
  injection Hx0 as <-.
  destruct (tree_build _ _ _ _ H) as (Hkeys & Hnd & Hhd).
  destruct (Hhd a root [] eq_refl Ha) as [rest ->].
  exists x, root, deps, rest. repeat split; auto.
  - apply Hnd. cbn. constructor; [intros [] | constructor].
  - intros Hin. apply Hkeys in Hin. cbn in Hin.
    destruct Hin as [[H0 | []] | H0]; auto.
  - intros Hin. apply Hkeys. cbn. destruct Hin as [-> | Hin]; auto.
Qed.

Lemma _validate_dep_type_present (source_id dep_id : ref) (dep_key : string)
    (sconfig : odict item) (r : bool) :
  _validate_dep_type source_id dep_key dep_id sconfig = Ok r ->
  exists cfg, config_get sconfig dep_id = Some cfg.
Proof.
  unfold _validate_dep_type.
  destruct (config_get sconfig source_id); [|discriminate].
  destruct (config_get sconfig dep_id) as [cfg|]; [|discriminate].
  intros _. exists cfg. reflexivity.
Qed.

Section OneConfiguration.

Variable depth : nat.
Variable scfg : list item.
Variable sconfig : odict item.
Hypothesis Hextract : extract_storage_ordered_dict scfg = Ok sconfig.

(** A tree was built for every item of the configuration. *)
Hypothesis Htrees :
  forall k, In k (map fst sconfig) ->
            exists t, get_config_tree depth k scfg = Ok t.

Lemma direct_dep_tree_incl (a b : string) (ta tb : odict item) :
  direct_dep sconfig a b ->
  get_config_tree depth a scfg = Ok ta ->
  get_config_tree depth b scfg = Ok tb ->
  incl (map fst tb) (map fst ta).
Proof.
  intros (item_cfg & ks & dep_key & v & Hget & Hks & Hkey & Hv & Hb) Hta Htb.
  destruct (get_config_tree_inv _ _ _ _ Hta)
    as (sc & roota & depsa & resta & Hsc & _ & Hfa & _ & _ & Hka).
  rewrite Hextract in Hsc. injection Hsc as <-.
  destruct (get_config_tree_inv _ _ _ _ Htb)
    as (sc & rootb & depsb & restb & Hsc & _ & Hfb & _ & _ & Hkb).
  rewrite Hextract in Hsc. injection Hsc as <-.
  destruct depth as [|d]; [discriminate|].
  assert (Hkeys : StorageConfig._stype_to_deps set_order (type item_cfg)
                  = Ok (iter_set set_order ks)).
  { unfold StorageConfig._stype_to_deps. rewrite Hks. reflexivity. }
  destruct (find_item_dependencies_ref set_order d (RStr a) sconfig item_cfg
              depsa _ dep_key v (RStr b) Hfa Hget Hkeys
              (proj2 (iter_set_In ks dep_key) Hkey) Hv Hb)
    as (Hin & _ & lo & Hlo & Hincl).
  apply find_item_dependencies_S in Hlo.
  cbn [StorageConfig.find_item_dependencies] in Hfb, Hlo.
  rewrite Hfb in Hlo. injection Hlo as <-.
  specialize (Hincl depsb eq_refl).
  intros k Hk. apply Hka. right. apply Hkb in Hk.
  destruct Hk as [-> | Hk]; [exact Hin | apply Hincl, Hk].
Qed.

Lemma direct_dep_present (a b : string) (ta : odict item) :
  direct_dep sconfig a b ->
  get_config_tree depth a scfg = Ok ta ->
  In b (map fst sconfig).
Proof.
  intros (item_cfg & ks & dep_key & v & Hget & Hks & Hkey & Hv & Hb) Hta.
  destruct (get_config_tree_inv _ _ _ _ Hta)
    as (sc & roota & depsa & resta & Hsc & _ & Hfa & _ & _ & Hka).
  rewrite Hextract in Hsc. injection Hsc as <-.
  destruct depth as [|d]; [discriminate|].
  assert (Hkeys : StorageConfig._stype_to_deps set_order (type item_cfg)
                  = Ok (iter_set set_order ks)).
  { unfold StorageConfig._stype_to_deps. rewrite Hks. reflexivity. }
  destruct (find_item_dependencies_ref set_order d (RStr a) sconfig item_cfg
              depsa _ dep_key v (RStr b) Hfa Hget Hkeys
              (proj2 (iter_set_In ks dep_key) Hkey) Hv Hb)
    as (_ & Hval & _).
  apply _validate_dep_type_present in Hval. destruct Hval as [cfg Hcfg].
  cbn in Hcfg. apply odict_get_In in Hcfg.
  apply in_map_iff. exists (b, cfg). auto.
Qed.

(** The tree of an item holds the tree of every item it depends on. *)
Lemma depends_on_tree_incl (a b : string) (ta tb : odict item) :
  depends_on sconfig a b ->
  get_config_tree depth a scfg = Ok ta ->
  get_config_tree depth b scfg = Ok tb ->
  incl (map fst tb) (map fst ta).
Proof.
  intros Hdep. revert ta tb.
  induction Hdep as [a b Hab | a c b Hac Hcb IH]; intros ta tb Hta Htb.
  - apply (direct_dep_tree_incl a b); assumption.
  - destruct (Htrees c (direct_dep_present a c ta Hac Hta)) as [tc Htc].
    intros k Hk.
    apply (direct_dep_tree_incl a c ta tc Hac Hta Htc).
    apply (IH tc tb Htc Htb). exact Hk.
Qed.

(** ... so it is larger when the depended-on item's tree does not hold the
    item. *)
Lemma depends_on_tree_length (a b : string) (ta tb : odict item) :
  depends_on sconfig a b ->
  get_config_tree depth a scfg = Ok ta ->
  get_config_tree depth b scfg = Ok tb ->
  ~ In a (map fst tb) ->
  (List.length tb < List.length ta)%nat.
Proof.
  intros Hdep Hta Htb Hna.
  pose proof (depends_on_tree_incl a b ta tb Hdep Hta Htb) as Hincl.
  destruct (get_config_tree_inv _ _ _ _ Hta)
    as (sca & roota & depsa & resta & _ & _ & _ & _ & Hnda & Hka).
  destruct (get_config_tree_inv _ _ _ _ Htb)
    as (scb & rootb & depsb & restb & _ & _ & _ & _ & Hndb & _).
  assert (Hlen : (List.length (a :: map fst tb) <= List.length (map fst ta))%nat).
  { apply NoDup_incl_length.
    - constructor; assumption.
    - intros k [Heq | Hk]; [apply Hka; left; symmetry; exact Heq
                           | apply Hincl, Hk]. }
  cbn in Hlen. rewrite !length_map in Hlen. lia.
Qed.

End OneConfiguration.

Lemma Forall2_In_left {A B : Type} (R : A -> B -> Prop) (l : list A)
    (l' : list B) (x : A) :
  Forall2 R l l' -> In x l -> exists y, In y l' /\ R x y.
Proof.
  induction 1 as [|a b l l' Hab _ IH]; intros Hin; [destruct Hin|].
  destruct Hin as [<- | Hin].
  - exists b. split; [left; reflexivity | exact Hab].
  - destruct (IH Hin) as (y & Hy & Hxy). exists y. split; [right|]; assumption.
Qed.

Lemma Forall2_In_right {A B : Type} (R : A -> B -> Prop) (l : list A)
    (l' : list B) (y : B) :
  Forall2 R l l' -> In y l' -> exists x, In x l /\ R x y.
Proof.
  induction 1 as [|a b l l' Hab _ IH]; intros Hin; [destruct Hin|].
  destruct Hin as [<- | Hin].
  - exists a. split; [left; reflexivity | exact Hab].
  - destruct (IH Hin) as (x & Hx & Hxy). exists x. split; [right|]; assumption.
Qed.

Lemma build_registry_NoDup (trees : list (odict item))
    (reg0 reg : odict entry) (m0 m : nat) :
  foldM register_tree trees (reg0, m0) = Ok (reg, m) ->
  NoDup (map fst reg0) -> NoDup (map fst reg).
Proof.
  induction trees as [|tree trees IH] in reg0, m0 |- *; cbn [foldM]; intros H Hnd.
  - injection H as <- <-. exact Hnd.
  - bind_inv H. destruct x as [reg1 m1].
    destruct (register_tree_inv _ _ _ _ _ Hx) as (k & cfg & rest & _ & _ & ->).
    apply (IH _ _ H). destruct (odict_mem reg0 k) eqn:E; [exact Hnd|].
    rewrite map_app. cbn.
    apply NoDup_rev in Hnd. rewrite <- (rev_involutive (map fst reg0 ++ [k])).
    apply NoDup_rev. rewrite rev_app_distr. cbn. constructor; [|exact Hnd].
    rewrite <- in_rev. intros Hin. apply odict_mem_In in Hin. congruence.
Qed.

(** What the merge does give: when one tree is built per item of the
    configuration and the merge returns, the merged list holds every item of
    the configuration exactly once, and an item [b] that [a] reaches through
    dependency fields comes strictly before [a] when the tree of [b] does
    not hold [a].  When it does, the two trees can have the same size and the
    order is then by type name. *)
Theorem merge_order_of_smaller_tree
    (depth : nat) (scfg : list item) (sconfig : odict item)
    (trees : list (odict item)) (merged : list item) :
  extract_storage_ordered_dict scfg = Ok sconfig ->
  mapM (fun cfg => get_config_tree depth (id cfg) scfg) scfg = Ok trees ->
  merge_config_trees_to_list trees = Ok merged ->
  Permutation merged (map snd sconfig) /\
  NoDup (map id merged) /\
  forall a b cfg_a cfg_b tree_b,
    depends_on sconfig a b ->
    odict_get sconfig a = Some cfg_a ->
    odict_get sconfig b = Some cfg_b ->
    get_config_tree depth b scfg = Ok tree_b ->
    ~ In a (map fst tree_b) ->
    exists l1 l2 l3, merged = l1 ++ cfg_b :: l2 ++ cfg_a :: l3.
Proof.
  intros Hextract HmapM Hmerge.
  destruct (extract_storage_ordered_dict_inv _ _ Hextract)
    as (Hnd_sc & Hkeys_sc & Hid_sc).
  pose proof (mapM_ok_Forall2 _ _ _ HmapM) as HF2.
  (* a tree for every key, and every tree is the tree of its first key *)
  assert (Htree_of : forall k, In k (map fst sconfig) ->
            exists t, get_config_tree depth k scfg = Ok t /\ In t trees).
  { intros k Hk. apply Hkeys_sc in Hk. apply in_map_iff in Hk.
    destruct Hk as (cfg & <- & Hcfg).
    destruct (Forall2_In_left _ _ _ _ HF2 Hcfg) as (t & Ht & Hgt).
    exists t. auto. }
  assert (Htrees : forall k, In k (map fst sconfig) ->
            exists t, get_config_tree depth k scfg = Ok t).
  { intros k Hk. destruct (Htree_of k Hk) as (t & Ht & _). eauto. }
  assert (Htop : forall k cfg rest, In ((k, cfg) :: rest) trees ->
            get_config_tree depth k scfg = Ok ((k, cfg) :: rest) /\
            odict_get sconfig k = Some cfg).
  { intros k cfg rest Hin.
    destruct (Forall2_In_right _ _ _ _ HF2 Hin) as (c & _ & Hgt).
    destruct (get_config_tree_inv _ _ _ _ Hgt)
      as (sc & root & deps & rest' & Hsc & Hroot & _ & Heq & _).
    rewrite Hextract in Hsc. injection Hsc as <-.
    injection Heq as Hk Hc Hr. subst k cfg rest. auto. }
  pose proof Hmerge as Hm. unfold merge_config_trees_to_list in Hm.
  bind_inv Hm. destruct x as [reg m]. clear Hm.
  pose proof Hx as Hreg. unfold build_registry in Hx.
  destruct (build_registry_gen _ _ _ _ _ Hx) as (_ & _ & _ & Hfrom & Hin_reg & _).
  pose proof (build_registry_NoDup _ _ _ _ _ Hx ltac:(constructor)) as Hnd_reg.
  (* the registry entry of a key *)
  assert (Hentry : forall k t, get_config_tree depth k scfg = Ok t ->
            In t trees ->
            exists cfg, odict_get sconfig k = Some cfg /\
              In (k, {| level := List.length t; config := cfg |}) reg).
  { intros k t Hgt Ht.
    destruct (get_config_tree_inv _ _ _ _ Hgt)
      as (sc & root & deps & rest & Hsc & Hroot & _ & Heq & _).
    rewrite Hextract in Hsc. injection Hsc as <-. subst t.
    exists root. split; [exact Hroot|].
    pose proof (Hin_reg _ _ _ Ht) as Hk. apply in_map_iff in Hk.
    destruct Hk as ([k' e] & Hk' & He). cbn in Hk'. subst k'.
    destruct (Hfrom _ _ He) as [[] | (c & r & Hcr & ->)].
    destruct (Htop _ _ _ Hcr) as (Hgt' & Hc).
    rewrite Hgt in Hgt'. injection Hgt' as <- <-. exact He. }
  assert (Hperm : Permutation merged (map snd sconfig)).
  { rewrite (merge_perm_registry _ _ _ _ Hmerge Hreg).
    replace (map (fun p => config (snd p)) reg) with (map snd (reg_tops reg))
      by (unfold reg_tops; rewrite map_map; reflexivity).
    apply Permutation_map. apply NoDup_Permutation.
    - apply (NoDup_map_inv fst). rewrite reg_tops_keys. exact Hnd_reg.
    - apply (NoDup_map_inv fst). exact Hnd_sc.
    - intros [k c]. split.
      + intros Hin. unfold reg_tops in Hin. apply in_map_iff in Hin.
        destruct Hin as ([k' e] & [= -> <-] & He).
        destruct (Hfrom _ _ He) as [[] | (c & r & Hcr & ->)].
        destruct (Htop _ _ _ Hcr) as (_ & Hc). cbn.
        apply odict_get_In, Hc.
      + intros Hin.
        pose proof (odict_get_NoDup_In _ _ _ Hnd_sc Hin) as Hget.
        assert (Hk : In k (map fst sconfig)).
        { apply in_map_iff. exists (k, c). auto. }
        destruct (Htree_of k Hk) as (t & Hgt & Ht).
        destruct (Hentry k t Hgt Ht) as (cfg & Hcfg & He).
        rewrite Hget in Hcfg. injection Hcfg as <-.
        unfold reg_tops. apply in_map_iff.
        exists (k, {| level := List.length t; config := c |}). auto. }
  split; [exact Hperm|]. split.
  { apply (Permutation_NoDup (l := map id (map snd sconfig))).
    - apply Permutation_map, Permutation_sym, Hperm.
    - replace (map id (map snd sconfig)) with (map fst sconfig); [exact Hnd_sc|].
      rewrite map_map. apply map_ext_in. intros [k c] Hin. cbn.
      symmetry. apply Hid_sc, Hin. }
  intros a b cfg_a cfg_b tree_b Hdep Ha Hb Htb Hna.
  assert (Hka : In a (map fst sconfig)).
  { apply in_map_iff. exists (a, cfg_a). split; [reflexivity|].
    apply odict_get_In, Ha. }
  assert (Hkb : In b (map fst sconfig)).
  { apply in_map_iff. exists (b, cfg_b). split; [reflexivity|].
    apply odict_get_In, Hb. }
  destruct (Htree_of a Hka) as (ta & Hta & Hta_in).
  destruct (Htree_of b Hkb) as (tb & Htb' & Htb_in).
  rewrite Htb in Htb'. injection Htb' as <-.
  pose proof (depends_on_tree_length depth scfg sconfig Hextract Htrees
                a b ta tree_b Hdep Hta Htb Hna) as Hlen.
  destruct (Hentry a ta Hta Hta_in) as (ca & Hca & Hea).
  destruct (Hentry b tree_b Htb Htb_in) as (cb & Hcb & Heb).
  rewrite Ha in Hca. injection Hca as <-.
  rewrite Hb in Hcb. injection Hcb as <-.
  apply (merge_level_order trees merged reg m a b _ _ Hmerge Hreg Hea Heb).
  exact Hlen.
Qed.

End TreeFacts.

(** ** The resolver and the merge on concrete configurations *)

Section Examples.

Local Abbreviation fid := (find_item_dependencies written_order).
Local Abbreviation tree_of := (get_config_tree written_order).

Lemma written_order_perm (l : list string) : Permutation (written_order l) l.
Proof. reflexivity. Qed.

Example sda_extract : extract_storage_ordered_dict sda_config = Ok sda_sconfig.
Proof. reflexivity. Qed.

Example sda_trees_built :
  mapM (fun cfg => tree_of 1000 (id cfg) sda_config) sda_config = Ok sda_trees.
Proof. vm_compute. reflexivity. Qed.

Example sda_merged :
  merge_config_trees_to_list sda_trees = Ok [sda; sda1; sda2].
Proof. vm_compute. reflexivity. Qed.

Example sda1_dependencies :
  fid 1000 (RStr "sda1") sda_sconfig true
  = Ok (Some [RStr "sda"; RStr "sda1"; RStr "sda2"]).
Proof. vm_compute. reflexivity. Qed.

(** Without 'number' the partitions cannot be sorted: the tree of sda1 is
    not built. *)
Example sda_unnumbered_KeyError :
  tree_of 1000 "sda1" [sda; sda1_unnumbered; sda2_unnumbered] = Err KeyError.
Proof. vm_compute. reflexivity. Qed.

(** C8, as the code has it: the trees of sda, sda1 (number 1) and sda2
    (number 2) merge to [sda, sda1, sda2]; the registered level of an item is
    the number of entries of its tree, 1 for sda and 3 for each partition,
    whose tree holds the partition, the disk and the other partition. *)
Theorem C8_sda_order_and_levels (set_order : list string -> list string)
    (d : nat) :
  mapM (fun cfg => get_config_tree set_order (S (S d)) (id cfg) sda_config)
       sda_config = Ok sda_trees /\
  (exists reg m,
     build_registry sda_trees = Ok (reg, m) /\
     map (fun p => (fst p, level (snd p))) reg
     = [("sda", 1%nat); ("sda1", 3%nat); ("sda2", 3%nat)]) /\
  map (@List.length _) sda_trees = [1%nat; 3%nat; 3%nat] /\
  merge_config_trees_to_list sda_trees = Ok [sda; sda1; sda2].
Proof.
  split; [reflexivity|]. split.
  - eexists. eexists. split; reflexivity.
  - split; reflexivity.
Qed.

(** The registered levels are not 0, 1, 1. *)
Lemma C8_counterexample :
  mapM (fun cfg => tree_of 1000 (id cfg) sda_config) sda_config
    = Ok sda_trees /\
  exists reg m,
    build_registry sda_trees = Ok (reg, m) /\
    map (fun p => (fst p, level (snd p))) reg
    <> [("sda", 0%nat); ("sda1", 1%nat); ("sda2", 1%nat)].
Proof.
  split; [vm_compute; reflexivity|].
  eexists. eexists. split; [reflexivity|]. cbn. discriminate.
Qed.

Lemma C6_absent_item_returns_None_witness :
  fid 1000 (RStr "sdb") sda_sconfig true = Ok None.
Proof.
  apply (C6_absent_item_returns_None written_order 999 (RStr "sdb")
           sda_sconfig true).
  - discriminate.
  - reflexivity.
Defined.

(** For an id that is no key of the configuration nothing is raised. *)
Lemma C6_counterexample :
  sda_sconfig <> [] /\
  config_get sda_sconfig (RStr "sdb") = None /\
  fid 1000 (RStr "sdb") sda_sconfig true = Ok None /\
  ~ exists e, fid 1000 (RStr "sdb") sda_sconfig true = Err e.
Proof.
  split; [discriminate|]. split; [reflexivity|].
  assert (H : fid 1000 (RStr "sdb") sda_sconfig true = Ok None)
    by (vm_compute; reflexivity).
  split; [exact H|]. intros [e He]. rewrite H in He. discriminate.
Qed.

Lemma C4_siblings_emitted_sorted_witness :
  exists item_order sibs before after,
    _stype_to_order_key "partition" = Ok item_order /\
    [RStr "sda"; RStr "sda1"; RStr "sda2"]
      = before ++ map (fun sdep => RStr (id sdep)) sibs ++ after /\
    (forall k cfg, In (k, cfg) sda_sconfig ->
       value_is_ref (item_get cfg "device") (RStr "sda") = true ->
       In cfg sibs) /\
    (forall cfg, In cfg sibs ->
       exists k, In (k, cfg) sda_sconfig /\
                 In k (_find_same_dep "device" (RStr "sda") sda_sconfig)) /\
    Sorted (ordered_by item_order) sibs.
Proof.
  apply (C4_siblings_emitted_sorted written_order 999 (RStr "sda1")
           sda_sconfig true sda1 [RStr "sda"; RStr "sda1"; RStr "sda2"]
           ["device"] "device" (VStr "sda") (RStr "sda")).
  - vm_compute. reflexivity.
  - reflexivity.
  - reflexivity.
  - left. reflexivity.
  - reflexivity.
  - left. reflexivity.
Defined.

(** The siblings on the disk sda come out by 'number', the order key of
    the partition being resolved, not by 'id', the order key of the disk
    they name. *)
Lemma C4_counterexample :
  fid 1000 (RStr "sda1") swapped_sconfig true
    = Ok (Some ([RStr "sda"]
                ++ map (fun sdep => RStr (id sdep)) [sda2_first; sda1_second]))
  /\
  (exists target,
     config_get swapped_sconfig (RStr "sda") = Some target /\
     _stype_to_order_key (type target) = Ok "id") /\
  ~ Sorted (ordered_by "id") [sda2_first; sda1_second].
Proof.
  split; [vm_compute; reflexivity|]. split.
  - exists sda. split; reflexivity.
  - intros Hs. inversion Hs as [|? ? _ Hhd]; subst.
    inversion Hhd as [|? ? (ka & kb & Ha & Hb & Hlt)]; subst.
    cbn in Ha, Hb. injection Ha as <-. injection Hb as <-.
    vm_compute in Hlt. discriminate.
Qed.

Lemma C9_merge_outputs_first_keys_witness :
  Permutation [sda; sda1; sda2]
              (map snd (first_tops (sda_trees ++ [[("sda1", sda1)]]))) /\
  merge_config_trees_to_list (sda_trees ++ []) = Ok [sda; sda1; sda2].
Proof.
  destruct (C9_merge_outputs_first_keys (sda_trees ++ [[("sda1", sda1)]])
              [sda; sda1; sda2]) as (Hperm & _ & Hdrop).
  - vm_compute. reflexivity.
  - split; [exact Hperm|].
    apply (Hdrop sda_trees [] [("sda1", sda1)]
             [("sda1", sda1); ("sda", sda); ("sda2", sda2)]).
    + reflexivity.
    + right. left. reflexivity.
    + reflexivity.
Defined.

Lemma sda1_depends_on_sda : depends_on sda_sconfig "sda1" "sda".
Proof.
  apply depends_direct.
  exists sda1, ["device"], "device", (VStr "sda").
  repeat split; try reflexivity; left; reflexivity.
Qed.

Lemma merge_order_of_smaller_tree_sda :
  Permutation [sda; sda1; sda2] (map snd sda_sconfig) /\
  NoDup (map id [sda; sda1; sda2]) /\
  exists l1 l2 l3, [sda; sda1; sda2] = l1 ++ sda :: l2 ++ sda1 :: l3.
Proof.
  destruct (merge_order_of_smaller_tree written_order written_order_perm
              1000 sda_config sda_sconfig sda_trees [sda; sda1; sda2])
    as (Hperm & Hnd & Horder).
  - reflexivity.
  - vm_compute. reflexivity.
  - vm_compute. reflexivity.
  - split; [exact Hperm|]. split; [exact Hnd|].
    apply (Horder "sda1" "sda" sda1 sda [("sda", sda)]).
    + exact sda1_depends_on_sda.
    + reflexivity.
    + reflexivity.
    + vm_compute. reflexivity.
    + cbn. intros [H | []]. discriminate.
Defined.

(** sda2 is among what find_item_dependencies returns for sda1, and sda1 is
    among what it returns for sda1 itself; neither comes before sda1 in the
    merged list. *)
Lemma siblings_not_listed_before :
  mapM (fun cfg => tree_of 1000 (id cfg) sda_config) sda_config
    = Ok sda_trees /\
  merge_config_trees_to_list sda_trees = Ok [sda; sda1; sda2] /\
  (exists deps,
     fid 1000 (RStr "sda1") sda_sconfig true = Ok (Some deps) /\
     In (RStr "sda2") deps /\ In (RStr "sda1") deps) /\
  ~ (exists l1 l2 l3, [sda; sda1; sda2] = l1 ++ sda2 :: l2 ++ sda1 :: l3) /\
  ~ (exists l1 l2 l3, [sda; sda1; sda2] = l1 ++ sda1 :: l2 ++ sda1 :: l3).
Proof.
  split; [vm_compute; reflexivity|].
  split; [vm_compute; reflexivity|].
  split.
  { exists [RStr "sda"; RStr "sda1"; RStr "sda2"].
    split; [vm_compute; reflexivity|]. cbn. auto. }
  split; intros (l1 & l2 & l3 & H);
    destruct l1 as [|x1 [|x2 [|x3 [|x4 l1]]]]; cbn in H;
      try discriminate H;
      injection H as H; subst;
      repeat match goal with
             | H : _ = ?l ++ _ :: _ |- _ =>
                 destruct l as [|? ?]; cbn in H; try discriminate H;
                 injection H as H
             | H : _ :: _ = _ :: _ |- _ => injection H as H
             | H : sda1 = sda2 |- _ => discriminate H
             | H : sda = sda2 |- _ => discriminate H
             | H : sda = sda1 |- _ => discriminate H
             | H : sda2 = sda1 |- _ => discriminate H
             | H : [] = _ ++ _ :: _ |- _ => destruct (app_cons_not_nil _ _ _ H)
             | H : [] = _ :: _ |- _ => discriminate H
             end.
Qed.

(** The side condition of the order is needed: bcache1 is cached on bcache0,
    each is in the other's tree (both sit on sdb), the trees have the same
    size, and bcache1 comes first in the merged list. *)
Example bcache_dependent_first :
  exists sconfig trees,
    extract_storage_ordered_dict bcache_config = Ok sconfig /\
    mapM (fun cfg => tree_of 1000 (id cfg) bcache_config) bcache_config
      = Ok trees /\
    direct_dep sconfig "bcache1" "bcache0" /\
    map (@List.length _) trees = [1%nat; 1%nat; 4%nat; 4%nat] /\
    merge_config_trees_to_list trees = Ok [sdb; sdc; bcache1; bcache0].
Proof.
  eexists. eexists. split; [reflexivity|].
  split; [vm_compute; reflexivity|].
  split.
  - exists bcache1, ["backing_device"; "cache_device"], "cache_device",
      (VStr "bcache0").
    repeat split; try reflexivity; cbn; auto.
  - split; vm_compute; reflexivity.
Qed.

(** C1: a composed device listed before the device it is built on.  On the
    disks sdb and sdc, the bcache bc0 (on sdb, cached by sdc), the partition
    bp of bc0 and the bcache bc1 (on bp, cached by sdc), every reference
    passes validation and bp is among what find_item_dependencies returns
    for bc1; yet the merged list has bc1 before bp.  bc1 shares its cache
    device with bc0, so it is a sibling in the tree of bp: both trees have
    five entries, and within a level the order is by type name.  The same
    list comes out in either iteration order of the dependency keys. *)
Theorem C1_dependent_listed_first :
  extract_storage_ordered_dict stacked_config = Ok stacked_sconfig /\
  direct_dep stacked_sconfig "bc1" "bp" /\
  (exists deps,
     fid 1000 (RStr "bc1") stacked_sconfig true = Ok (Some deps) /\
     In (RStr "bp") deps) /\
  (forall set_order,
     set_order = written_order \/ set_order = reversed_order ->
     exists trees,
       mapM (fun cfg => get_config_tree set_order 1000 (id cfg) stacked_config)
            stacked_config = Ok trees /\
       map (@List.length _) trees = [1%nat; 1%nat; 4%nat; 5%nat; 5%nat] /\
       merge_config_trees_to_list trees = Ok [sdb; sdc; bc0; bc1; bp]) /\
  NoDup (map id [sdb; sdc; bc0; bc1; bp]) /\
  [sdb; sdc; bc0; bc1; bp] = [sdb; sdc; bc0] ++ bc1 :: [] ++ bp :: [].
Proof.
  split; [reflexivity|]. split.
  { exists bc1, ["backing_device"; "cache_device"], "backing_device",
      (VStr "bp").
    repeat split; try reflexivity; cbn; auto. }
  split.
  { eexists. split; [vm_compute; reflexivity|]. cbn. auto. }
  split.
  { intros set_order [-> | ->]; eexists;
      (split; [vm_compute; reflexivity|]); split; vm_compute; reflexivity. }
  split; [|reflexivity].
  repeat (constructor; [cbn; intuition discriminate|]). constructor.
Qed.

End Examples.

End StorageConfigFacts.

(** * More on the partition-table layout *)

Module BlockMetaMore.
Import BlockMeta BlockMetaFacts.

(** ** align_down and align_up *)

Lemma align_down_pow2 (x k : Z) :
  0 <= k -> align_down x (2 ^ k) = (x / 2 ^ k) * 2 ^ k.
Proof. intros Hk. unfold align_down. apply land_lnot_pow2, Hk. Qed.

Lemma align_down_multiple (x k : Z) :
  0 <= k -> (2 ^ k | align_down x (2 ^ k)).
Proof.
  intros Hk. rewrite align_down_pow2 by exact Hk.
  exists (x / 2 ^ k). reflexivity.
Qed.

Lemma align_down_le (x k : Z) : 0 <= k -> align_down x (2 ^ k) <= x.
Proof.
  intros Hk. rewrite align_down_pow2 by exact Hk.
  assert (Hb : 0 < 2 ^ k) by (apply Z.pow_pos_nonneg; lia).
  pose proof (Z.div_mod x (2 ^ k) ltac:(lia)) as Hdm.
  pose proof (Z.mod_pos_bound x (2 ^ k) Hb) as Hm.
  nia.
Qed.

Lemma align_down_greatest (x k m : Z) :
  0 <= k -> (2 ^ k | m) -> m <= x -> m <= align_down x (2 ^ k).
Proof.
  intros Hk [q ->] Hle. rewrite align_down_pow2 by exact Hk.
  assert (Hb : 0 < 2 ^ k) by (apply Z.pow_pos_nonneg; lia).
  apply Z.mul_le_mono_nonneg_r; [lia|].
  apply Z.div_le_lower_bound; [exact Hb | lia].
Qed.

(** X1: when the block size is a power of two, align_down(x, b) is the
    greatest multiple of b that is at most x. *)
Theorem X1_align_down_greatest_multiple (x k : Z) :
  0 <= k ->
  (2 ^ k | align_down x (2 ^ k)) /\
  align_down x (2 ^ k) <= x /\
  forall m, (2 ^ k | m) -> m <= x -> m <= align_down x (2 ^ k).
Proof.
  intros Hk. split; [apply align_down_multiple, Hk|].
  split; [apply align_down_le, Hk|].
  intros m Hm Hle. apply align_down_greatest; assumption.
Qed.

Lemma X1_align_down_greatest_multiple_witness :
  (2 ^ 11 | align_down 5000 (2 ^ 11)) /\
  align_down 5000 (2 ^ 11) <= 5000 /\
  forall m, (2 ^ 11 | m) -> m <= 5000 -> m <= align_down 5000 (2 ^ 11).
Proof. apply (X1_align_down_greatest_multiple 5000 11). lia. Defined.

(** X2: when the block size b is a power of two, align_up and align_down
    leave exactly the multiples of b where they are, align_up moves every
    other x to align_down(x, b) + b, and rounding up twice is rounding up
    once. *)
Theorem X2_align_up_and_align_down (x k : Z) :
  0 <= k ->
  (align_up x (2 ^ k) = x <-> (2 ^ k | x)) /\
  (align_down x (2 ^ k) = x <-> (2 ^ k | x)) /\
  (~ (2 ^ k | x) -> align_up x (2 ^ k) = align_down x (2 ^ k) + 2 ^ k) /\
  align_up (align_up x (2 ^ k)) (2 ^ k) = align_up x (2 ^ k).
Proof.
  intros Hk.
  assert (Hb : 0 < 2 ^ k) by (apply Z.pow_pos_nonneg; lia).
  split; [|split; [|split]].
  - split.
    + intros <-. apply align_up_multiple, Hk.
    + apply align_up_aligned, Hk.
  - split.
    + intros <-. apply align_down_multiple, Hk.
    + intros Hx. apply Z.le_antisymm; [apply align_down_le, Hk|].
      apply align_down_greatest; [exact Hk | exact Hx | lia].
  - intros Hn.
    rewrite align_up_pow2, align_down_pow2 by exact Hk.
    pose proof (Z.div_mod x (2 ^ k) ltac:(lia)) as Hdm.
    pose proof (Z.mod_pos_bound x (2 ^ k) Hb) as Hm.
    assert (Hr : x mod 2 ^ k <> 0).
    { intros Hr. apply Hn. apply Z.mod_divide; [lia | exact Hr]. }
    assert (Hq : (x + 2 ^ k - 1) / 2 ^ k = x / 2 ^ k + 1).
    { symmetry. apply (Z.div_unique _ _ _ (x mod 2 ^ k - 1)); lia. }
    rewrite Hq. lia.
  - apply align_up_aligned; [exact Hk | apply align_up_multiple, Hk].
Qed.

Lemma X2_align_up_and_align_down_witness :
  (align_up 5000 (2 ^ 11) = 5000 <-> (2 ^ 11 | 5000)) /\
  (align_down 5000 (2 ^ 11) = 5000 <-> (2 ^ 11 | 5000)) /\
  (~ (2 ^ 11 | 5000) ->
   align_up 5000 (2 ^ 11) = align_down 5000 (2 ^ 11) + 2 ^ 11) /\
  align_up (align_up 5000 (2 ^ 11)) (2 ^ 11) = align_up 5000 (2 ^ 11).
Proof. apply (X2_align_up_and_align_down 5000 11). lia. Defined.

(** ** The constructor and the unit conversions *)

(** X3: SFDiskPartTable(sector_bytes) returns a table exactly when
    sector_bytes divides 1 MiB (0 does not); the table is then empty and
    one_mib_sectors sectors are exactly 1 MiB. *)
Theorem X3_constructor_accepts_divisors (sector_bytes : Z) :
  ((exists t, new_SFDiskPartTable sector_bytes = Ok t) <->
   (sector_bytes | ONE_MIB_BYTES)) /\
  (forall t, new_SFDiskPartTable sector_bytes = Ok t ->
     entries t = [] /\
     sectors2bytes t (one_mib_sectors t) = ONE_MIB_BYTES).
Proof.
  split.
  - split.
    + intros [t Ht]. apply (new_SFDiskPartTable_inv _ _ Ht).
    + intros Hdiv. unfold new_SFDiskPartTable.
      destruct (Z.eqb_spec sector_bytes 0) as [->|Hnz].
      * destruct Hdiv as [q Hq]. rewrite Z.mul_0_r in Hq. discriminate Hq.
      * apply Z.mod_divide in Hdiv; [|exact Hnz]. rewrite Hdiv. cbn.
        eexists. reflexivity.
  - intros t Ht.
    destruct (new_SFDiskPartTable_inv _ _ Ht) as (Hnz & Hdiv & Hes & Hsb & Hb).
    split; [exact Hes|].
    unfold sectors2bytes. rewrite Hb, Hsb.
    destruct Hdiv as [q Hq]. rewrite Hq, Z.div_mul by exact Hnz. reflexivity.
Qed.

Section Conversions.
Context {amount : Type} (human2bytes : amount -> Z).

(** X4: on a table with a positive sector size, bytes2sectors rounds down
    to whole sectors: converting back gives at most the bytes asked for and
    less than one sector below them, and exactly the bytes asked for when
    they are a whole number of sectors. *)
Theorem X4_bytes2sectors_rounds_down (t : SFDiskPartTable) (a : amount) :
  0 < _sector_bytes t ->
  let back := sectors2bytes t (bytes2sectors human2bytes t a) in
  back <= human2bytes a < back + _sector_bytes t /\
  (back = human2bytes a <-> (_sector_bytes t | human2bytes a)).
Proof.
  intros Hpos back. subst back. unfold sectors2bytes, bytes2sectors.
  pose proof (Z.div_mod (human2bytes a) (_sector_bytes t) ltac:(lia)) as Hdm.
  pose proof (Z.mod_pos_bound (human2bytes a) (_sector_bytes t) Hpos) as Hm.
  split; [nia|]. split.
  - intros Heq. exists (human2bytes a / _sector_bytes t). lia.
  - intros Hdiv. apply Z.mod_divide in Hdiv; [|lia]. nia.
Qed.

End Conversions.

Lemma X4_bytes2sectors_rounds_down_witness :
  let back := sectors2bytes gpt_table_512
                (bytes2sectors bytes_id gpt_table_512 1000000) in
  back <= bytes_id 1000000 < back + 512 /\
  (back = bytes_id 1000000 <-> (512 | bytes_id 1000000)).
Proof.
  apply (X4_bytes2sectors_rounds_down bytes_id gpt_table_512 1000000).
  reflexivity.
Defined.

(** ** What one call of add does to a table *)

Section Tables.
Context {amount : Type} (human2bytes : amount -> Z).

Lemma GPTPartTable_add_cases (t : SFDiskPartTable) (a : action amount) :
  match GPTPartTable_add human2bytes t a with
  | (t', Ok e) =>
      t' = append_entry t e /\
      number e = default_number t a /\
      size_of_action human2bytes t a = Ok (size e)
  | (t', Err _) => t' = t
  end.
Proof.
  unfold GPTPartTable_add.
  destruct (size_of_action human2bytes t a) as [z|e]; cbn; auto.
Qed.

Lemma DOSPartTable_add_cases (t : DOSPartTable) (a : action amount) :
  match DOSPartTable_add human2bytes t a with
  | (t', Ok e) =>
      DOSPartTable_place human2bytes t a = Ok (number e, start e) /\
      size_of_action human2bytes (sfdisk t) a = Ok (size e) /\
      type e = flag_lookup FLAG_TO_MBR_TYPE (action_flag a) /\
      t' = {| sfdisk := append_entry (sfdisk t) e;
              _extended := if flag_is a "extended" then Some e
                           else _extended t |}
  | (t', Err _) => t' = t
  end.
Proof.
  unfold DOSPartTable_add.
  destruct (DOSPartTable_place human2bytes t a) as [[n s]|e]; [|reflexivity].
  destruct (size_of_action human2bytes (sfdisk t) a) as [z|e]; cbn; auto.
Qed.

(** The last entry a predicate holds of. *)
Lemma find_hd_filter {A : Type} (p : A -> bool) (l : list A) :
  find p l = hd_error (filter p l).
Proof.
  induction l as [|x l IH]; cbn; [reflexivity|].
  destruct (p x); [reflexivity | exact IH].
Qed.

Lemma filter_rev' {A : Type} (p : A -> bool) (l : list A) :
  filter p (rev l) = rev (filter p l).
Proof.
  induction l as [|x l IH]; cbn; [reflexivity|].
  rewrite filter_app, IH. cbn. destruct (p x); cbn.
  - reflexivity.
  - rewrite app_nil_r. reflexivity.
Qed.

Lemma last_logical_filter (es : list PartTableEntry) :
  last_logical es = last_entry (filter (fun e => 4 <? number e) es).
Proof.
  unfold last_logical, last_entry. rewrite find_hd_filter, filter_rev'.
  reflexivity.
Qed.

Lemma last_primary_filter (es : list PartTableEntry) :
  last_primary es = last_entry (filter (fun e => number e <=? 4) es).
Proof.
  unfold last_primary, last_entry.
  induction es as [|e es IH] using rev_ind; [reflexivity|].
  rewrite fold_left_app, filter_app. cbn [fold_left filter].
  destruct (number e <=? 4).
  - rewrite rev_app_distr. reflexivity.
  - rewrite app_nil_r. exact IH.
Qed.

Lemma last_entry_snoc (es : list PartTableEntry) (e : PartTableEntry) :
  last_entry (es ++ [e]) = Some e.
Proof. unfold last_entry. rewrite rev_app_distr. reflexivity. Qed.

Lemma last_entry_Some (es : list PartTableEntry) (e : PartTableEntry) :
  last_entry es = Some e -> exists es', es = es' ++ [e].
Proof.
  unfold last_entry. destruct es as [|x es] using rev_ind; [discriminate|].
  rewrite rev_app_distr. cbn. intros [= ->]. eauto.
Qed.

Lemma last_entry_None (es : list PartTableEntry) :
  last_entry es = None -> es = [].
Proof.
  unfold last_entry. destruct es as [|x es] using rev_ind; [reflexivity|].
  rewrite rev_app_distr. discriminate.
Qed.

(** The number and the start of a logical partition. *)
Lemma DOSPartTable_place_logical (t : DOSPartTable) (a : action amount)
    (n s : Z) :
  flag_is a "logical" = true ->
  DOSPartTable_place human2bytes t a = Ok (n, s) ->
  exists ext,
    _extended t = Some ext /\
    let logicals := filter (fun e => 4 <? number e) (entries (sfdisk t)) in
    let b := one_mib_sectors (sfdisk t) in
    match last_entry logicals with
    | None =>
        n = 5 /\
        (action_offset a = None -> s = align_up (start ext + b) b)
    | Some prev =>
        n = number prev + 1 /\
        (action_offset a = None ->
         s = align_up (start prev + size prev + b) b)
    end.
Proof.
  intros Hflag. unfold DOSPartTable_place. rewrite Hflag.
  destruct (_extended t) as [ext|]; [|discriminate].
  rewrite last_logical_filter. intros H. exists ext. split; [reflexivity|].
  cbn zeta.
  destruct (last_entry (filter (fun e => 4 <? number e) (entries (sfdisk t))));
    injection H as <- <-; (split; [reflexivity|]); intros ->; reflexivity.
Qed.

(** The number and the start of any other partition. *)
Lemma DOSPartTable_place_primary (t : DOSPartTable) (a : action amount)
    (n s : Z) :
  flag_is a "logical" = false ->
  DOSPartTable_place human2bytes t a = Ok (n, s) ->
  n = default_number (sfdisk t) a /\ n <= 4 /\
  let primaries := filter (fun e => number e <=? 4) (entries (sfdisk t)) in
  let b := one_mib_sectors (sfdisk t) in
  (action_offset a = None ->
   s = match last_entry primaries with
       | None => b
       | Some prev => align_up (start prev + size prev) b
       end).
Proof.
  intros Hflag. unfold DOSPartTable_place. rewrite Hflag.
  destruct (4 <? default_number (sfdisk t) a) eqn:Hn; [discriminate|].
  apply Z.ltb_ge in Hn. rewrite last_primary_filter.
  intros [= <- <-]. split; [reflexivity|]. split; [exact Hn|].
  cbn zeta. intros ->. reflexivity.
Qed.

Lemma GPTPartTable_add_each_cons (t : SFDiskPartTable) (a : action amount)
    (acts : list (action amount)) :
  GPTPartTable_add_each human2bytes t (a :: acts)
  = GPTPartTable_add_each human2bytes
      (fst (GPTPartTable_add human2bytes t a)) acts.
Proof. reflexivity. Qed.

Lemma DOSPartTable_add_each_cons (t : DOSPartTable) (a : action amount)
    (acts : list (action amount)) :
  DOSPartTable_add_each human2bytes t (a :: acts)
  = DOSPartTable_add_each human2bytes
      (fst (DOSPartTable_add human2bytes t a)) acts.
Proof. reflexivity. Qed.

Lemma find_snoc {A : Type} (p : A -> bool) (l : list A) (x : A) :
  find p (l ++ [x])
  = match find p l with
    | Some y => Some y
    | None => if p x then Some x else None
    end.
Proof.
  induction l as [|y l IH]; cbn; [reflexivity|].
  destruct (p y); [reflexivity | exact IH].
Qed.

Lemma dict_get_pair_In {V : Type} (d : list (string * V)) (k : string)
    (v : V) :
  dict_get d k = Some v -> In (k, v) d.
Proof.
  induction d as [|[k' v'] d IH]; cbn; [discriminate|].
  destruct (dict_get d k) as [w|].
  - intros [= ->]. right. apply IH. reflexivity.
  - destruct (String.eqb_spec k' k) as [->|]; [|discriminate].
    intros [= ->]. left. reflexivity.
Qed.

(** Only the flag 'extended' has the type code '05'. *)
Lemma extended_type_of_flag (a : action amount) (e : PartTableEntry) :
  type e = flag_lookup FLAG_TO_MBR_TYPE (action_flag a) ->
  has_extended_type e = flag_is a "extended".
Proof.
  unfold has_extended_type, flag_is, flag_lookup. intros ->.
  destruct (action_flag a) as [f|]; [|reflexivity].
  destruct (String.eqb_spec f "extended") as [-> | Hne]; [reflexivity|].
  destruct (dict_get FLAG_TO_MBR_TYPE f) as [ty|] eqn:E; [|reflexivity].
  apply dict_get_pair_In in E. cbn in E.
  repeat (destruct E as [[= <- <-] | E]; [reflexivity|]).
  destruct E as [[= Hf _] | []]. symmetry in Hf. contradiction.
Qed.

(** X5: after any calls of add on a table, one per action, the entries of
    the table are the entries it had followed by exactly the entries the
    calls returned, in the order of the calls: a call that raises adds
    nothing and changes nothing.  The sector size and one_mib_sectors never
    change, and the extended entry a DOS table remembers is the last
    returned entry with the type code '05', or the one it remembered before
    when no such entry was returned. *)
Theorem X5_add_only_appends
    (acts : list (action amount)) (g : SFDiskPartTable) (d : DOSPartTable) :
  (let g' := GPTPartTable_add_each human2bytes g acts in
   entries g' = entries g ++ GPTPartTable_add_returns human2bytes g acts /\
   _sector_bytes g' = _sector_bytes g /\
   one_mib_sectors g' = one_mib_sectors g) /\
  (let d' := DOSPartTable_add_each human2bytes d acts in
   entries (sfdisk d')
   = entries (sfdisk d) ++ DOSPartTable_add_returns human2bytes d acts /\
   _sector_bytes (sfdisk d') = _sector_bytes (sfdisk d) /\
   one_mib_sectors (sfdisk d') = one_mib_sectors (sfdisk d) /\
   _extended d'
   = match find has_extended_type
                (rev (DOSPartTable_add_returns human2bytes d acts)) with
     | Some e => Some e
     | None => _extended d
     end) /\
  (forall a err,
     (snd (GPTPartTable_add human2bytes g a) = Err err ->
      fst (GPTPartTable_add human2bytes g a) = g) /\
     (snd (DOSPartTable_add human2bytes d a) = Err err ->
      fst (DOSPartTable_add human2bytes d a) = d)).
Proof.
  split; [|split].
  - cbn zeta. induction acts as [|a acts IH] in g |- *.
    + cbn. rewrite app_nil_r. auto.
    + rewrite GPTPartTable_add_each_cons.
      cbn [GPTPartTable_add_returns].
      destruct (IH (fst (GPTPartTable_add human2bytes g a)))
        as (He & Hsb & Hmib).
      rewrite He, Hsb, Hmib.
      pose proof (GPTPartTable_add_cases g a) as Hc.
      destruct (GPTPartTable_add human2bytes g a) as [g' [e|err]];
        cbn [fst snd returned] in *.
      * destruct Hc as (-> & _). cbn [entries append_entry _sector_bytes
                                      one_mib_sectors].
        rewrite <- app_assoc. auto.
      * subst g'. auto.
  - cbn zeta. induction acts as [|a acts IH] in d |- *.
    + cbn. rewrite app_nil_r. auto.
    + rewrite DOSPartTable_add_each_cons.
      cbn [DOSPartTable_add_returns].
      destruct (IH (fst (DOSPartTable_add human2bytes d a)))
        as (He & Hsb & Hmib & Hext).
      rewrite He, Hsb, Hmib, Hext.
      pose proof (DOSPartTable_add_cases d a) as Hc.
      destruct (DOSPartTable_add human2bytes d a) as [d' [e|err]];
        cbn [fst snd returned] in *.
      * destruct Hc as (_ & _ & Hty & ->).
        cbn [entries append_entry _sector_bytes one_mib_sectors sfdisk
             _extended].
        rewrite <- app_assoc. repeat split.
        cbn [app rev]. rewrite find_snoc.
        rewrite (extended_type_of_flag a e Hty).
        destruct (find has_extended_type
                    (rev (DOSPartTable_add_returns human2bytes _ acts)));
          [reflexivity|].
        destruct (flag_is a "extended"); reflexivity.
      * subst d'. auto.
  - intros a err. split; intros H.
    + pose proof (GPTPartTable_add_cases g a) as Hc.
      destruct (GPTPartTable_add human2bytes g a) as [g' [e|err']];
        [discriminate | exact Hc].
    + pose proof (DOSPartTable_add_cases d a) as Hc.
      destruct (DOSPartTable_add human2bytes d a) as [d' [e|err']];
        [discriminate | exact Hc].
Qed.

(** X6: DOSPartTable.add of an action that is not flagged 'logical' and
    whose number, given or defaulting to the number of entries plus one, is
    above 4 raises the too-many-primaries exception and leaves the table as
    it was; a table of four or more entries takes no further unnumbered
    primary. *)
Theorem X6_primary_number_above_four (t : DOSPartTable) (a : action amount) :
  action_flag a <> Some "logical" ->
  (exists n, action_number a = Some n /\ 4 < n) \/
  (action_number a = None /\ (4 <= List.length (entries (sfdisk t)))%nat) ->
  DOSPartTable_add human2bytes t a
  = (t, Err (TooManyPrimaries (default_number (sfdisk t) a))).
Proof.
  intros Hflag Hnum. apply flag_is_false in Hflag.
  unfold DOSPartTable_add, DOSPartTable_place. rewrite Hflag.
  assert (Hn : (4 <? default_number (sfdisk t) a) = true).
  { apply Z.ltb_lt. unfold default_number.
    destruct Hnum as [(n & -> & Hn) | (-> & Hlen)]; lia. }
  rewrite Hn. reflexivity.
Qed.

(** X7: an entry DOSPartTable.add returns has a number above 4 exactly when
    the action is flagged 'logical'. *)
Theorem X7_number_above_four_iff_logical
    (t t' : DOSPartTable) (a : action amount) (e : PartTableEntry) :
  DOSPartTable_add human2bytes t a = (t', Ok e) ->
  (4 < number e <-> action_flag a = Some "logical").
Proof.
  intros Hadd. pose proof (DOSPartTable_add_cases t a) as Hc.
  rewrite Hadd in Hc. destruct Hc as (Hplace & _).
  rewrite <- flag_is_true.
  destruct (flag_is a "logical") eqn:Hflag.
  - destruct (DOSPartTable_place_logical t a _ _ Hflag Hplace)
      as (ext & _ & Hcase). cbn zeta in Hcase.
    split; [reflexivity|]. intros _.
    destruct (last_entry _) as [prev|] eqn:Hlast.
    + destruct Hcase as [-> _].
      apply last_entry_Some in Hlast. destruct Hlast as [es' Hes'].
      assert (Hin : In prev (filter (fun e => 4 <? number e)
                               (entries (sfdisk t)))).
      { rewrite Hes'. apply in_or_app. right. left. reflexivity. }
      apply filter_In in Hin. destruct Hin as [_ Hp].
      apply Z.ltb_lt in Hp. lia.
    + destruct Hcase as [-> _]. lia.
  - destruct (DOSPartTable_place_primary t a _ _ Hflag Hplace) as (_ & Hle & _).
    split; [lia | discriminate].
Qed.

(** ** Invariants of a DOS table over any calls of add *)

Lemma DOSPartTable_add_number (t t' : DOSPartTable) (a : action amount)
    (e : PartTableEntry) :
  DOSPartTable_add human2bytes t a = (t', Ok e) ->
  if flag_is a "logical" then 4 < number e else number e <= 4.
Proof.
  intros Hadd. pose proof (DOSPartTable_add_cases t a) as Hc.
  rewrite Hadd in Hc. destruct Hc as (Hplace & _).
  destruct (flag_is a "logical") eqn:Hflag.
  - destruct (DOSPartTable_place_logical t a _ _ Hflag Hplace)
      as (ext & _ & Hcase). cbn zeta in Hcase.
    destruct (last_entry _) as [prev|] eqn:Hlast.
    + destruct Hcase as [-> _].
      apply last_entry_Some in Hlast. destruct Hlast as [es' Hes'].
      assert (Hin : In prev (filter (fun e => 4 <? number e)
                               (entries (sfdisk t)))).
      { rewrite Hes'. apply in_or_app. right. left. reflexivity. }
      apply filter_In in Hin. destruct Hin as [_ Hp].
      apply Z.ltb_lt in Hp. lia.
    + destruct Hcase as [-> _]. lia.
  - apply (DOSPartTable_place_primary t a _ _ Hflag Hplace).
Qed.

(** What a returned entry does to the logical and to the other entries. *)
Lemma DOSPartTable_add_filters (t t' : DOSPartTable) (a : action amount)
    (e : PartTableEntry) :
  DOSPartTable_add human2bytes t a = (t', Ok e) ->
  let logicals tb := filter (fun e => 4 <? number e) (entries (sfdisk tb)) in
  let primaries tb := filter (fun e => number e <=? 4) (entries (sfdisk tb)) in
  one_mib_sectors (sfdisk t') = one_mib_sectors (sfdisk t) /\
  entries (sfdisk t') = entries (sfdisk t) ++ [e] /\
  if flag_is a "logical"
  then logicals t' = logicals t ++ [e] /\ primaries t' = primaries t
  else logicals t' = logicals t /\ primaries t' = primaries t ++ [e].
Proof.
  intros Hadd logicals primaries.
  pose proof (DOSPartTable_add_number _ _ _ _ Hadd) as Hnum.
  pose proof (DOSPartTable_add_cases t a) as Hc.
  rewrite Hadd in Hc. destruct Hc as (_ & _ & _ & ->).
  split; [reflexivity|]. split; [reflexivity|].
  subst logicals primaries. cbn [sfdisk append_entry entries].
  rewrite !filter_app. cbn [filter].
  destruct (flag_is a "logical").
  - assert (H1 : (4 <? number e) = true) by (apply Z.ltb_lt; lia).
    assert (H2 : (number e <=? 4) = false) by (apply Z.leb_gt; lia).
    rewrite H1, H2, app_nil_r. auto.
  - assert (H1 : (4 <? number e) = false) by (apply Z.ltb_ge; lia).
    assert (H2 : (number e <=? 4) = true) by (apply Z.leb_le; lia).
    rewrite H1, H2, app_nil_r. auto.
Qed.

Lemma DOSPartTable_add_each_invariant (P : DOSPartTable -> Prop)
    (Q : action amount -> Prop) :
  (forall t a, Q a -> P t -> P (fst (DOSPartTable_add human2bytes t a))) ->
  forall acts t, Forall Q acts -> P t ->
                 P (DOSPartTable_add_each human2bytes t acts).
Proof.
  intros Hstep acts. induction acts as [|a acts IH]; intros t HQ HP.
  - exact HP.
  - inversion HQ as [|? ? Ha Hacts]; subst.
    rewrite DOSPartTable_add_each_cons. apply IH; [exact Hacts|].
    apply Hstep; assumption.
Qed.

Lemma new_DOSPartTable_inv (sector_bytes : Z) (t0 : DOSPartTable) :
  new_DOSPartTable sector_bytes = Ok t0 ->
  new_SFDiskPartTable sector_bytes = Ok (sfdisk t0) /\
  entries (sfdisk t0) = [] /\ _extended t0 = None.
Proof.
  unfold new_DOSPartTable.
  destruct (new_SFDiskPartTable sector_bytes) as [s0|] eqn:Hs0; [|discriminate].
  cbn. intros [= <-]. cbn. split; [reflexivity|].
  split; [apply (new_SFDiskPartTable_inv _ _ Hs0) | reflexivity].
Qed.

(** X8: whatever actions are added to a new DOS table, in whatever order
    and whether the calls return or raise, the entries numbered above 4 are
    numbered 5, 6, 7, ... in the order they were added. *)
Theorem X8_logical_numbers_consecutive
    (sector_bytes : Z) (t0 : DOSPartTable) (acts : list (action amount)) :
  new_DOSPartTable sector_bytes = Ok t0 ->
  let logicals :=
    filter (fun e => 4 <? number e)
           (entries (sfdisk (DOSPartTable_add_each human2bytes t0 acts))) in
  map number logicals
  = map (fun i => 5 + Z.of_nat i) (seq 0 (List.length logicals)).
Proof.
  intros Hnew.
  apply (DOSPartTable_add_each_invariant
           (fun t =>
              let l := filter (fun e => 4 <? number e) (entries (sfdisk t)) in
              map number l
              = map (fun i => 5 + Z.of_nat i) (seq 0 (List.length l)))
           (fun _ => True)).
  - intros t a _ Hinv. cbn zeta in *.
    pose proof (DOSPartTable_add_cases t a) as Hc.
    destruct (DOSPartTable_add human2bytes t a) as [t' [e|err]] eqn:Hadd;
      cbn [fst]; [|subst t'; exact Hinv].
    destruct (DOSPartTable_add_filters _ _ _ _ Hadd) as (_ & _ & Hf).
    cbn zeta in Hf. destruct Hc as (Hplace & _).
    destruct (flag_is a "logical") eqn:Hflag.
    + destruct Hf as [-> _].
      rewrite length_app. cbn [List.length].
      rewrite Nat.add_1_r, seq_S, !map_app, <- Hinv. cbn [map Nat.add].
      f_equal. f_equal.
      destruct (DOSPartTable_place_logical t a _ _ Hflag Hplace)
        as (ext & _ & Hcase). cbn zeta in Hcase.
      destruct (last_entry _) as [prev|] eqn:Hlast.
      * destruct Hcase as [-> _].
        apply last_entry_Some in Hlast. destruct Hlast as [l0 Hl0].
        rewrite Hl0 in Hinv |- *.
        rewrite length_app in Hinv. cbn [List.length] in Hinv.
        rewrite Nat.add_1_r, seq_S, !map_app in Hinv.
        cbn [map Nat.add] in Hinv.
        apply app_inj_tail in Hinv. destruct Hinv as [_ Hprev].
        rewrite Hprev, length_app. cbn [List.length]. lia.
      * destruct Hcase as [-> _]. apply last_entry_None in Hlast.
        rewrite Hlast. reflexivity.
    + destruct Hf as [-> _]. exact Hinv.
  - clear. induction acts; constructor; auto.
  - destruct (new_DOSPartTable_inv _ _ Hnew) as (_ & -> & _). reflexivity.
Qed.

(** X9: on a DOS table reached from a new one by any calls of add, the
    remembered extended entry, when there is one, is an entry of the table,
    has a number of at most 4 and the type code '05'. *)
Theorem X9_extended_is_a_primary_entry
    (sector_bytes : Z) (t0 : DOSPartTable) (acts : list (action amount))
    (ext : PartTableEntry) :
  new_DOSPartTable sector_bytes = Ok t0 ->
  let t := DOSPartTable_add_each human2bytes t0 acts in
  _extended t = Some ext ->
  In ext (entries (sfdisk t)) /\ number ext <= 4 /\ type ext = Some "05".
Proof.
  intros Hnew t. subst t. revert ext.
  apply (DOSPartTable_add_each_invariant
           (fun t => forall ext, _extended t = Some ext ->
              In ext (entries (sfdisk t)) /\ number ext <= 4 /\
              type ext = Some "05")
           (fun _ => True)).
  - intros t a _ Hinv ext.
    pose proof (DOSPartTable_add_cases t a) as Hc.
    destruct (DOSPartTable_add human2bytes t a) as [t' [e|err]] eqn:Hadd;
      cbn [fst]; [|subst t'; apply Hinv].
    pose proof (DOSPartTable_add_number _ _ _ _ Hadd) as Hnum.
    destruct Hc as (_ & _ & Htype & ->). cbn [_extended sfdisk append_entry entries].
    destruct (flag_is a "extended") eqn:Hext.
    + intros [= <-]. apply flag_is_true in Hext.
      rewrite Hext in Htype. unfold flag_is in Hnum. rewrite Hext in Hnum.
      cbn in Hnum. split; [apply in_or_app; right; left; reflexivity|].
      split; [exact Hnum | exact Htype].
    + intros Hold. destruct (Hinv ext Hold) as (Hin & Hle & Hty).
      split; [apply in_or_app; left; exact Hin | auto].
  - clear. induction acts; constructor; auto.
  - destruct (new_DOSPartTable_inv _ _ Hnew) as (_ & _ & ->). discriminate.
Qed.

(** X10: on a DOS table with a positive sector size, when no action carries
    an 'offset', every entry starts at a multiple of one_mib_sectors. *)
Theorem X10_dos_default_starts_aligned
    (sector_bytes : Z) (t0 : DOSPartTable) (acts : list (action amount)) :
  0 < sector_bytes ->
  new_DOSPartTable sector_bytes = Ok t0 ->
  Forall (fun a => action_offset a = None) acts ->
  Forall (fun e => (one_mib_sectors (sfdisk t0) | start e))
         (entries (sfdisk (DOSPartTable_add_each human2bytes t0 acts))).
Proof.
  intros Hpos Hnew Hall.
  destruct (new_DOSPartTable_inv _ _ Hnew) as (Hs0 & Hes & _).
  destruct (one_mib_sectors_pow2 _ _ Hpos Hs0) as [k [Hk Hb]].
  rewrite Hb.
  apply (DOSPartTable_add_each_invariant
           (fun t => one_mib_sectors (sfdisk t) = 2 ^ k /\
                     Forall (fun e => (2 ^ k | start e)) (entries (sfdisk t)))
           (fun a => action_offset a = None)); [|exact Hall|].
  - intros t a Hoff (Hbt & Hinv).
    pose proof (DOSPartTable_add_cases t a) as Hc.
    destruct (DOSPartTable_add human2bytes t a) as [t' [e|err]] eqn:Hadd;
      cbn [fst]; [|subst t'; auto].
    destruct (DOSPartTable_add_filters _ _ _ _ Hadd) as (Hb' & Hes' & _).
    destruct Hc as (Hplace & _).
    split; [rewrite Hb'; exact Hbt|].
    rewrite Hes'. apply Forall_app. split; [exact Hinv|].
    constructor; [|constructor].
    destruct (flag_is a "logical") eqn:Hflag.
    + destruct (DOSPartTable_place_logical t a _ _ Hflag Hplace)
        as (ext & _ & Hcase). cbn zeta in Hcase. rewrite Hbt in Hcase.
      destruct (last_entry _); destruct Hcase as [_ Hs];
        rewrite (Hs Hoff); apply align_up_multiple, Hk.
    + destruct (DOSPartTable_place_primary t a _ _ Hflag Hplace)
        as (_ & _ & Hs). cbn zeta in Hs. rewrite Hbt in Hs.
      rewrite (Hs Hoff). destruct (last_entry _).
      * apply align_up_multiple, Hk.
      * apply Z.divide_refl.
  - split; [exact Hb|]. rewrite Hes. constructor.
Qed.

(** X11: on a DOS table with a positive sector size, when no action carries
    an 'offset', each entry numbered at most 4 ends at or before the start of
    the next such entry, and between the end of a logical entry and the start
    of the next logical entry there are at least one_mib_sectors sectors. *)
Theorem X11_dos_default_chains
    (sector_bytes : Z) (t0 : DOSPartTable) (acts : list (action amount)) :
  0 < sector_bytes ->
  new_DOSPartTable sector_bytes = Ok t0 ->
  Forall (fun a => action_offset a = None) acts ->
  let es := entries (sfdisk (DOSPartTable_add_each human2bytes t0 acts)) in
  let b := one_mib_sectors (sfdisk t0) in
  Sorted (fun e1 e2 => start e1 + size e1 <= start e2)
         (filter (fun e => number e <=? 4) es) /\
  Sorted (fun e1 e2 => start e1 + size e1 + b <= start e2)
         (filter (fun e => 4 <? number e) es).
Proof.
  intros Hpos Hnew Hall es b. subst es b.
  destruct (new_DOSPartTable_inv _ _ Hnew) as (Hs0 & Hes & _).
  destruct (one_mib_sectors_pow2 _ _ Hpos Hs0) as [k [Hk Hb]].
  rewrite Hb.
  assert (H : let t := DOSPartTable_add_each human2bytes t0 acts in
              one_mib_sectors (sfdisk t) = 2 ^ k /\
              Sorted (fun e1 e2 => start e1 + size e1 <= start e2)
                     (filter (fun e => number e <=? 4) (entries (sfdisk t))) /\
              Sorted (fun e1 e2 => start e1 + size e1 + 2 ^ k <= start e2)
                     (filter (fun e => 4 <? number e) (entries (sfdisk t)))).
  { apply (DOSPartTable_add_each_invariant
             (fun t =>
                one_mib_sectors (sfdisk t) = 2 ^ k /\
                Sorted (fun e1 e2 => start e1 + size e1 <= start e2)
                       (filter (fun e => number e <=? 4) (entries (sfdisk t))) /\
                Sorted (fun e1 e2 => start e1 + size e1 + 2 ^ k <= start e2)
                       (filter (fun e => 4 <? number e) (entries (sfdisk t))))
             (fun a => action_offset a = None)); [|exact Hall|].
    - intros t a Hoff (Hbt & Hprim & Hlog).
      pose proof (DOSPartTable_add_cases t a) as Hc.
      destruct (DOSPartTable_add human2bytes t a) as [t' [e|err]] eqn:Hadd;
        cbn [fst]; [|subst t'; auto].
      destruct (DOSPartTable_add_filters _ _ _ _ Hadd) as (Hb' & _ & Hf).
      cbn zeta in Hf. destruct Hc as (Hplace & _).
      split; [rewrite Hb'; exact Hbt|].
      destruct (flag_is a "logical") eqn:Hflag.
      + destruct Hf as [-> ->]. split; [exact Hprim|].
        apply Sorted_snoc; [exact Hlog|].
        intros y Hy.
        destruct (DOSPartTable_place_logical t a _ _ Hflag Hplace)
          as (ext & _ & Hcase). cbn zeta in Hcase. rewrite Hbt in Hcase.
        unfold last_entry in Hcase. rewrite Hy in Hcase.
        destruct Hcase as [_ Hs]. rewrite (Hs Hoff).
        apply align_up_ge, Hk.
      + destruct Hf as [-> ->]. split; [|exact Hlog].
        apply Sorted_snoc; [exact Hprim|].
        intros y Hy.
        destruct (DOSPartTable_place_primary t a _ _ Hflag Hplace)
          as (_ & _ & Hs). cbn zeta in Hs. rewrite Hbt in Hs.
        unfold last_entry in Hs. rewrite Hy in Hs. rewrite (Hs Hoff).
        apply align_up_ge, Hk.
    - split; [exact Hb|]. rewrite Hes. cbn. split; constructor. }
  destruct H as (_ & H1 & H2). split; assumption.
Qed.

(** ** GPT numbering *)

(** X12: on a new GPT table, when every action has a 'size' and none has a
    'number', every call of add returns and the entries are numbered 1, 2,
    3, ... in the order of the calls. *)
Theorem X12_gpt_default_numbers
    (sector_bytes : Z) (t0 : SFDiskPartTable) (acts : list (action amount)) :
  new_SFDiskPartTable sector_bytes = Ok t0 ->
  Forall (fun a => action_number a = None /\ action_size a <> None) acts ->
  map number (entries (GPTPartTable_add_each human2bytes t0 acts))
  = map (fun i => Z.of_nat i + 1) (seq 0 (List.length acts)).
Proof.
  intros Hnew Hall.
  assert (H : forall t,
            map number (entries (GPTPartTable_add_each human2bytes t acts))
            = map number (entries t)
              ++ map (fun i => Z.of_nat i + 1)
                     (seq (List.length (entries t)) (List.length acts))).
  { induction Hall as [|a acts (Hnum & Hsize) _ IH]; intros t.
    - cbn. symmetry. apply app_nil_r.
    - rewrite GPTPartTable_add_each_cons, IH.
      pose proof (GPTPartTable_add_cases t a) as Hc.
      unfold GPTPartTable_add in *. unfold size_of_action in *.
      destruct (action_size a) as [s|]; [|congruence].
      cbn [fst] in *. destruct Hc as (_ & Hn & _).
      cbn [entries append_entry number] in *.
      unfold default_number. rewrite Hnum.
      rewrite map_app, length_app, <- app_assoc. cbn.
      rewrite Nat.add_1_r. reflexivity. }
  rewrite H. destruct (new_SFDiskPartTable_inv _ _ Hnew) as (_ & _ & -> & _).
  reflexivity.
Qed.

End Tables.

(** ** _find_part_info *)

Section FindPartInfoFacts.
Context {part : Type} (part_start : part -> Z).

(** X13: _find_part_info returns the first partition whose start is the
    offset, and raises exactly when no partition starts there. *)
Theorem X13_find_part_info_first_match (partitions : list part) (offset : Z) :
  (forall p, _find_part_info part_start partitions offset = Some p ->
     exists before after,
       partitions = before ++ p :: after /\
       part_start p = offset /\
       Forall (fun q => part_start q <> offset) before) /\
  (_find_part_info part_start partitions offset = None <->
   Forall (fun q => part_start q <> offset) partitions).
Proof.
  induction partitions as [|q partitions [IH1 IH2]]; cbn.
  - split; [discriminate|]. split; constructor.
  - destruct (Z.eqb_spec (part_start q) offset) as [Heq | Hne].
    + split.
      * intros p [= <-]. exists [], partitions. repeat split; auto.
      * split; [discriminate|]. intros H. inversion H; contradiction.
    + split.
      * intros p Hp. destruct (IH1 p Hp) as (before & after & -> & Hs & Hb).
        exists (q :: before), after. repeat split; auto.
      * rewrite IH2. split.
        -- intros H. constructor; assumption.
        -- intros H. inversion H; assumption.
Qed.

End FindPartInfoFacts.

(** ** The tables on concrete actions *)

Lemma X6_primary_number_above_four_witness :
  let t := DOSPartTable_add_each bytes_id dos_table_512 four_actions in
  DOSPartTable_add bytes_id t (sized_action (Some "primary") 1048576)
  = (t, Err (TooManyPrimaries 5)).
Proof.
  apply (X6_primary_number_above_four bytes_id
           (DOSPartTable_add_each bytes_id dos_table_512 four_actions)
           (sized_action (Some "primary") 1048576)).
  - discriminate.
  - right. split; [reflexivity|]. vm_compute. lia.
Defined.

Lemma X7_number_above_four_iff_logical_witness :
  4 < number logical_entry_5 <->
  action_flag (sized_action (Some "logical") 1000000) = Some "logical".
Proof.
  apply (X7_number_above_four_iff_logical bytes_id
           (DOSPartTable_add_each bytes_id dos_table_512 four_actions)
           (fst (DOSPartTable_add bytes_id
                   (DOSPartTable_add_each bytes_id dos_table_512 four_actions)
                   (sized_action (Some "logical") 1000000)))
           (sized_action (Some "logical") 1000000) logical_entry_5).
  vm_compute. reflexivity.
Defined.

Lemma X8_logical_numbers_consecutive_witness :
  let logicals :=
    filter (fun e => 4 <? number e)
           (entries (sfdisk (DOSPartTable_add_each bytes_id dos_table_512
                               six_actions))) in
  map number logicals
  = map (fun i => 5 + Z.of_nat i) (seq 0 (List.length logicals)).
Proof.
  apply (X8_logical_numbers_consecutive bytes_id 512 dos_table_512
           six_actions).
  reflexivity.
Defined.

Lemma X9_extended_is_a_primary_entry_witness :
  In extended_entry_4
     (entries (sfdisk (DOSPartTable_add_each bytes_id dos_table_512
                         six_actions))) /\
  number extended_entry_4 <= 4 /\ type extended_entry_4 = Some "05".
Proof.
  apply (X9_extended_is_a_primary_entry bytes_id 512 dos_table_512
           six_actions extended_entry_4).
  - reflexivity.
  - vm_compute. reflexivity.
Defined.

Lemma X10_dos_default_starts_aligned_witness :
  Forall (fun e => (2048 | start e))
         (entries (sfdisk (DOSPartTable_add_each bytes_id dos_table_512
                             six_actions))).
Proof.
  apply (X10_dos_default_starts_aligned bytes_id 512 dos_table_512
           six_actions).
  - lia.
  - reflexivity.
  - repeat constructor.
Defined.

Lemma X11_dos_default_chains_witness :
  let es := entries (sfdisk (DOSPartTable_add_each bytes_id dos_table_512
                               six_actions)) in
  Sorted (fun e1 e2 => start e1 + size e1 <= start e2)
         (filter (fun e => number e <=? 4) es) /\
  Sorted (fun e1 e2 => start e1 + size e1 + 2048 <= start e2)
         (filter (fun e => 4 <? number e) es).
Proof.
  apply (X11_dos_default_chains bytes_id 512 dos_table_512 six_actions).
  - lia.
  - reflexivity.
  - repeat constructor.
Defined.

Lemma X12_gpt_default_numbers_witness :
  map number (entries (GPTPartTable_add_each bytes_id gpt_table_512
                         six_actions))
  = map (fun i => Z.of_nat i + 1) (seq 0 (List.length six_actions)).
Proof.
  apply (X12_gpt_default_numbers bytes_id 512 gpt_table_512 six_actions).
  - reflexivity.
  - repeat constructor; discriminate.
Defined.

End BlockMetaMore.

(** * More on the dependency resolver and the merge *)

Module StorageConfigMore.
Import StorageConfig StorageConfigFacts.

(** ** The type registry *)

Lemma dict_get_In {V : Type} (d : list (string * V)) (k : string) (v : V) :
  dict_get d k = Some v -> In (k, v) d.
Proof.
  induction d as [|[k' v'] d IH]; cbn; [discriminate|].
  destruct (dict_get d k) as [w|].
  - intros [= ->]. right. apply IH. reflexivity.
  - destruct (String.eqb_spec k' k) as [->|]; [|discriminate].
    intros [= ->]. left. reflexivity.
Qed.

Lemma dict_get_Some_key {V : Type} (d : list (string * V)) (k : string)
    (v : V) :
  dict_get d k = Some v -> In k (map fst d).
Proof.
  intros H. apply dict_get_In in H. apply in_map_iff. exists (k, v). auto.
Qed.

Lemma dict_get_key_Some {V : Type} (d : list (string * V)) (k : string) :
  In k (map fst d) -> exists v, dict_get d k = Some v.
Proof.
  induction d as [|[k' v'] d IH]; cbn; [tauto|].
  intros [-> | Hin].
  - destruct (dict_get d k) as [w|]; [eauto|].
    rewrite String.eqb_refl. eauto.
  - destruct (IH Hin) as [w ->]. eauto.
Qed.

Section RegistryFacts.
Variable set_order : list string -> list string.

(** X14: the three tables of the registry know the same types, the keys of
    STORAGE_CONFIG_TYPES: the order key, the dependency keys and the allowed
    dependencies of a type are found together or not at all.  So for an item
    of the configuration find_item_dependencies raises ValueError when the
    type is not one of them, and the KeyError of _stype_to_deps is never
    met. *)
Theorem X14_registry_tables_agree (stype : string) :
  ((exists k, _stype_to_order_key stype = Ok k) <-> In stype storage_types) /\
  ((exists ks, _stype_to_deps set_order stype = Ok ks)
   <-> In stype storage_types) /\
  ((exists ds, dict_get depends stype = Some ds) <-> In stype storage_types) /\
  (forall depth item_id config validate item_cfg,
     config_get config item_id = Some item_cfg ->
     type item_cfg = stype ->
     ~ In stype storage_types ->
     find_item_dependencies set_order (S depth) item_id config validate
     = Err ValueError).
Proof.
  assert (H1 : (exists k, _stype_to_order_key stype = Ok k)
               <-> In stype storage_types).
  { unfold _stype_to_order_key.
    change storage_types with (map fst order_key). split.
    - intros [k Hk]. destruct (dict_get order_key stype) eqn:E; [|discriminate].
      apply (dict_get_Some_key _ _ _ E).
    - intros Hin. destruct (dict_get_key_Some _ _ Hin) as [v ->]. eauto. }
  split; [exact H1|]. split; [|split].
  - unfold _stype_to_deps.
    change storage_types with (map fst depends_keys). split.
    + intros [k Hk].
      destruct (dict_get depends_keys stype) eqn:E; [|discriminate].
      apply (dict_get_Some_key _ _ _ E).
    + intros Hin. destruct (dict_get_key_Some _ _ Hin) as [v ->]. eauto.
  - change storage_types with (map fst depends). split.
    + intros [ds Hds]. apply (dict_get_Some_key _ _ _ Hds).
    + apply dict_get_key_Some.
  - intros depth item_id config validate item_cfg Hget Hty Hn.
    cbn [find_item_dependencies].
    destruct config as [|p config]; [destruct item_id; discriminate|].
    rewrite Hget, Hty.
    destruct (_stype_to_order_key stype) as [k|e] eqn:E.
    + exfalso. apply Hn, H1. eauto.
    + unfold _stype_to_order_key in E.
      destruct (dict_get order_key stype); [discriminate|].
      injection E as <-. reflexivity.
Qed.

End RegistryFacts.

(** ** Validation *)

Section ValidationFacts.
Variable set_order : list string -> list string.

Local Abbreviation fid := (find_item_dependencies set_order).

Lemma _validate_dep_type_ok (source_id dep_id : ref) (dep_key : string)
    (sconfig : odict item) (r : bool) :
  _validate_dep_type source_id dep_key dep_id sconfig = Ok r ->
  exists source dep allowed,
    config_get sconfig source_id = Some source /\
    config_get sconfig dep_id = Some dep /\
    dict_get depends (type source) = Some allowed /\
    In (type dep) allowed.
Proof.
  unfold _validate_dep_type.
  destruct (config_get sconfig source_id) as [source|] eqn:Hs; [|discriminate].
  destruct (config_get sconfig dep_id) as [dep|] eqn:Hd; [|discriminate].
  destruct (dict_get depends (type source)) as [allowed|] eqn:Ha;
    [|discriminate].
  destruct (dict_get depends (type dep)); [|discriminate].
  destruct (str_in (type dep) allowed) eqn:E; [|discriminate].
  intros _. exists source, dep, allowed.
  split; [reflexivity|]. split; [reflexivity|]. split; [exact Ha|].
  unfold str_in in E. apply existsb_exists in E.
  destruct E as (x & Hx & Heq). apply String.eqb_eq in Heq. subst x. exact Hx.
Qed.

(** The references of an item: what its dependency fields name. *)
Lemma find_item_dependencies_turn
    (depth : nat) (item_id : ref) (config : odict item) (validate : bool)
    (item_cfg : item) (deps : list ref)
    (dep_keys : list string) (dep_key : string) (v : value) (dep : ref) :
  fid (S depth) item_id config validate = Ok (Some deps) ->
  config_get config item_id = Some item_cfg ->
  _stype_to_deps set_order (type item_cfg) = Ok dep_keys ->
  In dep_key dep_keys ->
  item_get item_cfg dep_key = Some v ->
  In dep (refs_of v) ->
  In dep deps /\
  (validate = true ->
   _validate_dep_type item_id dep_key dep config = Ok true) /\
  exists lo,
    fid depth dep config true = Ok lo /\
    forall l, lo = Some l -> incl l deps.
Proof.
  intros Hfid Hget Hkeys Hkey Hv Hdep.
  destruct (find_item_dependencies_inv _ _ _ _ _ _ _ Hfid Hget)
    as (item_order & dep_keys' & deps' & Hord & Hkeys' & Hloop & Hdeps).
  rewrite Hkeys in Hkeys'. injection Hkeys' as <-. injection Hdeps as <-.
  destruct (foldM_In_inv _ _ dep_key _ _
              (fun b x b' => resolve_key_extends _ _ _ _ _ _ b b' x)
              Hkey Hloop)
    as (c1 & c2 & s2 & Hstep & -> & _).
  unfold resolve_key in Hstep. rewrite Hv in Hstep.
  destruct (foldM_In_inv (resolve_dep _ _ _ _ _ _) _ dep _ _
              (fun b x b' => resolve_dep_extends _ _ _ _ _ _ b b' x)
              Hdep Hstep)
    as (b1 & b2 & s1 & Hturn & -> & (p & ->)).
  destruct (resolve_dep_inv _ _ _ _ _ _ _ _ _ Hturn)
    as (sibs & lo & _ & Hlo & Hval & ->).
  split.
  { rewrite !in_app_iff. tauto. }
  split; [exact Hval|].
  exists lo. split; [exact Hlo|].
  intros l ->. intros x Hx. rewrite !in_app_iff. tauto.
Qed.

(** X15: when find_item_dependencies returns with validation on, every id
    named by a dependency field of the item is a key of the configuration and
    the type of the item it names is one the item's type may depend on. *)
Theorem X15_validated_references
    (depth : nat) (item_id : ref) (config : odict item)
    (item_cfg : item) (deps : list ref)
    (dep_keys : list string) (dep_key : string) (v : value) (dep : ref) :
  fid depth item_id config true = Ok (Some deps) ->
  config_get config item_id = Some item_cfg ->
  _stype_to_deps set_order (type item_cfg) = Ok dep_keys ->
  In dep_key dep_keys ->
  item_get item_cfg dep_key = Some v ->
  In dep (refs_of v) ->
  exists dep_cfg allowed,
    config_get config dep = Some dep_cfg /\
    dict_get depends (type item_cfg) = Some allowed /\
    In (type dep_cfg) allowed.
Proof.
  intros Hfid Hget Hkeys Hkey Hv Hdep.
  destruct depth as [|depth]; [discriminate|].
  destruct (find_item_dependencies_turn _ _ _ _ _ _ _ _ _ _
              Hfid Hget Hkeys Hkey Hv Hdep) as (_ & Hval & _).
  destruct (_validate_dep_type_ok _ _ _ _ _ (Hval eq_refl))
    as (source & dep_cfg & allowed & Hs & Hd & Hal & Hin).
  rewrite Hget in Hs. injection Hs as <-.
  exists dep_cfg, allowed. auto.
Qed.

Lemma resolve_dep_validate_off (lower : ref -> result (option (list ref)))
    (item_id : ref) (config : odict item)
    (item_order dep_key : string) (deps deps' : list ref) (dep : ref) :
  resolve_dep lower item_id config true item_order dep_key deps dep
    = Ok deps' ->
  resolve_dep lower item_id config false item_order dep_key deps dep
    = Ok deps'.
Proof.
  unfold resolve_dep. intros H. bind_inv H. cbn [bind]. exact H.
Qed.

(** X16: validate only governs the references of the item asked for.
    Turning it off never changes a result: what the call returns with
    validation on it returns with validation off.  And with validation off
    the references of every referenced item are still checked: they are keys
    of the configuration with an allowed type. *)
Theorem X16_validate_is_not_passed_down
    (depth : nat) (item_id : ref) (config : odict item) :
  (forall r, fid depth item_id config true = Ok r ->
             fid depth item_id config false = Ok r) /\
  (forall item_cfg deps dep_keys dep_key v dep dep_cfg
          dep_keys' dep_key' v' dep',
     fid depth item_id config false = Ok (Some deps) ->
     config_get config item_id = Some item_cfg ->
     _stype_to_deps set_order (type item_cfg) = Ok dep_keys ->
     In dep_key dep_keys ->
     item_get item_cfg dep_key = Some v ->
     In dep (refs_of v) ->
     config_get config dep = Some dep_cfg ->
     _stype_to_deps set_order (type dep_cfg) = Ok dep_keys' ->
     In dep_key' dep_keys' ->
     item_get dep_cfg dep_key' = Some v' ->
     In dep' (refs_of v') ->
     exists cfg' allowed,
       config_get config dep' = Some cfg' /\
       dict_get depends (type dep_cfg) = Some allowed /\
       In (type cfg') allowed).
Proof.
  split.
  - intros r H. destruct depth as [|depth]; [discriminate|].
    cbn [find_item_dependencies] in H |- *.
    destruct config as [|p config]; [discriminate|].
    destruct (config_get (p :: config) item_id) as [item_cfg|]; [|exact H].
    bind_inv H. rewrite Hx. cbn [bind].
    bind_inv H. rewrite Hx0. cbn [bind].
    bind_inv H. injection H as <-.
    erewrite foldM_impl; [reflexivity | | exact Hx1].
    intros b k b'. unfold resolve_key.
    destruct (item_get item_cfg k); [|auto].
    apply foldM_impl. intros b0 x2 b0'. apply resolve_dep_validate_off.
  - intros item_cfg deps dep_keys dep_key v dep dep_cfg dep_keys' dep_key'
           v' dep' Hfid Hget Hkeys Hkey Hv Hdep Hdget Hkeys' Hkey' Hv' Hdep'.
    destruct depth as [|depth]; [discriminate|].
    destruct (find_item_dependencies_turn _ _ _ _ _ _ _ _ _ _
                Hfid Hget Hkeys Hkey Hv Hdep) as (_ & _ & lo & Hlo & _).
    destruct depth as [|depth]; [discriminate|].
    destruct (find_item_dependencies_inv _ _ _ _ _ _ _ Hlo Hdget)
      as (_ & _ & deps2 & _ & _ & _ & ->).
    destruct (find_item_dependencies_turn _ _ _ _ _ _ _ _ _ _
                Hlo Hdget Hkeys' Hkey' Hv' Hdep') as (_ & Hval & _).
    destruct (_validate_dep_type_ok _ _ _ _ _ (Hval eq_refl))
      as (source & cfg' & allowed & Hs & Hd & Hal & Hin).
    rewrite Hdget in Hs. injection Hs as <-.
    exists cfg', allowed. auto.
Qed.

Lemma depends_on_trans (config : odict item) (a b c : string) :
  depends_on config a b -> depends_on config b c -> depends_on config a c.
Proof.
  induction 1 as [a b Hab | a x b Hax Hxb IH]; intros Hbc.
  - apply (depends_trans _ a b c Hab Hbc).
  - apply (depends_trans _ a x c Hax). apply IH, Hbc.
Qed.

(** X17: on a configuration with a cycle of references (an item that
    reaches itself through dependency fields), find_item_dependencies does
    not return for an item on the cycle, whatever depth the interpreter
    allows: the call ends in an exception. *)
Theorem X17_cycle_never_returns
    (config : odict item) (a : string) (depth : nat) (validate : bool) :
  (forall l, Permutation (set_order l) l) ->
  depends_on config a a ->
  exists e, fid depth (RStr a) config validate = Err e.
Proof.
  intros Hperm Hcyc.
  assert (Hno : forall d x v r,
            depends_on config x x -> fid d (RStr x) config v <> Ok r).
  { induction d as [|d IH]; intros x v r Hx; [discriminate|].
    intros Hok.
    (* the first step of the cycle, and the rest *)
    assert (Hstep : exists y, direct_dep config x y /\ depends_on config y y).
    { inversion Hx as [u w Hd | u c w Hd Hrest]; subst.
      - exists x. split; [exact Hd | exact Hx].
      - exists c. split; [exact Hd|].
        apply (depends_on_trans _ _ _ _ Hrest). apply depends_direct, Hd. }
    destruct Hstep as (y & Hxy & Hy).
    destruct Hxy as (item_cfg & ks & dep_key & v' & Hget & Hks & Hkey & Hv & Hb).
    destruct (find_item_dependencies_inv _ _ _ _ _ _ _ Hok Hget)
      as (_ & _ & deps & _ & _ & _ & ->).
    assert (Hkeys : _stype_to_deps set_order (type item_cfg)
                    = Ok (iter_set set_order ks)).
    { unfold _stype_to_deps. rewrite Hks. reflexivity. }
    destruct (find_item_dependencies_turn d (RStr x) config v item_cfg deps
                _ dep_key v' (RStr y) Hok Hget Hkeys
                (proj2 (iter_set_In set_order Hperm ks dep_key) Hkey) Hv Hb)
      as (_ & _ & lo & Hlo & _).
    apply (IH y true lo Hy Hlo). }
  destruct (fid depth (RStr a) config validate) as [r|e] eqn:E.
  - exfalso. apply (Hno _ _ _ _ Hcyc E).
  - exists e. reflexivity.
Qed.

End ValidationFacts.

(** ** Trees *)

Section TreeMore.
Variable set_order : list string -> list string.

Local Abbreviation fid := (find_item_dependencies set_order).
Local Abbreviation tree_of := (get_config_tree set_order).

Lemma foldM_invariant {A B : Type} (P : B -> Prop) (f : B -> A -> result B)
    (l : list A) :
  (forall b x b', In x l -> f b x = Ok b' -> P b -> P b') ->
  forall b r, P b -> foldM f l b = Ok r -> P r.
Proof.
  induction l as [|x l IH]; intros Hstep b r Hb H; cbn in H.
  - injection H as <-. exact Hb.
  - bind_inv H. apply (IH (fun b x b' Hin => Hstep b x b' (or_intror Hin))
                          x0 r); [|exact H].
    apply (Hstep b x x0 (or_introl eq_refl) Hx Hb).
Qed.

(** A reference that is a key of the configuration. *)
Lemma In_odict_get {V : Type} (d : odict V) (k : string) (v : V) :
  In (k, v) d -> exists v', odict_get d k = Some v'.
Proof.
  intros Hin. destruct (odict_get d k) as [v'|] eqn:E; [eauto|].
  exfalso. apply odict_get_None in E. apply E.
  apply in_map_iff. exists (k, v). auto.
Qed.

Lemma tree_build_values (sconfig : odict item) (deps : list ref)
    (t0 t : odict item) :
  foldM (tree_insert sconfig) deps t0 = Ok t ->
  forall k c, In (k, c) t -> In (k, c) t0 \/ odict_get sconfig k = Some c.
Proof.
  induction deps as [|dep deps IH] in t0 |- *; cbn; intros H k c Hin.
  - injection H as <-. left. exact Hin.
  - bind_inv H.
    destruct (tree_insert_inv _ _ _ _ Hx) as (k' & cfg & -> & Hk' & ->).
    destruct (IH _ H k c Hin) as [Hin0 | Hget]; [|right; exact Hget].
    apply odict_set_In in Hin0.
    destruct Hin0 as [[= -> ->] | Hin0]; [right; exact Hk' | left; exact Hin0].
Qed.

(** X18: the tree get_config_tree builds for an item starts with that item,
    has no key twice, holds under every key the item the configuration has
    under it, and so has between one entry and as many as the
    configuration. *)
Theorem X18_tree_is_part_of_configuration
    (depth : nat) (a : string) (scfg : list item) (t sconfig : odict item) :
  tree_of depth a scfg = Ok t ->
  extract_storage_ordered_dict scfg = Ok sconfig ->
  (exists root rest, t = (a, root) :: rest /\ odict_get sconfig a = Some root) /\
  NoDup (map fst t) /\
  (forall k c, In (k, c) t -> odict_get sconfig k = Some c) /\
  (1 <= List.length t <= List.length sconfig)%nat.
Proof.
  intros Ht Hsc.
  destruct (get_config_tree_inv _ _ _ _ _ Ht)
    as (sc & root & deps & rest & Hsc' & Hroot & _ & Heq & Hnd & _).
  rewrite Hsc in Hsc'. injection Hsc' as <-.
  assert (Hvals : forall k c, In (k, c) t -> odict_get sconfig k = Some c).
  { unfold get_config_tree in Ht. rewrite Hsc in Ht. cbn [bind] in Ht.
    unfold getitem in Ht. cbn [config_get] in Ht. rewrite Hroot in Ht.
    cbn [bind] in Ht. bind_inv Ht. destruct x as [ds|]; [|discriminate].
    intros k c Hin.
    destruct (tree_build_values _ _ _ _ Ht k c Hin) as [[Heq0 | []] | Hget];
      [|exact Hget].
    injection Heq0 as <- <-. exact Hroot. }
  split; [exists root, rest; auto|]. split; [exact Hnd|].
  split; [exact Hvals|]. split.
  - rewrite Heq. cbn. lia.
  - rewrite <- (length_map fst t), <- (length_map fst sconfig).
    apply NoDup_incl_length; [exact Hnd|].
    intros k Hk. apply in_map_iff in Hk. destruct Hk as ([k' c] & <- & Hin).
    cbn. apply Hvals in Hin. apply odict_get_In in Hin.
    apply in_map_iff. exists (k', c). auto.
Qed.

Lemma find_item_dependencies_present (config : odict item) :
  (forall k c, In (k, c) config -> id c = k) ->
  forall depth item_id deps,
    fid depth item_id config true = Ok (Some deps) ->
    Forall (present config) deps.
Proof.
  intros Hid. induction depth as [|depth IH]; intros item_id deps H;
    [discriminate|].
  destruct (config_get config item_id) as [item_cfg|] eqn:Hget.
  2:{ cbn [find_item_dependencies] in H.
      destruct config as [|p config]; [discriminate|].
      rewrite Hget in H. discriminate. }
  destruct (find_item_dependencies_inv _ _ _ _ _ _ _ H Hget)
    as (item_order & dep_keys & deps' & _ & _ & Hloop & Hdeps).
  injection Hdeps as <-.
  apply (foldM_invariant (Forall (present config)) _ _) with (3 := Hloop);
    [|constructor].
  intros acc dep_key acc' _ Hstep Hacc.
  unfold resolve_key in Hstep.
  destruct (item_get item_cfg dep_key) as [v|]; [|injection Hstep as <-; exact Hacc].
  assert (HQ : forall x, In x acc' -> present config x \/ In x (refs_of v)).
  { apply (foldM_invariant
             (fun b => forall x, In x b -> present config x \/ In x (refs_of v))
             _ _) with (3 := Hstep).
    - intros b dep b' _ Hturn Hb x Hx.
      destruct (resolve_dep_inv _ _ _ _ _ _ _ _ _ Hturn)
        as (sibs & lo & Hsorted & Hlo & _ & ->).
      apply in_app_or in Hx. destruct Hx as [Hx | Hx]; [apply Hb, Hx|].
      left. apply in_app_or in Hx. destruct Hx as [Hx | Hx].
      + apply in_map_iff in Hx. destruct Hx as (sdep & <- & Hs).
        apply (Permutation_in _ (sorted_perm _ _ _ Hsorted)) in Hs.
        unfold sdeps_cfgs in Hs. apply in_map_iff in Hs.
        destruct Hs as ([k c] & Heq & Hin). cbn in Heq. subst c.
        apply filter_In in Hin. destruct Hin as [Hin _].
        rewrite (Hid _ _ Hin).
        destruct (In_odict_get _ _ _ Hin) as [c' Hc'].
        exists k, c'. auto.
      + destruct lo as [l|]; [|destruct Hx].
        apply (proj1 (Forall_forall _ _) (IH _ _ Hlo) x Hx).
    - intros x Hx. apply in_app_or in Hx. destruct Hx as [Hx | Hx].
      + left. apply (proj1 (Forall_forall _ _) Hacc x Hx).
      + right. exact Hx. }
  apply Forall_forall. intros x Hx.
  destruct (HQ x Hx) as [Hp | Hv]; [exact Hp|].
  destruct (foldM_In_inv (resolve_dep _ _ _ _ _ _) _ x _ _
              (fun b y b' => resolve_dep_extends _ _ _ _ _ _ b b' y)
              Hv Hstep)
    as (b1 & b2 & s1 & Hturn & _ & _).
  destruct (resolve_dep_inv _ _ _ _ _ _ _ _ _ Hturn)
    as (_ & _ & _ & _ & Hval & _).
  apply _validate_dep_type_present in Hval; [|reflexivity].
  destruct Hval as [cfg Hcfg]. destruct x as [k|n]; [|discriminate].
  exists k, cfg. auto.
Qed.

Lemma tree_build_total (sconfig : odict item) (deps : list ref)
    (t0 : odict item) :
  Forall (present sconfig) deps ->
  exists t, foldM (tree_insert sconfig) deps t0 = Ok t.
Proof.
  intros H. revert t0.
  induction H as [|dep deps (k & c & -> & Hk) _ IH]; intros t0; cbn.
  - eauto.
  - unfold tree_insert at 1. unfold getitem. cbn [config_get].
    rewrite Hk. cbn [bind]. apply IH.
Qed.

(** X19: get_config_tree fails only where its three steps fail: it returns
    a tree exactly when the configuration is not empty, the item is one of
    its ids, and find_item_dependencies returns for it.  Inserting the
    dependencies never raises: every id find_item_dependencies returns is a
    key of the configuration. *)
Theorem X19_tree_built_when_dependencies_found
    (depth : nat) (a : string) (scfg : list item) :
  (exists t, tree_of depth a scfg = Ok t) <->
  (exists sconfig root r,
     extract_storage_ordered_dict scfg = Ok sconfig /\
     odict_get sconfig a = Some root /\
     fid depth (RStr a) sconfig true = Ok r).
Proof.
  split.
  - intros [t Ht].
    destruct (get_config_tree_inv _ _ _ _ _ Ht)
      as (sc & root & deps & rest & Hsc & Hroot & Hfid & _).
    exists sc, root, (Some deps). auto.
  - intros (sconfig & root & r & Hsc & Hroot & Hfid).
    destruct depth as [|depth]; [discriminate|].
    assert (Hget : config_get sconfig (RStr a) = Some root) by exact Hroot.
    destruct (find_item_dependencies_inv _ _ _ _ _ _ _ Hfid Hget)
      as (_ & _ & deps & _ & _ & _ & ->).
    destruct (extract_storage_ordered_dict_inv _ _ Hsc) as (_ & _ & Hid).
    pose proof (find_item_dependencies_present sconfig Hid _ _ _ Hfid) as Hp.
    destruct (tree_build_total sconfig deps [(a, root)] Hp) as [t Ht].
    exists t. unfold get_config_tree. rewrite Hsc. cbn [bind].
    unfold getitem. cbn [config_get]. rewrite Hroot. cbn [bind].
    rewrite Hfid. cbn [bind]. exact Ht.
Qed.

End TreeMore.

(** ** extract_storage_ordered_dict and config_tree_to_list *)

Lemma find_app_first {A : Type} (p : A -> bool) (l1 l2 : list A) :
  find p (l1 ++ l2)
  = match find p l1 with Some x => Some x | None => find p l2 end.
Proof.
  induction l1 as [|x l1 IH]; cbn; [reflexivity|].
  destruct (p x); [reflexivity | exact IH].
Qed.

Lemma extract_fold_get (scfg : list item) (d : odict item) (k : string) :
  odict_get (fold_left (fun d cfg => odict_set d (id cfg) cfg) scfg d) k
  = match find (fun c => String.eqb (id c) k) (rev scfg) with
    | Some c => Some c
    | None => odict_get d k
    end.
Proof.
  induction scfg as [|cfg scfg IH] in d |- *; cbn; [reflexivity|].
  rewrite IH, odict_get_set.
  rewrite find_app_first.
  destruct (find (fun c => String.eqb (id c) k) (rev scfg)); [reflexivity|].
  cbn. destruct (String.eqb (id cfg) k); reflexivity.
Qed.

(** X20: extract_storage_ordered_dict gives a dict with one key per id, and
    the item under an id is the last item of the list that has the id; an id
    no item has is no key. *)
Theorem X20_extract_last_item_wins (scfg : list item) (sconfig : odict item) :
  extract_storage_ordered_dict scfg = Ok sconfig ->
  NoDup (map fst sconfig) /\
  forall k, odict_get sconfig k
            = find (fun c => String.eqb (id c) k) (rev scfg).
Proof.
  intros H. split; [apply (extract_storage_ordered_dict_inv _ _ H)|].
  unfold extract_storage_ordered_dict in H.
  destruct scfg as [|c0 scfg0] eqn:E; [discriminate|]. rewrite <- E in *.
  injection H as <-. intros k. rewrite extract_fold_get.
  destruct (find _ (rev scfg)); reflexivity.
Qed.

Lemma config_tree_to_list_sub (tree l : odict item) :
  NoDup (map fst tree) -> incl l tree ->
  mapM (fun k => getitem tree (RStr k)) (map fst l) = Ok (map snd l).
Proof.
  intros Hnd. induction l as [|[k c] l IH]; intros Hincl; cbn; [reflexivity|].
  unfold getitem at 1. cbn [config_get].
  rewrite (odict_get_NoDup_In tree k c Hnd) by (apply Hincl; left; reflexivity).
  cbn [bind]. rewrite IH; [reflexivity|].
  intros x Hx. apply Hincl. right. exact Hx.
Qed.

(** X21: on a tree, whose keys are distinct, config_tree_to_list returns
    the items of the tree in the reverse of their order; the item the tree
    was built for, which is first in the tree, is last in the list. *)
Theorem X21_config_tree_to_list_reverses (tree : odict item) :
  NoDup (map fst tree) ->
  config_tree_to_list tree = Ok (rev (map snd tree)) /\
  (forall k root rest, tree = (k, root) :: rest ->
     config_tree_to_list tree = Ok (rev (map snd rest) ++ [root])).
Proof.
  intros Hnd.
  assert (H : config_tree_to_list tree = Ok (rev (map snd tree))).
  { unfold config_tree_to_list. rewrite <- !map_rev.
    apply config_tree_to_list_sub; [exact Hnd|].
    intros x Hx. apply in_rev. exact Hx. }
  split; [exact H|]. intros k root rest ->. rewrite H. reflexivity.
Qed.

(** ** More on merge_config_trees_to_list *)

Lemma register_tree_nonempty (reg : odict entry) (m : nat) (k : string)
    (cfg : item) (rest : odict item) :
  register_tree (reg, m) ((k, cfg) :: rest)
  = Ok (if odict_mem reg k then reg
        else reg ++ [(k, {| level := List.length ((k, cfg) :: rest);
                            config := cfg |})],
        Nat.max m (List.length ((k, cfg) :: rest))).
Proof.
  unfold register_tree. cbn [odict_get]. rewrite String.eqb_refl.
  replace (if Nat.ltb m (List.length ((k, cfg) :: rest))
           then List.length ((k, cfg) :: rest) else m)
    with (Nat.max m (List.length ((k, cfg) :: rest)))
    by (destruct (Nat.ltb_spec m (List.length ((k, cfg) :: rest))); lia).
  unfold odict_mem. destruct (odict_get reg k) eqn:E; [reflexivity|].
  rewrite odict_set_fresh by exact E. reflexivity.
Qed.

Lemma build_registry_lengths (trees : list (odict item))
    (reg0 reg : odict entry) (m0 m : nat) :
  foldM register_tree trees (reg0, m0) = Ok (reg, m) ->
  forall t, In t trees -> t <> [] /\ (List.length t <= m)%nat.
Proof.
  induction trees as [|tree trees IH] in reg0, m0 |- *; cbn [foldM];
    intros H t Hin; [destruct Hin|].
  bind_inv H. destruct x as [reg1 m1].
  destruct (register_tree_inv _ _ _ _ _ Hx) as (k & cfg & rest & -> & -> & _).
  destruct (build_registry_gen _ _ _ _ _ H) as (_ & Hm & _).
  destruct Hin as [<- | Hin].
  - split; [discriminate | lia].
  - apply (IH _ _ H t Hin).
Qed.

Lemma register_again (l : list (odict item)) (reg : odict entry) (m : nat) :
  (forall t, In t l ->
     (exists k cfg rest, t = (k, cfg) :: rest /\ In k (map fst reg)) /\
     (List.length t <= m)%nat) ->
  foldM register_tree l (reg, m) = Ok (reg, m).
Proof.
  induction l as [|t l IH]; intros H; cbn [foldM]; [reflexivity|].
  destruct (H t (or_introl eq_refl)) as ((k & cfg & rest & -> & Hk) & Hlen).
  rewrite register_tree_nonempty. cbn [bind].
  apply odict_mem_In in Hk. rewrite Hk.
  rewrite Nat.max_l by exact Hlen.
  apply IH. intros t' Ht'. apply H. right. exact Ht'.
Qed.

(** X22: merging a collection of trees followed by the same trees again
    gives what merging the collection once gives, a list or an exception. *)
Theorem X22_merge_twice_is_merge_once (trees : list (odict item)) :
  merge_config_trees_to_list (trees ++ trees)
  = merge_config_trees_to_list trees.
Proof.
  unfold merge_config_trees_to_list, build_registry.
  rewrite foldM_app.
  destruct (foldM register_tree trees ([], 0%nat)) as [[reg m]|e] eqn:E;
    [|reflexivity].
  cbn [bind]. rewrite register_again; [reflexivity|].
  intros t Ht.
  destruct (build_registry_lengths _ _ _ _ _ E t Ht) as [Hne Hlen].
  split; [|exact Hlen].
  destruct t as [|[k cfg] rest]; [contradiction|].
  exists k, cfg, rest. split; [reflexivity|].
  destruct (build_registry_gen _ _ _ _ _ E) as (_ & _ & _ & _ & Hkeys & _).
  apply (Hkeys _ _ _ Ht).
Qed.

Lemma NoDup_map_eq {A B : Type} (f : A -> B) (l : list A) (x y : A) :
  NoDup (map f l) -> In x l -> In y l -> f x = f y -> x = y.
Proof.
  induction l as [|a l IH]; cbn; [tauto|].
  intros Hnd Hx Hy Hf. inversion Hnd as [|? ? Ha Hnd']; subst.
  destruct Hx as [-> | Hx], Hy as [-> | Hy]; auto.
  - exfalso. apply Ha. rewrite Hf. apply in_map, Hy.
  - exfalso. apply Ha. rewrite <- Hf. apply in_map, Hx.
Qed.

(** X23: when the trees have distinct first keys and the merge returns,
    the first item of a tree with fewer entries comes before the first item
    of a tree with more entries. *)
Theorem X23_merge_orders_by_tree_size
    (trees : list (odict item)) (merged : list item)
    (ka kb : string) (ca cb : item) (ra rb : odict item) :
  merge_config_trees_to_list trees = Ok merged ->
  NoDup (map top_key trees) ->
  In ((ka, ca) :: ra) trees ->
  In ((kb, cb) :: rb) trees ->
  (List.length ((kb, cb) :: rb) < List.length ((ka, ca) :: ra))%nat ->
  exists l1 l2 l3, merged = l1 ++ cb :: l2 ++ ca :: l3.
Proof.
  intros Hmerge Hnd Ha Hb Hlt.
  pose proof Hmerge as Hm. unfold merge_config_trees_to_list in Hm.
  bind_inv Hm. destruct x as [reg m]. clear Hm.
  pose proof Hx as Hreg. unfold build_registry in Hx.
  destruct (build_registry_gen _ _ _ _ _ Hx) as (_ & _ & _ & Hfrom & Hkeys & _).
  assert (Hentry : forall k c r, In ((k, c) :: r) trees ->
            In (k, {| level := List.length ((k, c) :: r); config := c |}) reg).
  { intros k c r Hin.
    pose proof (Hkeys _ _ _ Hin) as Hk. apply in_map_iff in Hk.
    destruct Hk as ([k' e] & Hk' & He). cbn in Hk'. subst k'.
    destruct (Hfrom _ _ He) as [[] | (c' & r' & Hin' & ->)].
    assert (Heq : (k, c') :: r' = (k, c) :: r).
    { apply (NoDup_map_eq top_key trees); auto. }
    injection Heq as -> ->. exact He. }
  apply (merge_level_order trees merged reg m ka kb _ _ Hmerge Hreg
           (Hentry _ _ _ Ha) (Hentry _ _ _ Hb)).
  exact Hlt.
Qed.

(** *** Which exceptions the merge raises *)

Lemma foldM_err {A B : Type} (f : B -> A -> result B) (l : list A) (b : B)
    (e : error) :
  foldM f l b = Err e -> exists b' x, In x l /\ f b' x = Err e.
Proof.
  induction l as [|x l IH] in b |- *; cbn; [discriminate|].
  destruct (f b x) as [b1|e1] eqn:E; cbn.
  - intros H. destruct (IH _ H) as (b' & y & Hy & Hf).
    exists b', y. split; [right|]; assumption.
  - intros [= <-]. exists b, x. split; [left; reflexivity | exact E].
Qed.

Lemma mapM_err {A B : Type} (f : A -> result B) (l : list A) (e : error) :
  mapM f l = Err e -> exists x, In x l /\ f x = Err e.
Proof.
  induction l as [|x l IH]; cbn; [discriminate|].
  destruct (f x) as [y|e1] eqn:E; cbn.
  - destruct (mapM f l) as [ys|e2]; cbn; [discriminate|].
    intros [= <-]. destruct (IH eq_refl) as (z & Hz & Hf).
    exists z. split; [right|]; assumption.
  - intros [= <-]. exists x. split; [left; reflexivity | exact E].
Qed.

Lemma sorted_err {A : Type} (l : list A) (key : A -> result value)
    (e : error) :
  sorted l key = Err e -> e = TypeError \/ exists x, In x l /\ key x = Err e.
Proof.
  unfold sorted.
  destruct (mapM (fun x => k <- key x ;; Ok (k, x)) l) as [keyed|e1] eqn:E;
    cbn.
  - destruct (comparable (map fst keyed)); [discriminate|].
    intros [= <-]. left. reflexivity.
  - intros [= <-]. right. apply mapM_err in E.
    destruct E as (x & Hx & Hk). exists x. split; [exact Hx|].
    destruct (key x); cbn in Hk; [discriminate | congruence].
Qed.

Lemma sort_level_err (configs : list item) (e : error) :
  sort_level configs = Err e ->
  e = TypeError \/ e = KeyError \/ e = ValueError.
Proof.
  unfold sort_level.
  destruct (sorted (map fst (group_by_type configs)) (fun t => Ok (VStr t)))
    as [item_types|e1] eqn:E; cbn [bind].
  - intros H. apply foldM_err in H. destruct H as (b & t & _ & H).
    destruct (sorted_group (group_by_type configs) t) as [p|e2] eqn:Eg;
      [discriminate|]. cbn in H. injection H as <-.
    unfold sorted_group, _stype_to_order_key in Eg.
    destruct (dict_get order_key t) as [k|]; cbn [bind] in Eg;
      [|injection Eg as <-; auto].
    destruct (odict_get (group_by_type configs) t) as [g|]; cbn [bind] in Eg;
      [|injection Eg as <-; auto].
    apply sorted_err in Eg. destruct Eg as [-> | (x & _ & Hk)]; [auto|].
    unfold itemgetter in Hk. destruct (item_get x k); [discriminate|].
    injection Hk as <-. auto.
  - intros [= <-]. apply sorted_err in E.
    destruct E as [-> | (x & _ & Hk)]; [auto | discriminate].
Qed.

Lemma build_registry_err (trees : list (odict item))
    (st : odict entry * nat) (e : error) :
  foldM register_tree trees st = Err e -> e = IndexError /\ In [] trees.
Proof.
  induction trees as [|t trees IH] in st |- *; cbn [foldM]; [discriminate|].
  destruct st as [reg m]. destruct t as [|[k cfg] rest].
  - cbn. intros [= <-]. split; [reflexivity | left; reflexivity].
  - rewrite register_tree_nonempty. cbn [bind]. intros H.
    destruct (IH _ H) as [-> Hin]. split; [reflexivity | right; exact Hin].
Qed.

Lemma build_registry_empty_tree (trees : list (odict item))
    (st : odict entry * nat) :
  In [] trees -> foldM register_tree trees st = Err IndexError.
Proof.
  induction trees as [|t trees IH] in st |- *; intros Hin; [destruct Hin|].
  cbn [foldM]. destruct st as [reg m]. destruct t as [|[k cfg] rest].
  - reflexivity.
  - rewrite register_tree_nonempty. cbn [bind]. apply IH.
    destruct Hin as [Heq | Hin]; [discriminate | exact Hin].
Qed.

(** X24: merge_config_trees_to_list raises IndexError exactly when one of
    the trees is empty; every other exception it raises is a TypeError, a
    KeyError or a ValueError of the sorting of a level. *)
Theorem X24_merge_exceptions (trees : list (odict item)) :
  (merge_config_trees_to_list trees = Err IndexError <-> In [] trees) /\
  (forall e, merge_config_trees_to_list trees = Err e ->
     e = IndexError \/ e = TypeError \/ e = KeyError \/ e = ValueError).
Proof.
  assert (Hall : forall e, merge_config_trees_to_list trees = Err e ->
            (e = IndexError /\ In [] trees) \/
            e = TypeError \/ e = KeyError \/ e = ValueError).
  { intros e. unfold merge_config_trees_to_list, build_registry.
    destruct (foldM register_tree trees ([], 0%nat)) as [[reg m]|e1] eqn:E;
      cbn [bind].
    - intros H. apply foldM_err in H. destruct H as (b & lvl & _ & H).
      destruct (sort_level (level_configs reg lvl)) as [s|e2] eqn:Es;
        [discriminate|]. cbn in H. injection H as <-.
      right. apply (sort_level_err _ _ Es).
    - intros [= <-]. left. apply (build_registry_err _ _ _ E). }
  split.
  - split.
    + intros H. destruct (Hall _ H) as [[_ Hin] | [H' | [H' | H']]];
        [exact Hin | discriminate..].
    + intros Hin. unfold merge_config_trees_to_list, build_registry.
      rewrite build_registry_empty_tree by exact Hin. reflexivity.
  - intros e H. destruct (Hall e H) as [[-> _] | H']; auto.
Qed.

(** *** The order within a level *)

Lemma group_by_type_groups (configs : list item) (t : string)
    (g : list item) :
  In (t, g) (group_by_type configs) ->
  g <> [] /\ Forall (fun c => type c = t) g.
Proof.
  unfold group_by_type.
  assert (H : forall sreg,
            (forall t g, In (t, g) sreg ->
               g <> [] /\ Forall (fun c => type c = t) g) ->
            forall t g, In (t, g) (fold_left group_step configs sreg) ->
              g <> [] /\ Forall (fun c => type c = t) g).
  { induction configs as [|cfg configs IH]; intros sreg Hs; cbn; [exact Hs|].
    apply IH. intros t' g' Hin. unfold group_step in Hin.
    destruct (odict_get sreg (type cfg)) as [l|] eqn:E;
      apply odict_set_In in Hin; destruct Hin as [[= -> ->] | Hin];
      try (apply (Hs _ _ Hin)).
    - apply odict_get_In in E. destruct (Hs _ _ E) as [_ Hl].
      split; [intros H0; apply app_eq_nil in H0; destruct H0; discriminate|].
      apply Forall_app. split; [exact Hl | repeat constructor].
    - split; [discriminate | repeat constructor]. }
  apply H. intros t' g' [].
Qed.

Lemma Sorted_app_last {A : Type} (R : A -> A -> Prop) (l1 l2 : list A) :
  Sorted R l1 -> Sorted R l2 ->
  (forall x y, hd_error (rev l1) = Some x -> hd_error l2 = Some y -> R x y) ->
  Sorted R (l1 ++ l2).
Proof.
  induction l1 as [|a l1 IH]; intros H1 H2 Hlink; cbn; [exact H2|].
  inversion H1 as [|? ? H1' Hhd]; subst.
  constructor.
  - apply IH; [exact H1' | exact H2|].
    intros x y Hx Hy. apply Hlink; [|exact Hy]. cbn.
    destruct (rev l1) as [|z r]; [discriminate|]. cbn in *. exact Hx.
  - destruct l1 as [|c l1]; cbn.
    + destruct l2 as [|y l2]; constructor. apply Hlink; reflexivity.
    + constructor. inversion Hhd; assumption.
Qed.

Lemma string_ltb_total (a b : string) :
  a <> b -> String.ltb b a = false -> String.ltb a b = true.
Proof.
  unfold String.ltb. rewrite (String.compare_antisym a b). intros Hne.
  destruct (String.compare b a) eqn:E; cbn; try congruence.
  apply String.compare_eq_iff in E. congruence.
Qed.

(** X25: what sort_level returns is in order of type, by name, and within
    one type in order of the type's order key. *)
Theorem X25_sort_level_order (configs r : list item) :
  sort_level configs = Ok r -> Sorted level_order r.
Proof.
  unfold sort_level. intros H. bind_inv H.
  destruct (group_by_type_spec configs) as [Hnd _].
  pose proof (group_by_type_groups configs) as Hgroups.
  set (sreg := group_by_type configs) in *.
  pose proof (sorted_perm _ _ _ Hx) as Hperm.
  pose proof (sorted_sorted _ _ _ Hx) as Hsorted.
  assert (Hnd_types : NoDup x).
  { apply (Permutation_NoDup (Permutation_sym Hperm) Hnd). }
  assert (Hstrict : Sorted (fun a b => String.ltb a b = true) x).
  { clear - Hsorted Hnd_types.
    induction Hsorted as [|a l Hs IH Hhd]; [constructor|].
    inversion Hnd_types as [|? ? Ha Hl]; subst.
    constructor; [apply IH, Hl|].
    destruct Hhd as [|b l (ka & kb & [= <-] & [= <-] & Hlt)]; constructor.
    apply string_ltb_total.
    - intros ->. apply Ha. left. reflexivity.
    - exact Hlt. }
  apply (foldM_parts (sorted_group sreg)) in H.
  destruct H as (parts & Hparts & ->). cbn [app].
  clear Hx Hperm Hsorted Hnd_types.
  (* every part is a sorted, non-empty run of configs of its type *)
  assert (Hpart : forall t p, sorted_group sreg t = Ok p ->
            p <> [] /\ Forall (fun c => type c = t) p /\
            Sorted level_order p).
  { intros t p Hp. unfold sorted_group in Hp.
    bind_inv Hp. bind_inv Hp.
    destruct (odict_get sreg t) as [g|] eqn:Eg; [|discriminate].
    injection Hx0 as <-.
    destruct (Hgroups t g (odict_get_In _ _ _ Eg)) as [Hne Hty].
    pose proof (sorted_perm _ _ _ Hp) as Hpg.
    assert (Hty' : Forall (fun c => type c = t) p).
    { apply Forall_forall. intros c Hc.
      apply (proj1 (Forall_forall _ _) Hty), (Permutation_in _ Hpg), Hc. }
    split.
    { intros ->. apply Permutation_nil in Hpg. contradiction. }
    split; [exact Hty'|].
    pose proof (sorted_sorted _ _ _ Hp) as Hs. clear - Hs Hty' Hx.
    induction Hs as [|a l Hs IH Hhd]; [constructor|].
    inversion Hty' as [|? ? Ha Hl]; subst.
    constructor; [apply IH, Hl|].
    destruct Hhd as [|b l (ka & kb & Hka & Hkb & Hle)]; constructor.
    inversion Hl as [|? ? Hb _]; subst.
    right. split; [congruence|]. exists x0. split; [exact Hx|].
    exists ka, kb. rewrite <- !itemgetter_ok. auto. }
  revert Hstrict.
  induction Hparts as [|t p ts ps Hp Hps IH]; intros Hstrict;
    cbn; [constructor|].
  inversion Hstrict as [|? ? Hts Hhd]; subst.
  destruct (Hpart t p Hp) as (Hne & Hty & Hsp).
  apply Sorted_app_last; [exact Hsp | apply IH, Hts|].
  intros a b Ha Hb.
  destruct Hps as [|t' p' ts' ps' Hp' _]; [discriminate|].
  destruct (Hpart t' p' Hp') as (Hne' & Hty' & _).
  destruct p' as [|b' p']; [contradiction|]. cbn in Hb. injection Hb as <-.
  inversion Hty' as [|? ? Hb' _]; subst.
  assert (Hina : In a p).
  { apply in_rev. destruct (rev p) as [|z r]; [discriminate|].
    injection Ha as ->. left. reflexivity. }
  rewrite Forall_forall in Hty. rewrite <- (Hty a Hina) in Hhd.
  left. inversion Hhd; subst. assumption.
Qed.

(** ** ptable_uuid_to_flag_entry *)

Lemma upper_ascii_idem (c : ascii) :
  BlockMeta.upper_ascii (BlockMeta.upper_ascii c) = BlockMeta.upper_ascii c.
Proof. destruct c as [[] [] [] [] [] [] [] []]; reflexivity. Qed.

Lemma upper_ascii_dash (c : ascii) :
  Ascii.eqb "-" (BlockMeta.upper_ascii c) = Ascii.eqb "-" c.
Proof. destruct c as [[] [] [] [] [] [] [] []]; reflexivity. Qed.

Lemma upper_idem (s : string) :
  BlockMeta.upper (BlockMeta.upper s) = BlockMeta.upper s.
Proof.
  induction s as [|c s IH]; cbn; [reflexivity|].
  rewrite upper_ascii_idem, IH. reflexivity.
Qed.

Lemma has_char_dash_upper (s : string) :
  has_char "-" (BlockMeta.upper s) = has_char "-" s.
Proof.
  induction s as [|c s IH]; cbn [BlockMeta.upper has_char]; [reflexivity|].
  rewrite upper_ascii_dash, IH. reflexivity.
Qed.

Lemma upper_empty (s : string) :
  String.eqb (BlockMeta.upper s) "" = String.eqb s "".
Proof. destruct s; reflexivity. Qed.

Lemma upper_append (s1 s2 : string) :
  BlockMeta.upper (s1 ++ s2) = (BlockMeta.upper s1 ++ BlockMeta.upper s2)%string.
Proof.
  induction s1 as [|c s1 IH]; cbn; [reflexivity|]. rewrite IH. reflexivity.
Qed.

(** X26: ptable_uuid_to_flag_entry reads a type the same in either case of
    its letters, and a type code the same with and without the 0x in front
    of it. *)
Theorem X26_type_spelling (g : string) :
  is_ascii g = true ->
  ptable_uuid_to_flag_entry (Some (BlockMeta.upper g))
  = ptable_uuid_to_flag_entry (Some g) /\
  (g <> "" -> has_char "-" g = false ->
   String.prefix "0X" (BlockMeta.upper g) = false ->
   ptable_uuid_to_flag_entry (Some ("0x" ++ g)%string)
   = ptable_uuid_to_flag_entry (Some g)).
Proof.
  intros _. split.
  - unfold ptable_uuid_to_flag_entry.
    rewrite upper_empty, has_char_dash_upper, upper_idem.
    destruct (negb (String.eqb g "") && negb (has_char "-" g)
              && negb (String.prefix "0X" (BlockMeta.upper g))).
    + change (String.eqb ("0x" ++ BlockMeta.upper g) "") with false.
      change (String.eqb ("0x" ++ g) "") with false.
      rewrite !upper_append, upper_idem. reflexivity.
    + rewrite upper_empty, upper_idem. reflexivity.
  - intros Hne Hdash Hpre.
    unfold ptable_uuid_to_flag_entry.
    rewrite Hdash, Hpre.
    destruct (String.eqb_spec g "") as [-> | _]; [contradiction|].
    change (has_char "-" ("0x" ++ g)) with (has_char "-" g).
    rewrite Hdash.
    replace (String.prefix "0X" (BlockMeta.upper ("0x" ++ g))) with true
      by (destruct g; reflexivity).
    reflexivity.
Qed.

Section TypeRoundTrip.
Context {amount : Type} (human2bytes : amount -> Z).

(** X27: the type GPTPartTable.add writes for the flag of an action is read
    back by ptable_uuid_to_flag_entry as that flag; and add writes no type
    exactly when the action has no flag or a flag that is no key of
    FLAG_TO_GUID. *)
Theorem X27_gpt_type_reads_back
    (t t' : BlockMeta.SFDiskPartTable) (a : BlockMeta.action amount)
    (e : BlockMeta.PartTableEntry) :
  BlockMeta.GPTPartTable_add human2bytes t a = (t', Ok e) ->
  (forall guid, BlockMeta.type e = Some guid ->
     fst (ptable_uuid_to_flag_entry (Some guid)) = BlockMeta.action_flag a) /\
  (BlockMeta.type e = None <->
   forall f, BlockMeta.action_flag a = Some f ->
             ~ In f (map fst BlockMeta.FLAG_TO_GUID)).
Proof.
  unfold BlockMeta.GPTPartTable_add.
  destruct (BlockMeta.size_of_action human2bytes t a) as [sz|err];
    [|discriminate].
  intros [= _ <-]. cbn [BlockMeta.type].
  unfold BlockMeta.flag_lookup.
  destruct (BlockMeta.action_flag a) as [f|].
  - split.
    + intros guid Hg. apply dict_get_In in Hg.
      cbn in Hg.
      repeat (destruct Hg as [[= <- <-] | Hg]; [vm_compute; reflexivity|]).
      destruct Hg.
    + split.
      * intros Hnone f' [= <-] Hin.
        destruct (dict_get_key_Some _ _ Hin) as [v Hv]. congruence.
      * intros H. destruct (dict_get BlockMeta.FLAG_TO_GUID f) eqn:E;
          [|reflexivity].
        exfalso. apply (H f eq_refl). apply (dict_get_Some_key _ _ _ E).
  - split; [discriminate|]. split; [discriminate | reflexivity].
Qed.

End TypeRoundTrip.

(** ** extract_storage_config: the order of the configs *)

Lemma ordered_flat_map (configs : list item) :
  ordered configs = flat_map (fun ty => of_type ty configs) extraction_order.
Proof. unfold ordered. cbn. rewrite app_nil_r. reflexivity. Qed.

Lemma of_type_of_type (ty ty' : string) (configs : list item) :
  of_type ty (of_type ty' configs)
  = if String.eqb ty ty' then of_type ty configs else [].
Proof.
  unfold of_type. induction configs as [|c configs IH]; cbn.
  - destruct (String.eqb ty ty'); reflexivity.
  - destruct (String.eqb_spec (type c) ty') as [E' | N']; cbn.
    + destruct (String.eqb_spec (type c) ty) as [E | N].
      * rewrite IH. rewrite <- E, <- E', String.eqb_refl. reflexivity.
      * exact IH.
    + rewrite IH. destruct (String.eqb_spec ty ty') as [<- | _];
        [|reflexivity].
      destruct (String.eqb_spec (type c) ty); [contradiction | reflexivity].
Qed.

Lemma of_type_app (ty : string) (l1 l2 : list item) :
  of_type ty (l1 ++ l2) = of_type ty l1 ++ of_type ty l2.
Proof. apply filter_app. Qed.

Lemma of_type_flat_map (tys : list string) (ty : string)
    (configs : list item) :
  NoDup tys ->
  of_type ty (flat_map (fun t => of_type t configs) tys)
  = if existsb (String.eqb ty) tys then of_type ty configs else [].
Proof.
  induction 1 as [|t tys Hnin Hnd IH]; cbn [flat_map existsb];
    [reflexivity|].
  rewrite of_type_app, of_type_of_type, IH.
  destruct (String.eqb_spec ty t) as [-> | _]; cbn [orb]; [|reflexivity].
  destruct (existsb (String.eqb t) tys) eqn:E; [|apply app_nil_r].
  exfalso. apply Hnin. apply existsb_exists in E.
  destruct E as (x & Hx & Heq). apply String.eqb_eq in Heq. subst. exact Hx.
Qed.

Lemma filter_orb_perm {A : Type} (f g : A -> bool) (l : list A) :
  (forall x, f x && g x = false) ->
  Permutation (filter f l ++ filter g l) (filter (fun x => f x || g x) l).
Proof.
  intros Hfg. induction l as [|x l IH]; cbn; [constructor|].
  specialize (Hfg x).
  destruct (f x), (g x); cbn in *; try discriminate.
  - constructor. exact IH.
  - apply Permutation_sym, Permutation_cons_app, Permutation_sym, IH.
  - exact IH.
Qed.

Lemma flat_map_of_type_perm (tys : list string) (configs : list item) :
  NoDup tys ->
  Permutation (flat_map (fun t => of_type t configs) tys)
              (filter (fun c => existsb (String.eqb (type c)) tys) configs).
Proof.
  induction 1 as [|t tys Hnin Hnd IH]; cbn [flat_map existsb].
  - induction configs; cbn; [constructor | assumption].
  - eapply Permutation_trans;
      [apply Permutation_app_head, IH|].
    unfold of_type.
    apply (filter_orb_perm (fun c => String.eqb (type c) t)
             (fun c => existsb (String.eqb (type c)) tys)).
    intros c. destruct (String.eqb_spec (type c) t) as [-> | _];
      [|reflexivity]. cbn.
    destruct (existsb (String.eqb t) tys) eqn:E; [|reflexivity].
    exfalso. apply Hnin. apply existsb_exists in E.
    destruct E as (x & Hx & Heq). apply String.eqb_eq in Heq. subst. exact Hx.
Qed.

Lemma extraction_order_NoDup : NoDup extraction_order.
Proof.
  unfold extraction_order.
  repeat (constructor; [cbn; intuition discriminate|]). constructor.
Qed.

Lemma extraction_order_types (ty : string) :
  existsb (String.eqb ty) extraction_order
  = existsb (String.eqb ty) storage_types.
Proof.
  apply eq_true_iff_eq. rewrite !existsb_exists.
  assert (H : In ty extraction_order <-> In ty storage_types)
    by (cbn; tauto).
  split; intros (x & Hx & Heq); apply String.eqb_eq in Heq; subst x;
    exists ty; (split; [apply H, Hx | apply String.eqb_refl]).
Qed.

(** X28: the list extract_storage_config orders holds the configs whose
    type is a key of STORAGE_CONFIG_TYPES, each as often as it was found, and
    drops the others; the configs of one type stay in the order they were
    found in; and ordering an ordered list changes nothing. *)
Theorem X28_ordered_keeps_known_types (configs : list item) :
  Permutation
    (ordered configs)
    (filter (fun c => existsb (String.eqb (type c)) storage_types) configs) /\
  (forall ty, of_type ty (ordered configs)
              = if existsb (String.eqb ty) storage_types
                then of_type ty configs else []) /\
  ordered (ordered configs) = ordered configs.
Proof.
  assert (Hty : forall ty, of_type ty (ordered configs)
              = if existsb (String.eqb ty) extraction_order
                then of_type ty configs else []).
  { intros ty. rewrite ordered_flat_map.
    apply of_type_flat_map, extraction_order_NoDup. }
  split; [|split].
  - rewrite ordered_flat_map.
    eapply Permutation_trans;
      [apply flat_map_of_type_perm, extraction_order_NoDup|].
    erewrite filter_ext; [apply Permutation_refl|].
    intros c. apply extraction_order_types.
  - intros ty. rewrite Hty, extraction_order_types. reflexivity.
  - unfold ordered at 1. rewrite !Hty. reflexivity.
Qed.

(** ** The theorems above on concrete configurations *)

Lemma X15_validated_references_witness :
  exists dep_cfg allowed,
    config_get sda_sconfig (RStr "sda") = Some dep_cfg /\
    dict_get depends (type sda1) = Some allowed /\
    In (type dep_cfg) allowed.
Proof.
  apply (X15_validated_references written_order 1000 (RStr "sda1")
           sda_sconfig sda1 [RStr "sda"; RStr "sda1"; RStr "sda2"]
           ["device"] "device" (VStr "sda") (RStr "sda")).
  - vm_compute. reflexivity.
  - reflexivity.
  - reflexivity.
  - left. reflexivity.
  - reflexivity.
  - left. reflexivity.
Defined.

Lemma loop0_depends_on_loop0 : depends_on loop_sconfig "loop0" "loop0".
Proof.
  apply (depends_trans _ "loop0" "loop1" "loop0"); [|apply depends_direct].
  - exists loop0, ["backing_device"; "cache_device"], "backing_device",
      (VStr "loop1").
    repeat split; try reflexivity; left; reflexivity.
  - exists loop1, ["backing_device"; "cache_device"], "backing_device",
      (VStr "loop0").
    repeat split; try reflexivity; left; reflexivity.
Qed.

Lemma X17_cycle_never_returns_witness :
  exists e,
    find_item_dependencies written_order 1000 (RStr "loop0") loop_sconfig true
    = Err e.
Proof.
  apply (X17_cycle_never_returns written_order loop_sconfig "loop0" 1000
           true).
  - exact written_order_perm.
  - exact loop0_depends_on_loop0.
Defined.

Lemma X18_tree_is_part_of_configuration_witness :
  let t := [("sda1", sda1); ("sda", sda); ("sda2", sda2)] in
  (exists root rest,
     t = ("sda1", root) :: rest /\ odict_get sda_sconfig "sda1" = Some root) /\
  NoDup (map fst t) /\
  (forall k c, In (k, c) t -> odict_get sda_sconfig k = Some c) /\
  (1 <= List.length t <= List.length sda_sconfig)%nat.
Proof.
  apply (X18_tree_is_part_of_configuration written_order 1000 "sda1"
           sda_config [("sda1", sda1); ("sda", sda); ("sda2", sda2)]
           sda_sconfig).
  - vm_compute. reflexivity.
  - reflexivity.
Defined.

Lemma X20_extract_last_item_wins_witness :
  NoDup (map fst sda_sconfig) /\
  forall k, odict_get sda_sconfig k
            = find (fun c => String.eqb (id c) k) (rev sda_config).
Proof.
  apply (X20_extract_last_item_wins sda_config sda_sconfig).
  reflexivity.
Defined.

Lemma X21_config_tree_to_list_reverses_witness :
  let tree := [("sda1", sda1); ("sda", sda); ("sda2", sda2)] in
  config_tree_to_list tree = Ok (rev (map snd tree)) /\
  (forall k root rest, tree = (k, root) :: rest ->
     config_tree_to_list tree = Ok (rev (map snd rest) ++ [root])).
Proof.
  apply (X21_config_tree_to_list_reverses
           [("sda1", sda1); ("sda", sda); ("sda2", sda2)]).
  repeat (constructor; [cbn; intuition discriminate|]). constructor.
Defined.

Lemma X23_merge_orders_by_tree_size_witness :
  exists l1 l2 l3, [sda; sda1; sda2] = l1 ++ sda :: l2 ++ sda1 :: l3.
Proof.
  apply (X23_merge_orders_by_tree_size sda_trees [sda; sda1; sda2]
           "sda1" "sda" sda1 sda [("sda", sda); ("sda2", sda2)] []).
  - vm_compute. reflexivity.
  - repeat (constructor; [cbn; intuition discriminate|]). constructor.
  - right. left. reflexivity.
  - left. reflexivity.
  - cbn. lia.
Defined.

Lemma X25_sort_level_order_witness :
  Sorted level_order [bcache0; sda; sda1; sda2].
Proof.
  apply (X25_sort_level_order [sda2; sda; bcache0; sda1]).
  vm_compute. reflexivity.
Defined.

Lemma X26_type_spelling_witness :
  ptable_uuid_to_flag_entry (Some (BlockMeta.upper "c5"))
  = ptable_uuid_to_flag_entry (Some "c5") /\
  ("c5" <> "" -> has_char "-" "c5" = false ->
   String.prefix "0X" (BlockMeta.upper "c5") = false ->
   ptable_uuid_to_flag_entry (Some ("0x" ++ "c5")%string)
   = ptable_uuid_to_flag_entry (Some "c5")).
Proof.
  apply (X26_type_spelling "c5"). reflexivity.
Defined.

Lemma X27_gpt_type_reads_back_witness :
  let a := BlockMeta.sized_action (Some "boot") 1048576 in
  let e := {| BlockMeta.number := 1; BlockMeta.start := 2048;
              BlockMeta.size := 2048;
              BlockMeta.type := Some "C12A7328-F81F-11D2-BA4B-00A0C93EC93B";
              BlockMeta.uuid := None; BlockMeta.bootable := Some false |} in
  (forall guid, BlockMeta.type e = Some guid ->
     fst (ptable_uuid_to_flag_entry (Some guid)) = BlockMeta.action_flag a) /\
  (BlockMeta.type e = None <->
   forall f, BlockMeta.action_flag a = Some f ->
             ~ In f (map fst BlockMeta.FLAG_TO_GUID)).
Proof.
  apply (X27_gpt_type_reads_back BlockMeta.bytes_id BlockMeta.gpt_table_512
           (fst (BlockMeta.GPTPartTable_add BlockMeta.bytes_id
                   BlockMeta.gpt_table_512
                   (BlockMeta.sized_action (Some "boot") 1048576)))
           (BlockMeta.sized_action (Some "boot") 1048576)).
  vm_compute. reflexivity.
Defined.

End StorageConfigMore.
